(** * Scheduled DeckLink output: frame pool, schedule queue, audio anchor

    A shallow embedding of the scheduled output engine of
    [src/video_display/decklink.cpp]: the reference counted
    [DeckLinkFrame] objects and their [buffer_pool_t], the
    [PlaybackDelegate] (schedule queue, slot sequence, audio anchor) and
    the session entry points [display_decklink_getf],
    [display_decklink_putf] and [display_decklink_reconfigure].

    The output device is an opaque collaborator.  Every call the code makes
    on [IDeckLinkOutput] is appended to the [dev] trace of the state, and
    every answer the device gives (its buffered frame count, the outcome of
    a mode negotiation) is an argument of the function that asks for it.
    Mutexes are not modelled: each function below is one critical section
    of the source. *)

From Stdlib Require Import ZArith Lia Bool SpecFloat.
From stdpp Require Import base numbers list.

#[local] Open Scope Z_scope.

(** ** Machine integers *)

Definition INT64_MIN : Z := - 2 ^ 63.
Definition INT64_MAX : Z := 2 ^ 63 - 1.
Definition UINT32_MOD : Z := 2 ^ 32.

(** Conversion to [uint32_t]. *)
Definition to_uint32 (z : Z) : Z := z mod UINT32_MOD.

(** Conversion of an unsigned 64 bit pattern back to [int64_t]. *)
Definition to_int64 (z : Z) : Z := (z + 2 ^ 63) mod 2 ^ 64 - 2 ^ 63.

Definition is_int64 (z : Z) : Prop := INT64_MIN <= z <= INT64_MAX.
Definition is_uint32 (z : Z) : Prop := 0 <= z < UINT32_MOD.

(** ** Constants of the source *)

Definition SCHED_RANGE : Z := 2.
Definition DEFAULT_MIN_SCHED_FRAMES : Z := 4.
Definition DEFAULT_MAX_SCHED_FRAMES : Z := DEFAULT_MIN_SCHED_FRAMES + SCHED_RANGE.
Definition MAX_UNPROC_QUEUE_SIZE : Z := 10.

(** [enum audio_sync_val : int64_t] *)
Definition deinit : Z := INT64_MIN.
Definition resync : Z := INT64_MIN + 1.

(** Modelled from the spec: the SDK header that declares
    [bmdAudioSampleRate48kHz] is not part of the sources; the spec names it
    the audio sample rate, 48000 samples per second. *)
Definition bmdAudioSampleRate48kHz : Z := 48000.

(** ** What the sources leave to the platform

    [ULONG] is a typedef of the SDK (its width differs between platforms),
    [vc_get_linesize] and [uv_to_bmd_codec_map] live in other translation
    units.  They are parameters of the model. *)

Definition codec_t := Z.
Definition BMDPixelFormat := Z.

Class Platform := {
  ULONG_bits : positive;
  vc_get_linesize : Z -> codec_t -> Z;
  uv_to_bmd_codec_map : codec_t -> option BMDPixelFormat
}.

Definition ULONG_MOD `{Platform} : Z := 2 ^ Z.pos ULONG_bits.

(** ** Data *)

(** [struct video_desc]: the fields the modelled code reads.  Frame rate and
    interlacing only reach the device's mode lookup, whose answer is an
    input of [display_decklink_reconfigure]. *)
Record video_desc := mk_video_desc {
  width : Z;
  height : Z;
  color_spec : codec_t;
  tile_count : Z
}.

(** [class DeckLinkFrame].  A frame lives in the free store and is named by
    its address, a [nat].  [rightEye] is [Some] exactly for a
    [DeckLink3DFrame], which owns a second frame. *)
Record DeckLinkFrame := mk_frame {
  fr_width : Z;
  fr_height : Z;
  fr_rawBytes : Z;
  fr_pixelFormat : BMDPixelFormat;
  rightEye : option nat;
  ref : Z;
  timestamp : Z
}.

Definition set_ref (r : Z) (f : DeckLinkFrame) : DeckLinkFrame :=
  {| fr_width := fr_width f; fr_height := fr_height f;
     fr_rawBytes := fr_rawBytes f; fr_pixelFormat := fr_pixelFormat f;
     rightEye := rightEye f; ref := r; timestamp := timestamp f |}.

Definition set_timestamp (t : Z) (f : DeckLinkFrame) : DeckLinkFrame :=
  {| fr_width := fr_width f; fr_height := fr_height f;
     fr_rawBytes := fr_rawBytes f; fr_pixelFormat := fr_pixelFormat f;
     rightEye := rightEye f; ref := ref f; timestamp := t |}.

(** [struct audio_vals] *)
Record audio_vals := mk_audio_vals {
  saved_sync_ts : Z;
  last_sync_ts : Z
}.

Definition audio_vals_init : audio_vals :=
  {| saved_sync_ts := INT64_MIN; last_sync_ts := INT64_MIN |}.

(** [struct audio_desc]; the codec is always [AC_PCM]. *)
Record audio_desc := mk_audio_desc {
  bps : Z;
  sample_rate : Z;
  ch_count : Z
}.

(** Calls made on [IDeckLinkOutput], in program order. *)
Inductive dev_call :=
| ScheduleVideoFrame (f : option nat) (displayTime displayDuration timeScale : Z)
| ScheduleAudioSamples (sampleFrameCount streamTime timeScale : Z)
| DisplayVideoFrameSync (f : nat)
| StopScheduledPlayback
| SetScheduledFrameCompletionCallback (registered : bool)
| DisableVideoOutput
| DisableAudioOutput
| EnableVideoOutput
| EnableAudioOutput (sampleRate bytesPerSample channels : Z)
| StartScheduledPlayback (timeScale : Z).

(** The log lines of the scheduling path. *)
Inductive log_msg :=
| LateFrame (total : Z)
| DroppedFrame (total : Z)
| FlushedFrame (total : Z)
| QueueOverflow (buffered : Z)
| MissingFrame
| DismissedFrame (buffered : Z).

Inductive BMDOutputFrameCompletionResult :=
| bmdOutputFrameCompleted
| bmdOutputFrameDisplayedLate
| bmdOutputFrameDropped
| bmdOutputFrameFlushed.

(** [class PlaybackDelegate] *)
Record PlaybackDelegate := mk_delegate {
  frames_dropped : Z;
  frames_flushed : Z;
  frames_late : Z;
  schedFrames : list nat;
  lastSchedFrame : option nat;
  schedSeq : Z;
  m_audio_sync_ts : Z;
  m_adata : audio_vals;
  m_min_sched_frames : Z;
  m_max_sched_frames : Z;
  frameRateDuration : Z;
  frameRateScale : Z
}.

(** [struct state_decklink], together with the free store of frames and the
    two output traces. *)
Record state_decklink := mk_state {
  heap : list DeckLinkFrame;
  buffer_pool : list nat;
  delegate : PlaybackDelegate;
  vid_desc : video_desc;
  aud_desc : audio_desc;
  stereo : bool;
  initialized : bool;
  play_audio : bool;
  pixelFormat : BMDPixelFormat;
  low_latency : bool;
  audio_reconfigure : bool;
  dev : list dev_call;
  log : list log_msg
}.

(** *** Field updates *)

Definition upd_stats (fd ff fl : Z) (d : PlaybackDelegate) : PlaybackDelegate :=
  {| frames_dropped := fd; frames_flushed := ff; frames_late := fl;
     schedFrames := schedFrames d; lastSchedFrame := lastSchedFrame d;
     schedSeq := schedSeq d; m_audio_sync_ts := m_audio_sync_ts d;
     m_adata := m_adata d; m_min_sched_frames := m_min_sched_frames d;
     m_max_sched_frames := m_max_sched_frames d;
     frameRateDuration := frameRateDuration d;
     frameRateScale := frameRateScale d |}.

Definition upd_sched (q : list nat) (l : option nat) (n : Z)
    (d : PlaybackDelegate) : PlaybackDelegate :=
  {| frames_dropped := frames_dropped d; frames_flushed := frames_flushed d;
     frames_late := frames_late d;
     schedFrames := q; lastSchedFrame := l; schedSeq := n;
     m_audio_sync_ts := m_audio_sync_ts d;
     m_adata := m_adata d; m_min_sched_frames := m_min_sched_frames d;
     m_max_sched_frames := m_max_sched_frames d;
     frameRateDuration := frameRateDuration d;
     frameRateScale := frameRateScale d |}.

Definition upd_audio (ts : Z) (a : audio_vals) (d : PlaybackDelegate)
    : PlaybackDelegate :=
  {| frames_dropped := frames_dropped d; frames_flushed := frames_flushed d;
     frames_late := frames_late d;
     schedFrames := schedFrames d; lastSchedFrame := lastSchedFrame d;
     schedSeq := schedSeq d; m_audio_sync_ts := ts;
     m_adata := a; m_min_sched_frames := m_min_sched_frames d;
     m_max_sched_frames := m_max_sched_frames d;
     frameRateDuration := frameRateDuration d;
     frameRateScale := frameRateScale d |}.

Definition upd_rate (dur scale : Z) (d : PlaybackDelegate) : PlaybackDelegate :=
  {| frames_dropped := frames_dropped d; frames_flushed := frames_flushed d;
     frames_late := frames_late d;
     schedFrames := schedFrames d; lastSchedFrame := lastSchedFrame d;
     schedSeq := schedSeq d; m_audio_sync_ts := m_audio_sync_ts d;
     m_adata := m_adata d; m_min_sched_frames := m_min_sched_frames d;
     m_max_sched_frames := m_max_sched_frames d;
     frameRateDuration := dur; frameRateScale := scale |}.

Definition set_schedFrames q d := upd_sched q (lastSchedFrame d) (schedSeq d) d.
Definition set_lastSchedFrame l d := upd_sched (schedFrames d) l (schedSeq d) d.
Definition set_schedSeq n d := upd_sched (schedFrames d) (lastSchedFrame d) n d.
Definition set_audio_sync_ts ts d := upd_audio ts (m_adata d) d.
Definition set_adata a d := upd_audio (m_audio_sync_ts d) a d.

(** Free store and pool. *)
Definition upd_store (h : list DeckLinkFrame) (p : list nat)
    (s : state_decklink) : state_decklink :=
  {| heap := h; buffer_pool := p; delegate := delegate s;
     vid_desc := vid_desc s; aud_desc := aud_desc s; stereo := stereo s;
     initialized := initialized s; play_audio := play_audio s;
     pixelFormat := pixelFormat s; low_latency := low_latency s;
     audio_reconfigure := audio_reconfigure s; dev := dev s; log := log s |}.

Definition upd_delegate (g : PlaybackDelegate -> PlaybackDelegate)
    (s : state_decklink) : state_decklink :=
  {| heap := heap s; buffer_pool := buffer_pool s; delegate := g (delegate s);
     vid_desc := vid_desc s; aud_desc := aud_desc s; stereo := stereo s;
     initialized := initialized s; play_audio := play_audio s;
     pixelFormat := pixelFormat s; low_latency := low_latency s;
     audio_reconfigure := audio_reconfigure s; dev := dev s; log := log s |}.

(** Session configuration. *)
Definition upd_session (desc : video_desc) (st : bool) (pf : BMDPixelFormat)
    (ini ar : bool) (s : state_decklink) : state_decklink :=
  {| heap := heap s; buffer_pool := buffer_pool s; delegate := delegate s;
     vid_desc := desc; aud_desc := aud_desc s; stereo := st;
     initialized := ini; play_audio := play_audio s;
     pixelFormat := pf; low_latency := low_latency s;
     audio_reconfigure := ar; dev := dev s; log := log s |}.

Definition set_aud_desc (a : audio_desc) (s : state_decklink)
    : state_decklink :=
  {| heap := heap s; buffer_pool := buffer_pool s; delegate := delegate s;
     vid_desc := vid_desc s; aud_desc := a; stereo := stereo s;
     initialized := initialized s; play_audio := play_audio s;
     pixelFormat := pixelFormat s; low_latency := low_latency s;
     audio_reconfigure := audio_reconfigure s; dev := dev s; log := log s |}.

(** Output traces. *)
Definition upd_out (d : list dev_call) (l : list log_msg)
    (s : state_decklink) : state_decklink :=
  {| heap := heap s; buffer_pool := buffer_pool s; delegate := delegate s;
     vid_desc := vid_desc s; aud_desc := aud_desc s; stereo := stereo s;
     initialized := initialized s; play_audio := play_audio s;
     pixelFormat := pixelFormat s; low_latency := low_latency s;
     audio_reconfigure := audio_reconfigure s; dev := d; log := l |}.

Definition set_heap h s := upd_store h (buffer_pool s) s.
Definition set_buffer_pool p s := upd_store (heap s) p s.
Definition set_vid_desc v s :=
  upd_session v (stereo s) (pixelFormat s) (initialized s) (audio_reconfigure s) s.
Definition set_stereo b s :=
  upd_session (vid_desc s) b (pixelFormat s) (initialized s) (audio_reconfigure s) s.
Definition set_pixelFormat pf s :=
  upd_session (vid_desc s) (stereo s) pf (initialized s) (audio_reconfigure s) s.
Definition set_initialized b s :=
  upd_session (vid_desc s) (stereo s) (pixelFormat s) b (audio_reconfigure s) s.
Definition set_audio_reconfigure b s :=
  upd_session (vid_desc s) (stereo s) (pixelFormat s) (initialized s) b s.

(** ** A state monad over [state_decklink] *)

Definition M (A : Type) : Type := state_decklink -> A * state_decklink.

Definition ret {A} (a : A) : M A := fun s => (a, s).
Definition bind {A B} (c : M A) (k : A -> M B) : M B :=
  fun s => let (a, s') := c s in k a s'.
Definition gets {A} (g : state_decklink -> A) : M A := fun s => (g s, s).
Definition modify (g : state_decklink -> state_decklink) : M unit :=
  fun s => (tt, g s).

Declare Scope decklink_scope.
Delimit Scope decklink_scope with dl.
Notation "x <- c ;; k" := (bind c (fun x => k))
  (at level 20, c at level 99, k at level 200, only parsing) : decklink_scope.
Notation "c ;; k" := (bind c (fun _ => k))
  (at level 100, k at level 200, only parsing, right associativity)
  : decklink_scope.
#[local] Open Scope decklink_scope.

(** The delegate's view of the state. *)
Definition getd {A} (g : PlaybackDelegate -> A) : M A :=
  gets (fun s => g (delegate s)).
Definition modd (g : PlaybackDelegate -> PlaybackDelegate) : M unit :=
  modify (upd_delegate g).

(** [LOG(...) << ...] and a call on the output device. *)
Definition LOG (m : log_msg) : M unit :=
  modify (fun s => upd_out (dev s) (log s ++ [m]) s).
Definition call (c : dev_call) : M unit :=
  modify (fun s => upd_out (dev s ++ [c]) (log s) s).

(** ** The initial state

    The default member initialisers of [PlaybackDelegate] and
    [state_decklink]; [state_init] is the state after the option parser
    chose the execution mode and the lookahead bounds. *)

Definition delegate_init (min_sched max_sched : Z) : PlaybackDelegate :=
  {| frames_dropped := 0; frames_flushed := 0; frames_late := 0;
     schedFrames := []; lastSchedFrame := None; schedSeq := 0;
     m_audio_sync_ts := deinit; m_adata := audio_vals_init;
     m_min_sched_frames := min_sched; m_max_sched_frames := max_sched;
     frameRateDuration := 0; frameRateScale := 0 |}.

Definition state_init (low_lat : bool) (min_sched max_sched : Z)
    : state_decklink :=
  {| heap := []; buffer_pool := [];
     delegate := delegate_init min_sched max_sched;
     vid_desc := mk_video_desc 0 0 0 0;
     aud_desc := mk_audio_desc 2 48000 2;
     stereo := false; initialized := false; play_audio := false;
     pixelFormat := 0; low_latency := low_lat;
     audio_reconfigure := false; dev := []; log := [] |}.

(** ** Frames and the scheduler *)

Section Operations.
Context `{Platform}.

(** [f->timestamp]; a pointer that names no frame reads as unset. *)
Definition frame_timestamp (h : list DeckLinkFrame) (f : nat) : Z :=
  from_option timestamp INT64_MIN (h !! f).

Definition frame_ref (h : list DeckLinkFrame) (f : nat) : Z :=
  from_option ref 0 (h !! f).

(** [DeckLinkFrame::AddRef]: [return ++ref;] on an [atomic<ULONG>].  A call
    through a pointer that names no frame of the store is undefined in the
    source; the model leaves the state as it is. *)
Definition AddRef (f : nat) : M Z :=
  o <- gets (fun s => heap s !! f) ;;
  match o with
  | None => ret 0
  | Some fr =>
      let r := (ref fr + 1) mod ULONG_MOD in
      modify (fun s => set_heap (<[f := set_ref r fr]> (heap s)) s) ;;
      ret r
  end.

(** [DeckLinkFrame::Release]: [ret = --ref;] and, when [ret == 0], the frame
    is pushed onto the free list of its pool. *)
Definition Release (f : nat) : M Z :=
  o <- gets (fun s => heap s !! f) ;;
  match o with
  | None => ret 0
  | Some fr =>
      let r := (ref fr - 1) mod ULONG_MOD in
      modify (fun s => set_heap (<[f := set_ref r fr]> (heap s)) s) ;;
      (if r =? 0
       then modify (fun s => set_buffer_pool (buffer_pool s ++ [f]) s)
       else ret tt) ;;
      ret r
  end.

(** [RELEASE_IF_NOT_NULL(lastSchedFrame)] *)
Definition RELEASE_IF_NOT_NULL_lastSchedFrame : M unit :=
  l <- getd lastSchedFrame ;;
  match l with
  | None => ret tt
  | Some f => Release f ;; modd (set_lastSchedFrame None)
  end.

(** The [while] loop of [PlaybackDelegate::Reset]. *)
Fixpoint release_all (q : list nat) : M unit :=
  match q with
  | [] => ret tt
  | f :: rest => Release f ;; modd (set_schedFrames rest) ;; release_all rest
  end.

(** [PlaybackDelegate::Reset] *)
Definition Reset : M unit :=
  RELEASE_IF_NOT_NULL_lastSchedFrame ;;
  q <- getd schedFrames ;;
  release_all q ;;
  modd (set_schedSeq 0).

(** [PlaybackDelegate::ResetAudio] *)
Definition ResetAudio : M unit := modd (set_audio_sync_ts deinit).

(** [PlaybackDelegate::EnqueueFrame] *)
Definition EnqueueFrame (deckLinkFrame : nat) : M bool :=
  q <- getd schedFrames ;;
  let buffered := to_uint32 (Z.of_nat (length q)) in
  if buffered <? MAX_UNPROC_QUEUE_SIZE then
    modd (set_schedFrames (q ++ [deckLinkFrame])) ;;
    ret true
  else
    Release deckLinkFrame ;;
    LOG (QueueOverflow buffered) ;;
    modd (set_audio_sync_ts resync) ;;
    ret false.

(** The value stored in [m_audio_sync_ts] when a frame with timestamp [ts]
    is scheduled at sequence number [seq]:
    [(uint32_t) (ts - frameRateDuration * schedSeq * 90000 / frameRateScale)].
    The products, the truncating quotient and the difference are the
    [int64_t] operations of the source where [anchor_defined] holds.
    Outside that range the source is undefined (it divides by zero, or a
    signed operation overflows) and the value below stands for nothing. *)
Definition anchor_of (ts dur seq scale : Z) : Z :=
  to_uint32 (ts - Z.quot (dur * seq * 90000) scale).

(** The range in which the source computes that value within [int64_t]:
    the divisor is not zero, and the two products, the quotient and the
    difference are representable. *)
Definition anchor_defined (ts dur seq scale : Z) : Prop :=
  scale <> 0
  /\ is_int64 (dur * seq)
  /\ is_int64 (dur * seq * 90000)
  /\ is_int64 (Z.quot (dur * seq * 90000) scale)
  /\ is_int64 (ts - Z.quot (dur * seq * 90000) scale).

(** One iteration of the [while] loop of [ScheduleNextFrame], after
    [front()] and [pop()]; [i] is the counter after [++i]. *)
Definition schedule_one (f : nat) (i : Z) : M unit :=
  max_sched <- getd m_max_sched_frames ;;
  if max_sched <? i then
    LOG (DismissedFrame (to_uint32 (i - 1))) ;;
    Release f ;;
    ret tt
  else
    RELEASE_IF_NOT_NULL_lastSchedFrame ;;
    modd (set_lastSchedFrame (Some f)) ;;
    AddRef f ;;
    sync <- getd m_audio_sync_ts ;;
    ts <- gets (fun s => frame_timestamp (heap s) f) ;;
    dur <- getd frameRateDuration ;;
    scale <- getd frameRateScale ;;
    seq <- getd schedSeq ;;
    (if (sync <=? resync) && negb (ts =? INT64_MIN)
     then modd (set_audio_sync_ts (anchor_of ts dur seq scale))
     else ret tt) ;;
    call (ScheduleVideoFrame (Some f) (seq * dur) dur scale) ;;
    modd (set_schedSeq (seq + 1)).

(** The [while (!schedFrames.empty())] loop.  The body only ever pops, so
    the loop runs once for each frame that was queued on entry; [q] is the
    content of [schedFrames] and stays equal to it. *)
Fixpoint drain (q : list nat) (i : Z) : M unit :=
  match q with
  | [] => ret tt
  | f :: rest =>
      modd (set_schedFrames rest) ;;
      let i' := to_uint32 (i + 1) in
      schedule_one f i' ;;
      drain rest i'
  end.

(** [PlaybackDelegate::ScheduleNextFrame]; [b] is the count that
    [GetBufferedVideoFrameCount] stored in [i]. *)
Definition ScheduleNextFrame (b : Z) : M unit :=
  q <- getd schedFrames ;;
  match q with
  | [] =>
      min_sched <- getd m_min_sched_frames ;;
      if min_sched <=? b then ret tt
      else
        LOG MissingFrame ;;
        modd (set_audio_sync_ts resync) ;;
        l <- getd lastSchedFrame ;;
        dur <- getd frameRateDuration ;;
        scale <- getd frameRateScale ;;
        seq <- getd schedSeq ;;
        call (ScheduleVideoFrame l (seq * dur) dur scale) ;;
        modd (set_schedSeq (seq + 1))
  | _ :: _ => drain q b
  end.

(** [PlaybackDelegate::ScheduledFrameCompleted]: the completion callback.
    The timecode debug output is left out. *)
Definition ScheduledFrameCompleted (completedFrame : nat)
    (result : BMDOutputFrameCompletionResult) (b : Z) : M unit :=
  d <- getd id ;;
  match result with
  | bmdOutputFrameDisplayedLate =>
      modd (upd_stats (frames_dropped d) (frames_flushed d) (frames_late d + 1)) ;;
      LOG (LateFrame (frames_late d + 1))
  | bmdOutputFrameDropped =>
      modd (upd_stats (frames_dropped d + 1) (frames_flushed d) (frames_late d)) ;;
      LOG (DroppedFrame (frames_dropped d + 1))
  | bmdOutputFrameFlushed =>
      modd (upd_stats (frames_dropped d) (frames_flushed d + 1) (frames_late d)) ;;
      LOG (FlushedFrame (frames_flushed d + 1))
  | bmdOutputFrameCompleted => ret tt
  end ;;
  ScheduleNextFrame b ;;
  Release completedFrame ;;
  ret tt.

(** The range in which the source computes the stream time of a frame with
    timestamp [ts] against the baseline [base] within [int64_t]: the
    difference and its product with the sample rate are representable. *)
Definition stream_time_defined (ts base : Z) : Prop :=
  is_int64 (ts - base) /\ is_int64 ((ts - base) * bmdAudioSampleRate48kHz).

(** [PlaybackDelegate::ScheduleAudio].  [ts] is [frame->timestamp],
    [samples] the value of [*samples] on entry and [written] the count the
    device stores there; the result is [*samples] on return.  The
    difference [ts - last_sync_ts] and the stream time are the [int64_t]
    operations of the source where [stream_time_defined] holds for the
    baseline in use; outside that range the signed operations of the
    source overflow, which is undefined, and the stream time below stands
    for nothing. *)
Definition ScheduleAudio (ts samples written : Z) : M Z :=
  saved <- getd (fun d => saved_sync_ts (m_adata d)) ;;
  sync <- getd m_audio_sync_ts ;;
  if (saved =? INT64_MIN) && (sync =? deinit) then ret samples
  else
    (if negb (saved =? sync) && (resync <? sync)
     then modd (set_adata {| saved_sync_ts := sync; last_sync_ts := sync |})
     else ret tt) ;;
    a <- getd m_adata ;;
    (if ts <? last_sync_ts a
     then modd (set_adata {| saved_sync_ts := saved_sync_ts a;
                             last_sync_ts := to_int64 (last_sync_ts a - 2 ^ 32) |})
     else ret tt) ;;
    last <- getd (fun d => last_sync_ts (m_adata d)) ;;
    let streamTime := Z.quot ((ts - last) * bmdAudioSampleRate48kHz) 90000 in
    call (ScheduleAudioSamples samples streamTime bmdAudioSampleRate48kHz) ;;
    ret written.

End Operations.

(** ** The session *)

(** What the device answers during one [display_decklink_reconfigure]. *)
Record negotiation := mk_negotiation {
  (** the rate [get_mode] left in [frameRateDuration]/[frameRateScale], if
      it saw a display mode of the requested size *)
  mode_rate : option (Z * Z);
  (** [get_mode] found a display mode ([displayMode != bmdModeUnknown]) *)
  mode_found : bool;
  (** [DoesSupportVideoMode] succeeded and reported support *)
  mode_supported : bool;
  (** [EnableVideoOutput] succeeded *)
  video_enabled : bool;
  (** [EnableAudioOutput] succeeded *)
  audio_enabled : bool;
  (** [StartScheduledPlayback] succeeded *)
  playback_started : bool;
  (** the buffered frame count reported in the [j]-th pre-fill round *)
  prefill_buffered : nat -> Z
}.

Section Session.
Context `{Platform}.

Definition new_frame (w h rb : Z) (pf : BMDPixelFormat) (re : option nat)
    : DeckLinkFrame :=
  {| fr_width := w; fr_height := h; fr_rawBytes := rb; fr_pixelFormat := pf;
     rightEye := re; ref := 1; timestamp := INT64_MIN |}.

(** [allocate_new_decklink_frame]: [DeckLinkFrame::Create] or, in stereo
    mode, [DeckLink3DFrame::Create], which also creates the right eye. *)
Definition allocate_new_decklink_frame : M nat :=
  s <- gets id ;;
  let linesize := vc_get_linesize (width (vid_desc s)) (color_spec (vid_desc s)) in
  let n := length (heap s) in
  let mk := new_frame (width (vid_desc s)) (height (vid_desc s)) linesize
                      (pixelFormat s) in
  modify (set_heap (if stereo s
                    then heap s ++ [mk (Some (S n)); mk None]
                    else heap s ++ [mk None])) ;;
  ret n.

(** The test of the pool loop of [display_decklink_getf]: the dynamic cast
    succeeded and size, stride and pixel format are the requested ones. *)
Definition frame_matches (s : state_decklink) (fr : DeckLinkFrame) : bool :=
  (if stereo s then bool_decide (is_Some (rightEye fr)) else true)
  && (fr_width fr =? width (vid_desc s))
  && (fr_height fr =? height (vid_desc s))
  && (fr_rawBytes fr =? vc_get_linesize (width (vid_desc s)) (color_spec (vid_desc s)))
  && (fr_pixelFormat fr =? pixelFormat s).

(** The loop [while (!s->buffer_pool.frame_queue.empty())] of
    [display_decklink_getf]; [p] is the free list on entry.  The loop holds
    the pool lock, so a [Release] inside it that reached zero would lock
    the mutex a second time, which is undefined: on every defined run the
    loop sees exactly the entries of [p]. *)
Fixpoint pool_scan (p : list nat) : M (option nat) :=
  match p with
  | [] => ret None
  | tmp :: rest =>
      modify (fun s => set_buffer_pool (tail (buffer_pool s)) s) ;;
      s <- gets id ;;
      match heap s !! tmp with
      | Some fr =>
          if frame_matches s fr
          then AddRef tmp ;; ret (Some tmp)
          else Release tmp ;; pool_scan rest
      | None => pool_scan rest
      end
  end.

(** [PlaybackDelegate::EnqueueFrame] and [ScheduleNextFrame], [n] times,
    for the same frame: the [for] loop of [display_decklink_reconfigure].
    [j] counts the rounds already done.  The [assert(ret)] of the source
    never fires: the queue is empty at the start of every round. *)
Fixpoint prefill (n : nat) (j : nat) (f : nat) (env : negotiation) : M unit :=
  match n with
  | O => ret tt
  | S n' =>
      AddRef f ;;
      EnqueueFrame f ;;
      ScheduleNextFrame (prefill_buffered env j) ;;
      prefill n' (S j) f env
  end.

(** The bound of that loop, as the source computes it on [unsigned]:
    [(m_min_sched_frames + m_min_sched_frames) / 2]. *)
Definition prefill_count (d : PlaybackDelegate) : Z :=
  to_uint32 (m_min_sched_frames d + m_min_sched_frames d) / 2.

(** [display_decklink_reconfigure].  Calls that only write device
    configuration values are left out. *)
Definition display_decklink_reconfigure (env : negotiation) (desc : video_desc)
    : M bool :=
  ResetAudio ;;
  modify (set_vid_desc desc) ;;
  ini <- gets initialized ;;
  ll <- gets low_latency ;;
  pa <- gets play_audio ;;
  (if ini then
     (if negb ll then call StopScheduledPlayback else ret tt) ;;
     call (SetScheduledFrameCompletionCallback false) ;;
     call DisableVideoOutput ;;
     (if pa then call DisableAudioOutput else ret tt) ;;
     modify (set_initialized false)
   else ret tt) ;;
  Reset ;;
  match uv_to_bmd_codec_map (color_spec desc) with
  | None => ret false
  | Some pf =>
      modify (set_pixelFormat pf) ;;
      st0 <- gets stereo ;;
      (if (tile_count desc <=? 2)
          && negb (tile_count desc =? (if st0 then 2 else 1))
       then modify (set_stereo (negb st0))
       else ret tt) ;;
      st <- gets stereo ;;
      if st && negb (tile_count desc =? 2) then ret false
      else
        match mode_rate env with
        | Some (dur, scale) => modd (upd_rate dur scale)
        | None => ret tt
        end ;;
        if negb (mode_found env) then ret false
        else if negb (mode_supported env) then ret false
        else
          call EnableVideoOutput ;;
          if negb (video_enabled env) then ret false
          else
            audio_ok <-
              (if pa then
                 a <- gets aud_desc ;;
                 call (EnableAudioOutput bmdAudioSampleRate48kHz (bps a) (ch_count a)) ;;
                 ret (audio_enabled env)
               else ret true) ;;
            if negb audio_ok then ret false
            else
              started <-
                (if negb ll then
                   call (SetScheduledFrameCompletionCallback true) ;;
                   f <- allocate_new_decklink_frame ;;
                   n <- getd prefill_count ;;
                   prefill (Z.to_nat n) 0 f env ;;
                   Release f ;;
                   scale <- getd frameRateScale ;;
                   call (StartScheduledPlayback scale) ;;
                   if playback_started env then ret true
                   else call DisableVideoOutput ;; ret false
                 else ret true) ;;
              if negb started then ret false
              else
                modify (set_initialized true) ;;
                modify (set_audio_reconfigure false) ;;
                ret true
  end.

(** [display_decklink_getf]; the result is the [DeckLinkFrame] behind the
    returned [video_frame], [None] for [nullptr].  [env] answers the
    reconfiguration that a pending audio change triggers. *)
Definition display_decklink_getf (env : negotiation) : M (option nat) :=
  ini <- gets initialized ;;
  if negb ini then ret None
  else
    ar <- gets audio_reconfigure ;;
    ok <-
      (if ar then
         desc <- gets vid_desc ;;
         r <- display_decklink_reconfigure env desc ;;
         if r then modify (set_audio_reconfigure false) ;; ret true
         else ret false
       else ret true) ;;
    if negb ok then ret None
    else
      p <- gets buffer_pool ;;
      o <- pool_scan p ;;
      deckLinkFrame <-
        match o with
        | Some f => ret f
        | None => allocate_new_decklink_frame
        end ;;
      st <- gets stereo ;;
      fr <- gets (fun s => heap s !! deckLinkFrame) ;;
      match st, fr ≫= rightEye with
      | true, Some eye => AddRef eye ;; Release eye ;; ret tt
      | _, _ => ret tt
      end ;;
      ret (Some deckLinkFrame).

(** [display_decklink_putf]; [frame] is [None] for a null [video_frame] and
    otherwise its [DeckLinkFrame] and timestamp.  Range conversion of the
    pixels, timecode and statistics output are left out. *)
Definition display_decklink_putf (frame : option (nat * Z)) : M bool :=
  match frame with
  | None => ret true
  | Some (deckLinkFrame, ts) =>
      ll <- gets low_latency ;;
      if ll then
        call (DisplayVideoFrameSync deckLinkFrame) ;;
        Release deckLinkFrame ;;
        ret true
      else
        modify (fun s =>
          set_heap (alter (set_timestamp ts) deckLinkFrame (heap s)) s) ;;
        EnqueueFrame deckLinkFrame
  end.

(** [is_power_of_two] is declared in a header of the repository that is
    not among the sources at hand; it is modelled from its name: [x] is
    [2^k] for some [k] below 64. *)
Definition is_power_of_two (x : Z) : bool :=
  existsb (fun k => x =? 2 ^ Z.of_nat k) (seq 0 64).

(** [display_decklink_reconfigure_audio]; [None] when one of its three
    [assert]s fails (a build with assertions, as for
    [display_decklink_put_audio_frame]). *)
Definition display_decklink_reconfigure_audio
    (quant_samples channels rate : Z) : M (option bool) :=
  pa <- gets play_audio ;;
  if negb pa then ret None
  else if negb ((2 <=? channels) && negb (channels =? 4) && (channels <=? 64)
                && is_power_of_two channels) then ret None
  else if negb ((quant_samples =? 16) || (quant_samples =? 32)) then ret None
  else
    a <- gets aud_desc ;;
    let bps' := Z.quot quant_samples 8 in
    (if negb (bps' =? bps a) || negb (rate =? sample_rate a)
        || negb (channels =? ch_count a)
     then
       modify (set_aud_desc (mk_audio_desc bps' rate channels)) ;;
       modify (set_audio_reconfigure true)
     else ret tt) ;;
    ret (Some true).

End Session.

(** ** Runs of the session *)

(** What happens to a session in scheduled mode: the producer submits a
    frame, or the device retires a slot and reports a frame as completed,
    together with its buffered count at that moment. *)
Inductive op :=
| Submit (f : nat) (ts : Z)
| Completed (f : nat) (result : BMDOutputFrameCompletionResult) (b : Z).

Section Runs.
Context `{Platform}.

(** [display_decklink_putf] for each frame of [frames], in order; the
    result lists what the calls returned. *)
Fixpoint submit_all (frames : list (nat * Z)) : M (list bool) :=
  match frames with
  | [] => ret []
  | fr :: rest =>
      r <- display_decklink_putf (Some fr) ;;
      rs <- submit_all rest ;;
      ret (r :: rs)
  end.

Definition step (o : op) : M unit :=
  match o with
  | Submit f ts => display_decklink_putf (Some (f, ts)) ;; ret tt
  | Completed f result b => ScheduledFrameCompleted f result b
  end.

Fixpoint run (ops : list op) : M unit :=
  match ops with
  | [] => ret tt
  | o :: rest => step o ;; run rest
  end.

End Runs.

(** The frames that a run submits, in call order. *)
Definition submitted (ops : list op) : list nat :=
  omap (fun o => match o with Submit f _ => Some f | _ => None end) ops.

(** ** Vocabulary of the statements *)

(** A step that only touches the free store and the pool, and no
    timestamp. *)
Definition store_step (s s' : state_decklink) : Prop :=
  exists h p,
    s' = upd_store h p s
    /\ length h = length (heap s)
    /\ forall g, frame_timestamp h g = frame_timestamp (heap s) g.

(** State [s] with store [h], pool [p], delegate [d] and output traces [D]
    and [L]; the session configuration stays that of [s]. *)
Definition after (s : state_decklink) (h : list DeckLinkFrame) (p : list nat)
    (d : PlaybackDelegate) (D : list dev_call) (L : list log_msg)
    : state_decklink :=
  upd_out D L (upd_delegate (fun _ => d) (upd_store h p s)).

(** The frames of [l] scheduled at consecutive slots from sequence number
    [n] on: the [j]-th at display time [(n + j) * dur]. *)
Definition sched_events (dur scale n : Z) (l : list nat) : list dev_call :=
  imap (fun j f => ScheduleVideoFrame (Some f) ((n + Z.of_nat j) * dur) dur scale) l.

(** One "dismissed" log line for each frame of [l], reporting the buffered
    counts [i], [i + 1], ... *)
Definition dismissals (i : Z) (l : list nat) : list log_msg :=
  imap (fun j _ => DismissedFrame (i + Z.of_nat j)) l.

(** The first frame of [l] that carries a timestamp, with the sequence
    number it is scheduled at when [l] starts at [n]. *)
Fixpoint first_stamped (ts : nat -> Z) (n : Z) (l : list nat) : option (Z * Z) :=
  match l with
  | [] => None
  | f :: l' =>
      if ts f =? INT64_MIN then first_stamped ts (n + 1) l' else Some (ts f, n)
  end.

(** The anchor a drain leaves in [m_audio_sync_ts] when it schedules the
    frames [l], in this order, starting from delegate [d]: unchanged unless
    the state is [deinit] or [resync] and some frame of [l] is stamped. *)
Definition published_anchor (ts : nat -> Z) (d : PlaybackDelegate)
    (l : list nat) : Z :=
  if m_audio_sync_ts d <=? resync then
    match first_stamped ts (schedSeq d) l with
    | Some (t, n) => anchor_of t (frameRateDuration d) n (frameRateScale d)
    | None => m_audio_sync_ts d
    end
  else m_audio_sync_ts d.

(** Delegate [d] after a drain: empty queue, last scheduled frame [l],
    sequence number [n], anchor [y]. *)
Definition drained (d : PlaybackDelegate) (l : option nat) (n y : Z)
    : PlaybackDelegate :=
  upd_sched [] l n (upd_audio y (m_adata d) d).

(** The frames that [ScheduleVideoFrame] calls of a device trace name. *)
Definition video_frames (D : list dev_call) : list nat :=
  omap (fun c => match c with ScheduleVideoFrame f _ _ _ => f | _ => None end) D.

(** [l] with every element repeated one or more times in place. *)
Inductive stutter {A} : list A -> list A -> Prop :=
| stutter_nil : stutter [] []
| stutter_keep x l l' : stutter l l' -> stutter (l ++ [x]) (l' ++ [x])
| stutter_again x l l' : stutter (l ++ [x]) l' -> stutter (l ++ [x]) (l' ++ [x]).


(** The order invariant of a run that started with the frames [pre] last
    scheduled: what the device was handed since trace [D0] is, repeats
    apart, a list [S] of frames such that [S] followed by the queue is a
    subsequence of the submitted frames [sub], and the last scheduled frame
    is the last of [pre ++ S]. *)
Definition ordered (pre sub : list nat) (D0 : list dev_call)
    (s : state_decklink) : Prop :=
  low_latency s = false
  /\ exists S D,
       dev s = D0 ++ D
       /\ stutter (pre ++ S) (pre ++ video_frames D)
       /\ (S ++ schedFrames (delegate s)) `sublist_of` sub
       /\ lastSchedFrame (delegate s) = last (pre ++ S).

(** The invariant of the free list: every frame on it is a frame of the
    store with count 0, and no frame is on the list twice. *)
Definition pool_inv (s : state_decklink) : Prop :=
  NoDup (buffer_pool s)
  /\ Forall (fun f => ref <$> heap s !! f = Some 0) (buffer_pool s).

(** Scheduled mode with at most [MAX_UNPROC_QUEUE_SIZE] frames queued. *)
Definition queue_bounded (s : state_decklink) : Prop :=
  low_latency s = false
  /\ Z.of_nat (length (schedFrames (delegate s))) <= MAX_UNPROC_QUEUE_SIZE.

(** ** A concrete platform

    Used where a statement is evaluated: a 32 bit [ULONG], two bytes per
    pixel, and a pixel format for every codec. *)
Definition platform32 : Platform :=
  {| ULONG_bits := 32;
     vc_get_linesize := fun w _ => 2 * w;
     uv_to_bmd_codec_map := fun c => Some c |}.

(** The same with a 64 bit [ULONG]. *)
Definition platform64 : Platform :=
  {| ULONG_bits := 64;
     vc_get_linesize := fun w _ => 2 * w;
     uv_to_bmd_codec_map := fun c => Some c |}.

(** A device that accepts every request, runs at 50 frames per second and
    holds one more frame after each pre-fill round. *)
Definition negotiation_ok : negotiation :=
  {| mode_rate := Some (1000, 50000); mode_found := true;
     mode_supported := true; video_enabled := true; audio_enabled := true;
     playback_started := true; prefill_buffered := fun j => Z.of_nat j |}.

(** 1920x1080, one tile, codec 0. *)
Definition desc_1080 : video_desc := mk_video_desc 1920 1080 0 1.

(** The [ScheduleVideoFrame] calls of a device trace. *)
Definition is_video_call (c : dev_call) : bool :=
  match c with ScheduleVideoFrame _ _ _ _ => true | _ => false end.

(** *** Scenarios

    A session in scheduled mode with the default lookahead (at least 4, at
    most 6 frames), running at 50 frames per second, whose producer holds
    [n] frames of 1920x1080; the frames are the addresses [0 .. n-1]. *)
Definition scenario_start (n : nat) (min_sched max_sched : Z) : state_decklink :=
  upd_store (replicate n (new_frame 1920 1080 3840 0 None)) []
    (upd_delegate (upd_rate 1000 50000) (state_init false min_sched max_sched)).

(** The frames [0 .. n-1], each stamped [1800] ticks after the one before,
    starting at [100]. *)
Definition scenario_frames (n : nat) : list (nat * Z) :=
  (fun j => (j, 100 + 1800 * Z.of_nat j)) <$> seq 0 n.

(** The producer submitted [n] frames and the device has not called back. *)
Definition scenario_submitted (n : nat) (min_sched max_sched : Z)
    : state_decklink :=
  snd (@submit_all platform32 (scenario_frames n)
         (scenario_start n min_sched max_sched)).

(** The session after [display_decklink_reconfigure] succeeded in scheduled
    mode with the default lookahead. *)
Definition scenario_running : state_decklink :=
  snd (@display_decklink_reconfigure platform32 negotiation_ok desc_1080
         (state_init false DEFAULT_MIN_SCHED_FRAMES DEFAULT_MAX_SCHED_FRAMES)).

(** Six slots retire while the producer delivers nothing; each time the
    device reports three buffered frames. *)
Definition underrun6 : list op :=
  replicate 6 (Completed 0 bmdOutputFrameCompleted 3).

(** The producer of the running session acquired a frame (address [1]),
    stamped it [ts] and submitted it. *)
Definition scenario_first_frame (ts : Z) : state_decklink :=
  snd (@display_decklink_putf platform32 (Some (1%nat, ts))
         (snd (@display_decklink_getf platform32 negotiation_ok scenario_running))).

(** The producer of the running session acquired two frames (addresses
    [1] and [2]). *)
Definition scenario_two_acquired : state_decklink :=
  snd (@display_decklink_getf platform32 negotiation_ok
         (snd (@display_decklink_getf platform32 negotiation_ok scenario_running))).

(** The producer submits both; then three slots retire, the device
    reporting three buffered frames each time. *)
Definition two_frames_three_slots : list op :=
  [Submit 1 100; Submit 2 1900;
   Completed 0 bmdOutputFrameCompleted 3;
   Completed 0 bmdOutputFrameCompleted 3;
   Completed 0 bmdOutputFrameCompleted 3].

(** Ten of eleven frames are queued: the queue is full. *)
Definition scenario_full : state_decklink :=
  snd (@submit_all platform32 (scenario_frames 10) (scenario_start 11 4 6)).

(** The device also plays audio: the flag that [display_decklink_init]
    sets from the [DISPLAY_FLAG_AUDIO_*] flags. *)
Definition with_audio (s : state_decklink) : state_decklink :=
  {| heap := heap s; buffer_pool := buffer_pool s; delegate := delegate s;
     vid_desc := vid_desc s; aud_desc := aud_desc s; stereo := stereo s;
     initialized := initialized s; play_audio := true;
     pixelFormat := pixelFormat s; low_latency := low_latency s;
     audio_reconfigure := audio_reconfigure s; dev := dev s; log := log s |}.

(** A running session with audio, after the audio format changed to eight
    channels of 32 bit samples. *)
Definition scenario_audio_pending : state_decklink :=
  snd (display_decklink_reconfigure_audio 32 8 48000
         (snd (@display_decklink_reconfigure platform32 negotiation_ok desc_1080
                 (with_audio (state_init false DEFAULT_MIN_SCHED_FRAMES
                                DEFAULT_MAX_SCHED_FRAMES))))).

(** The producer of [scenario_two_acquired] gave frame [1] back without
    submitting it. *)
Definition scenario_one_returned : state_decklink :=
  snd (@Release platform32 1 scenario_two_acquired).

(** Thirteen submissions with no completion in between. *)
Definition thirteen_submissions : list op :=
  (fun x => Submit (fst x) (snd x)) <$> scenario_frames 13.

(** ** Producers, audio and teardown *)

(** A step of the scheduler that leaves the queue empty: store, pool,
    last scheduled frame and sequence number may change, the traces grow,
    no timestamp changes. *)
Definition sched_only (s s' : state_decklink) : Prop :=
  exists h p l n D L,
    s' = after s h p (upd_sched [] l n (delegate s)) (dev s ++ D) (log s ++ L)
    /\ length h = length (heap s)
    /\ forall g, frame_timestamp h g = frame_timestamp (heap s) g.

(** A Hoare triple over the state monad: from a state that satisfies [P],
    [c] returns a result and a state that satisfy [Q]. *)
Definition hoare {A} (P : state_decklink -> Prop) (c : M A)
    (Q : A -> state_decklink -> Prop) : Prop :=
  forall s, P s -> Q (fst (c s)) (snd (c s)).

Section Producer.
Context `{Platform}.

(** One round of a producer: acquire a buffer with [display_decklink_getf],
    stamp it [ts] and hand it to [display_decklink_putf]. *)
Definition produce_one (env : negotiation) (ts : Z) : M bool :=
  o <- display_decklink_getf env ;;
  match o with
  | None => ret false
  | Some f => display_decklink_putf (Some (f, ts))
  end.

Fixpoint produce (env : negotiation) (tss : list Z) : M (list bool) :=
  match tss with
  | [] => ret []
  | ts :: rest =>
      r <- produce_one env ts ;;
      rs <- produce env rest ;;
      ret (r :: rs)
  end.

End Producer.

(** The free list holds a frame that [display_decklink_getf] accepts. *)
Definition pool_has_match `{Platform} (s : state_decklink) : Prop :=
  exists f fr, f ∈ buffer_pool s /\ heap s !! f = Some fr
               /\ frame_matches s fr = true.

(** A session in low-latency mode that [display_decklink_getf] serves
    from the pool: initialized, mono, no audio reconfiguration pending. *)
Definition low_latency_ready (s : state_decklink) : Prop :=
  pool_inv s /\ initialized s = true /\ audio_reconfigure s = false
  /\ stereo s = false /\ low_latency s = true.

(** The [DisplayVideoFrameSync] calls of a device trace. *)
Definition displayed (D : list dev_call) : list nat :=
  omap (fun c => match c with DisplayVideoFrameSync f => Some f | _ => None end) D.

(** ** Audio output *)

(** [struct audio_frame]: the fields that
    [display_decklink_put_audio_frame] reads. *)
Record audio_frame := mk_audio_frame {
  af_bps : Z;
  af_ch_count : Z;
  af_data_len : Z;
  af_timestamp : Z
}.

(** What the device answers during one
    [display_decklink_put_audio_frame], and whether [log_level] is at
    least [LOG_LEVEL_DEBUG]. *)
Record audio_answers := mk_audio_answers {
  (** the count [GetBufferedAudioSampleFrameCount] stores *)
  buffered_samples : Z;
  (** [WriteAudioSamplesSync] did not fail *)
  write_succeeded : bool;
  (** the count the device stores in [sampleFramesWritten] *)
  samples_written : Z;
  debug_logging : bool
}.

(** What one call writes to the log, hands to the device in low-latency
    mode, and reports to the [AudioDriftFixer], in program order.  The
    [ScheduleAudioSamples] call of scheduled mode goes to the [dev] trace;
    it comes after the underflow warning and before the other events. *)
Inductive audio_event :=
| AudioUnderflowWarning
| WriteAudioSamplesSync (sampleFrameCount : Z)
| WriteAudioSamplesFailed
| AudioBufferMessage (overflow : bool)
| DriftFixerUpdate (buffered sampleFrameCount sampleFramesWritten : Z).

(** [display_decklink_put_audio_frame]; [None] when [assert(s->play_audio)]
    fails.  The quotient is the [int] division of the source as long as
    the product stays in range and is not zero. *)
Definition display_decklink_put_audio_frame (env : audio_answers)
    (frame : audio_frame) : M (option (list audio_event)) :=
  pa <- gets play_audio ;;
  if negb pa then ret None
  else
    ar <- gets audio_reconfigure ;;
    if ar then ret (Some [])
    else
      let sampleFrameCount :=
        to_uint32 (Z.quot (af_data_len frame)
                          (af_bps frame * af_ch_count frame)) in
      let buffered := buffered_samples env in
      let underflow :=
        if buffered =? 0 then [AudioUnderflowWarning] else [] in
      let finish (events : list audio_event) (sampleFramesWritten : Z) :=
        let overflow := negb (sampleFramesWritten =? sampleFrameCount) in
        Some (events
              ++ (if overflow || debug_logging env
                  then [AudioBufferMessage overflow] else [])
              ++ [DriftFixerUpdate buffered sampleFrameCount
                    sampleFramesWritten]) in
      ll <- gets low_latency ;;
      if ll then
        if negb (write_succeeded env)
        then ret (Some (underflow
                        ++ [WriteAudioSamplesSync sampleFrameCount;
                            WriteAudioSamplesFailed]))
        else ret (finish (underflow ++ [WriteAudioSamplesSync sampleFrameCount])
                         (samples_written env))
      else
        w <- ScheduleAudio (af_timestamp frame) sampleFrameCount
               (samples_written env) ;;
        ret (finish underflow w).

(** The calls with which [display_decklink_reconfigure] and
    [display_decklink_done] shut an initialized output down; [audio_last]
    tells whether audio is disabled after video
    ([display_decklink_reconfigure]) or before it
    ([display_decklink_done]). *)
Definition teardown_calls (audio_last : bool) (s : state_decklink)
    : list dev_call :=
  if initialized s then
    (if low_latency s then [] else [StopScheduledPlayback])
    ++ [SetScheduledFrameCompletionCallback false]
    ++ (if audio_last
        then [DisableVideoOutput]
             ++ (if play_audio s then [DisableAudioOutput] else [])
        else (if play_audio s then [DisableAudioOutput] else [])
             ++ [DisableVideoOutput])
  else [].

(** [o] is a completion callback with result [r]. *)
Definition is_completion (r : BMDOutputFrameCompletionResult) (o : op) : bool :=
  match o, r with
  | Completed _ bmdOutputFrameCompleted _, bmdOutputFrameCompleted
  | Completed _ bmdOutputFrameDisplayedLate _, bmdOutputFrameDisplayedLate
  | Completed _ bmdOutputFrameDropped _, bmdOutputFrameDropped
  | Completed _ bmdOutputFrameFlushed _, bmdOutputFrameFlushed => true
  | _, _ => false
  end.

(** The number of completion callbacks with result [r] in a run. *)
Fixpoint completions (r : BMDOutputFrameCompletionResult) (ops : list op) : Z :=
  match ops with
  | [] => 0
  | o :: rest => (if is_completion r o then 1 else 0) + completions r rest
  end.

(** The three counters of [PlaybackDelegate]: frames dropped, flushed and
    late. *)
Definition stats (d : PlaybackDelegate) : Z * Z * Z :=
  (frames_dropped d, frames_flushed d, frames_late d).

(** ** Releases *)

(** The number of times [g] occurs in [l]. *)
Fixpoint occurrences (g : nat) (l : list nat) : Z :=
  match l with
  | [] => 0
  | f :: rest => (if Nat.eqb f g then 1 else 0) + occurrences g rest
  end.

(** The count of a frame after [n] calls of [Release], from the count
    [r]. *)
Definition released `{Platform} (r n : Z) : Z :=
  if n =? 0 then r else (r - n) mod ULONG_MOD.

(** The frames that [PlaybackDelegate::Reset] releases, in this order: the
    last scheduled frame, then the queue. *)
Definition held_frames (d : PlaybackDelegate) : list nat :=
  match lastSchedFrame d with Some f => [f] | None => [] end ++ schedFrames d.

(** ** Shutdown *)

Section Done.
Context `{Platform}.



End Done.

(** ** The COM face of a frame *)

(** The interface identifiers that the two [QueryInterface] methods tell
    apart; [IID_other] stands for every other identifier. *)
Inductive REFIID :=
| IID_IUnknown
| IID_IDeckLinkVideoFrame
| IID_IDeckLinkVideoFrameMetadataExtensions
| IID_IDeckLinkVideoFrame3DExtensions
| IID_other.

Inductive HRESULT := S_OK | E_NOINTERFACE | E_INVALIDARG.

Inductive BMDFrameFlags := bmdFrameFlagDefault | bmdFrameContainsHDRMetadata.

(** [HDR_EOTF::NONE] *)
Definition HDR_EOTF_NONE : Z := -1.

(** [DeckLinkFrame::GetFlags]; [EOTF] is [m_metadata.EOTF], the copy of
    [requested_hdr_mode.EOTF] that every frame of a session is created
    with. *)
Definition GetFlags (EOTF : Z) : BMDFrameFlags :=
  if EOTF =? HDR_EOTF_NONE then bmdFrameFlagDefault
  else bmdFrameContainsHDRMetadata.

Section Interfaces.
Context `{Platform}.

(** [DeckLinkFrame::QueryInterface].  [ppv] tells whether the out pointer
    is not null; the result is the [HRESULT] and the frame that [*ppv]
    names on return, if any. *)
Definition DeckLinkFrame_QueryInterface (EOTF : Z) (this : nat)
    (iid : REFIID) (ppv : bool) : M (HRESULT * option nat) :=
  if negb ppv then ret (E_INVALIDARG, None)
  else
    match iid with
    | IID_IUnknown | IID_IDeckLinkVideoFrame =>
        AddRef this ;; ret (S_OK, Some this)
    | IID_IDeckLinkVideoFrameMetadataExtensions =>
        if EOTF =? HDR_EOTF_NONE then ret (E_NOINTERFACE, None)
        else AddRef this ;; ret (S_OK, Some this)
    | _ => ret (E_NOINTERFACE, None)
    end.

(** [DeckLink3DFrame::QueryInterface].  It stores through [data] without
    a test; a null [data] is undefined there. *)
Definition DeckLink3DFrame_QueryInterface (EOTF : Z) (this : nat)
    (id : REFIID) (data : bool) : M (HRESULT * option nat) :=
  match id with
  | IID_IDeckLinkVideoFrame3DExtensions =>
      AddRef this ;; ret (S_OK, Some this)
  | _ => DeckLinkFrame_QueryInterface EOTF this id data
  end.

(** The virtual call [frame->QueryInterface(...)]: a frame that owns a
    right eye is a [DeckLink3DFrame]. *)
Definition QueryInterface (EOTF : Z) (this : nat) (iid : REFIID)
    (ppv : bool) : M (HRESULT * option nat) :=
  fr <- gets (fun s => heap s !! this) ;;
  match fr ≫= rightEye with
  | Some _ => DeckLink3DFrame_QueryInterface EOTF this iid ppv
  | None => DeckLinkFrame_QueryInterface EOTF this iid ppv
  end.

End Interfaces.

(** ** Stereo *)

(** Every right eye is in the store and held by its parent: its count is
    at least 1. *)
Definition eyes_inv `{Platform} (s : state_decklink) : Prop :=
  forall f fr e, heap s !! f = Some fr -> rightEye fr = Some e ->
    exists fe, heap s !! e = Some fe /\ 1 <= ref fe < ULONG_MOD.

(** ** Timecode *)

(** IEEE 754 binary64, the [double] of the source. *)
Definition double_sub : spec_float -> spec_float -> spec_float := SFsub 53 1024.

(** Conversion of an integer to [double]. *)
Definition double_of_Z (z : Z) : spec_float := binary_normalize 53 1024 z 0 false.

(** [ceil] of [<cmath>] on a [double]. *)
Definition double_ceil (x : spec_float) : spec_float :=
  match x with
  | S754_finite sgn m e =>
      if 0 <=? e then x
      else
        let q := Z.pos m / 2 ^ (- e) in
        let n := if sgn then - q
                 else if Z.pos m mod 2 ^ (- e) =? 0 then q else q + 1 in
        if n =? 0 then S754_zero sgn else binary_normalize 53 1024 n 0 false
  | _ => x
  end.

(** [const float epsilon = 0.005]: the [float] nearest to 0.005 is
    [10737418 * 2^-31]; as a [double] it has the 53 bit mantissa below. *)
Definition epsilon : spec_float := S754_finite false 5764607394185216 (-60).

Definition to_uint8 (z : Z) : Z := z mod 256.

(** [DeckLinkTimecode::GetComponents]: hours, minutes, seconds and frames
    of a BCD timecode, each stored to a [uint8_t]. *)
Definition GetComponents (timecode : Z) : Z * Z * Z * Z :=
  let frames := to_uint8 (Z.land timecode 0xf
                          + Z.shiftr (Z.land timecode 0xf0) 4 * 10) in
  let seconds := to_uint8 (Z.shiftr (Z.land timecode 0xf00) 8
                           + Z.shiftr (Z.land timecode 0xf000) 12 * 10) in
  let minutes := to_uint8 (Z.shiftr (Z.land timecode 0xf0000) 16
                           + Z.shiftr (Z.land timecode 0xf00000) 20 * 10) in
  let hours := to_uint8 (Z.shiftr (Z.land timecode 0xf000000) 24
                         + Z.shiftr (Z.land timecode 0xf0000000) 28 * 10) in
  (hours, minutes, seconds, frames).

(** [ceil(fps) - fps > epsilon] *)
Definition dropFrame (fps : spec_float) : bool :=
  SFltb epsilon (double_sub (double_ceil fps) fps).

(** [(double) frames > fps - epsilon] *)
Definition frame_count_reached (fps : spec_float) (frames : Z) : bool :=
  SFltb (double_sub fps epsilon) (double_of_Z frames).

(** [update_timecode]: the timecode that [tc->SetBCD] stores, from the one
    [tc] held.  The shifts are those of the source as long as they stay
    within [int], which they do for less than 80 hours. *)
Definition update_timecode (timecode : Z) (fps : spec_float) : Z :=
  let '(hours, minutes, seconds, frames) := GetComponents timecode in
  let frames := to_uint8 (frames + 1) in
  let '(hours, minutes, seconds, frames) :=
    if frame_count_reached fps frames then
      let seconds := to_uint8 (seconds + 1) in
      if 60 <=? seconds then
        let minutes := to_uint8 (minutes + 1) in
        let seconds :=
          if dropFrame fps && negb (minutes mod 10 =? 0) then 2 else 0 in
        if 60 <=? minutes then
          let hours := to_uint8 (hours + 1) in
          (if 24 <=? hours then 0 else hours, 0, seconds, 0)
        else (hours, minutes, seconds, 0)
      else (hours, minutes, seconds, 0)
    else (hours, minutes, seconds, frames) in
  to_uint32
    (Z.lor (Z.lor (Z.lor (Z.lor (Z.lor (Z.lor (Z.lor
       (frames mod 10)
       (Z.shiftl (frames / 10) 4))
       (Z.shiftl (seconds mod 10) 8))
       (Z.shiftl (seconds / 10) 12))
       (Z.shiftl (minutes mod 10) 16))
       (Z.shiftl (minutes / 10) 20))
       (Z.shiftl (hours mod 10) 24))
       (Z.shiftl (hours / 10) 28)).

(** [n] calls of [update_timecode] at the same rate. *)
Fixpoint update_timecode_n (n : nat) (timecode : Z) (fps : spec_float) : Z :=
  match n with
  | O => timecode
  | S n' => update_timecode_n n' (update_timecode timecode fps) fps
  end.

(** The position of a timecode in the day, in frames, at [rate] frames per
    second. *)
Definition frame_number (rate : Z) (c : Z * Z * Z * Z) : Z :=
  let '(hours, minutes, seconds, frames) := c in
  ((hours * 60 + minutes) * 60 + seconds) * rate + frames.

(** A time of the day at [rate] frames per second. *)
Definition valid_timecode (rate : Z) (c : Z * Z * Z * Z) : Prop :=
  let '(hours, minutes, seconds, frames) := c in
  0 <= hours < 24 /\ 0 <= minutes < 60 /\ 0 <= seconds < 60
  /\ 0 <= frames < rate.

(** The [assert] of [DeckLinkTimecode::GetString] on the components of the
    timecode. *)
Definition GetString_asserts (c : Z * Z * Z * Z) : Prop :=
  let '(hours, minutes, seconds, frames) := c in
  hours <= 99 /\ minutes <= 59 /\ seconds <= 60 /\ frames <= 99.

(** [update_timecode] counts [rate] frames to the second at [fps]: its
    test fires at [rate] and at no smaller count, and the rate is not a
    drop-frame one. *)
Definition counts_to (fps : spec_float) (rate : Z) : bool :=
  negb (dropFrame fps)
  && frame_count_reached fps rate
  && forallb (fun k => negb (frame_count_reached fps (Z.of_nat k)))
       (seq 1 (Z.to_nat rate - 1)).

Definition fps25 : spec_float := double_of_Z 25.

(** ** Display mode lookup *)

Inductive BMDFieldDominance :=
| bmdUnknownFieldDominance
| bmdLowerFieldFirst
| bmdUpperFieldFirst
| bmdProgressiveFrame
| bmdProgressiveSegmentedFrame.

(** What an [IDeckLinkDisplayMode] of the device's iterator reports;
    [dm_named] tells whether its [GetName] succeeded. *)
Record display_mode := mk_display_mode {
  dm_named : bool;
  dm_width : Z;
  dm_height : Z;
  dm_dominance : BMDFieldDominance;
  dm_duration : Z;
  dm_scale : Z;
  dm_mode : Z
}.

(** The [double] nearest to [0.01]. *)
Definition one_hundredth : spec_float :=
  S754_finite false 5764607523034235 (-59).

(** The size test of the loop of [get_mode]. *)
Definition mode_fits (desc : video_desc) (m : display_mode) : bool :=
  dm_named m && (dm_width m =? width desc) && (dm_height m =? height desc).

(** The rate and interlacing test:
    [fabs(desc.fps - displayFPS) < 0.01 &&
     (desc.interlacing == INTERLACED_MERGED) == interlaced]. *)
Definition mode_selected (fps : spec_float) (interlaced_merged : bool)
    (m : display_mode) : bool :=
  let interlaced :=
    match dm_dominance m with
    | bmdLowerFieldFirst | bmdUpperFieldFirst => true
    | _ => false
    end in
  let displayFPS :=
    SFdiv 53 1024 (double_of_Z (dm_scale m)) (double_of_Z (dm_duration m)) in
  SFltb (SFabs (double_sub fps displayFPS)) one_hundredth
  && eqb interlaced_merged interlaced.

Section GetMode.

(** [bmdModeUnknown], a constant of the SDK. *)
Variable bmdModeUnknown : Z.

(** The [while] loop of [get_mode] over the modes the iterator yields;
    [rate] is the content of [*frameRateDuration] and [*frameRateScale].
    [fps] and [interlaced_merged] are [desc.fps] and
    [desc.interlacing == INTERLACED_MERGED]. *)
Fixpoint get_mode_loop (modes : list display_mode) (desc : video_desc)
    (fps : spec_float) (interlaced_merged : bool) (rate : Z * Z)
    : Z * (Z * Z) :=
  match modes with
  | [] => (bmdModeUnknown, rate)
  | m :: rest =>
      if mode_fits desc m then
        let rate' := (dm_duration m, dm_scale m) in
        if mode_selected fps interlaced_merged m
        then (dm_mode m, rate')
        else get_mode_loop rest desc fps interlaced_merged rate'
      else get_mode_loop rest desc fps interlaced_merged rate
  end.

(** [get_mode]; [modes] is [None] when [GetDisplayModeIterator] fails.
    The result is the display mode and the content of the two rate
    parameters on return. *)
Definition get_mode (modes : option (list display_mode)) (desc : video_desc)
    (fps : spec_float) (interlaced_merged : bool) (rate : Z * Z)
    : Z * (Z * Z) :=
  match modes with
  | None => (bmdModeUnknown, rate)
  | Some l => get_mode_loop l desc fps interlaced_merged rate
  end.

End GetMode.

(** ** Further scenarios *)

(** The session after [display_decklink_reconfigure] succeeded in
    low-latency mode. *)
Definition scenario_low_latency : state_decklink :=
  snd (@display_decklink_reconfigure platform32 negotiation_ok desc_1080
         (state_init true DEFAULT_MIN_SCHED_FRAMES DEFAULT_MAX_SCHED_FRAMES)).

(** A running session in scheduled mode that also plays audio. *)
Definition scenario_with_audio : state_decklink :=
  snd (@display_decklink_reconfigure platform32 negotiation_ok desc_1080
         (with_audio (state_init false DEFAULT_MIN_SCHED_FRAMES
                        DEFAULT_MAX_SCHED_FRAMES))).

(** 960 stereo samples of 16 bit, and a device with an empty audio buffer
    that takes all of them. *)
Definition stereo_packet : audio_frame :=
  {| af_bps := 2; af_ch_count := 2; af_data_len := 3840; af_timestamp := 100 |}.

Definition device_takes_all : audio_answers :=
  {| buffered_samples := 0; write_succeeded := true; samples_written := 960;
     debug_logging := false |}.

(** Two submissions and three completions, one of them late and one
    dropped. *)
Definition late_and_dropped : list op :=
  [Submit 0 100; Submit 1 1900;
   Completed 0 bmdOutputFrameDisplayedLate 1;
   Completed 1 bmdOutputFrameDropped 0;
   Completed 0 bmdOutputFrameCompleted 0].

(** The [double] nearest to 29.97. *)
Definition fps2997 : spec_float := S754_finite false 8435805052018360 (-48).

(** The modes of a device: 1080i50, 1080p25 and 1080p50, each with its
    frame duration and time scale. *)
Definition modes_1080 : list display_mode :=
  [ mk_display_mode true 1920 1080 bmdUpperFieldFirst 1000 25000 1 ;
    mk_display_mode true 1920 1080 bmdProgressiveFrame 1000 25000 2 ;
    mk_display_mode true 1920 1080 bmdProgressiveFrame 1000 50000 3 ].

(** 1920x1080 in two tiles: a stereo stream. *)
Definition desc_1080_3d : video_desc := mk_video_desc 1920 1080 0 2.

(** A stereo session in low-latency mode whose producer acquired a frame
    and displayed it: the frame (address [0]) is on the free list, its
    right eye (address [1]) is held by it. *)
Definition scenario_stereo_returned : state_decklink :=
  snd (@produce platform32 negotiation_ok [100]
         (snd (@display_decklink_reconfigure platform32 negotiation_ok
                 desc_1080_3d
                 (state_init true DEFAULT_MIN_SCHED_FRAMES
                    DEFAULT_MAX_SCHED_FRAMES)))).

(** * Properties *)

Ltac unfold_monad :=
  unfold getd, modd, LOG, call, bind, ret, gets, modify in *.

Section StoreLemmas.
Context `{Platform}.

Lemma ULONG_MOD_gt_1 : 1 < ULONG_MOD.
Proof.
  unfold ULONG_MOD.
  assert (2 ^ 1 <= 2 ^ Z.pos ULONG_bits) by (apply Z.pow_le_mono_r; lia).
  lia.
Qed.

Lemma store_step_refl s : store_step s s.
Proof. exists (heap s), (buffer_pool s). by destruct s. Qed.

Lemma store_step_trans s1 s2 s3 :
  store_step s1 s2 -> store_step s2 s3 -> store_step s1 s3.
Proof.
  intros (h & p & -> & Hl & Ht) (h' & p' & -> & Hl' & Ht').
  exists h', p'. simpl in *. split; [done|]. split; [congruence|].
  intros g. by rewrite Ht', Ht.
Qed.

Lemma frame_timestamp_set_ref h f fr r g :
  h !! f = Some fr ->
  frame_timestamp (<[f := set_ref r fr]> h) g = frame_timestamp h g.
Proof.
  intros Hf. unfold frame_timestamp.
  destruct (decide (f = g)) as [->|Hne].
  - rewrite list_lookup_insert_eq by (by eapply lookup_lt_Some).
    by rewrite Hf.
  - by rewrite list_lookup_insert_ne.
Qed.

Lemma Release_eq f s :
  Release f s =
    match heap s !! f with
    | None => (0, s)
    | Some fr =>
        let r := (ref fr - 1) mod ULONG_MOD in
        (r, upd_store (<[f := set_ref r fr]> (heap s))
                      (if r =? 0 then buffer_pool s ++ [f] else buffer_pool s) s)
    end.
Proof.
  unfold Release. unfold_monad.
  destruct (heap s !! f) as [fr|]; [|done].
  simpl. by destruct (_ =? 0).
Qed.

Lemma AddRef_eq f s :
  AddRef f s =
    match heap s !! f with
    | None => (0, s)
    | Some fr =>
        let r := (ref fr + 1) mod ULONG_MOD in
        (r, upd_store (<[f := set_ref r fr]> (heap s)) (buffer_pool s) s)
    end.
Proof.
  unfold AddRef. unfold_monad.
  by destruct (heap s !! f) as [fr|].
Qed.

Lemma Release_step f s : store_step s (snd (Release f s)).
Proof.
  rewrite Release_eq. destruct (heap s !! f) as [fr|] eqn:Hf.
  - eexists _, _. simpl. split; [done|]. split; [by rewrite length_insert|].
    intros g. by apply frame_timestamp_set_ref.
  - apply store_step_refl.
Qed.

Lemma AddRef_step f s : store_step s (snd (AddRef f s)).
Proof.
  rewrite AddRef_eq. destruct (heap s !! f) as [fr|] eqn:Hf.
  - eexists _, _. simpl. split; [done|]. split; [by rewrite length_insert|].
    intros g. by apply frame_timestamp_set_ref.
  - apply store_step_refl.
Qed.

End StoreLemmas.

Section SchedulerLemmas.
Context `{Platform}.

Lemma to_uint32_small z : 0 <= z < UINT32_MOD -> to_uint32 z = z.
Proof. intros Hz. unfold to_uint32. by apply Z.mod_small. Qed.

Lemma after_store_step s s1 d D L :
  store_step s s1 ->
  exists h p, after s1 (heap s1) (buffer_pool s1) d D L = after s h p d D L
    /\ length h = length (heap s)
    /\ forall g, frame_timestamp h g = frame_timestamp (heap s) g.
Proof. intros (h & p & -> & Hl & Ht). by exists h, p. Qed.

Lemma RELEASE_last_step s :
  exists s1, store_step s s1
    /\ snd (RELEASE_IF_NOT_NULL_lastSchedFrame s)
       = upd_delegate (match lastSchedFrame (delegate s) with
                       | Some _ => set_lastSchedFrame None
                       | None => id
                       end) s1.
Proof.
  unfold RELEASE_IF_NOT_NULL_lastSchedFrame. unfold_monad.
  destruct (lastSchedFrame (delegate s)) as [l|] eqn:Hl; simpl.
  - exists (snd (Release l s)). split; [apply Release_step|].
    by destruct (Release l s).
  - exists s. split; [apply store_step_refl|]. by destruct s.
Qed.

(** The delegate after one frame with timestamp [ts] was scheduled. *)
Lemma schedule_one_sched f i s :
  i <= m_max_sched_frames (delegate s) ->
  let d := delegate s in
  let ts := frame_timestamp (heap s) f in
  exists h p,
    snd (schedule_one f i s) =
      after s h p
        (upd_sched (schedFrames d) (Some f) (schedSeq d + 1)
           (upd_audio
              (if (m_audio_sync_ts d <=? resync) && negb (ts =? INT64_MIN)
               then anchor_of ts (frameRateDuration d) (schedSeq d) (frameRateScale d)
               else m_audio_sync_ts d)
              (m_adata d) d))
        (dev s ++ [ScheduleVideoFrame (Some f) (schedSeq d * frameRateDuration d)
                     (frameRateDuration d) (frameRateScale d)])
        (log s)
    /\ length h = length (heap s)
    /\ forall g, frame_timestamp h g = frame_timestamp (heap s) g.
Proof.
  intros Hi d ts. unfold schedule_one.
  unfold bind at 1, getd at 1, gets at 1.
  replace (_ <? i) with false by (symmetry; apply Z.ltb_ge; exact Hi).
  destruct (RELEASE_last_step s) as (s1 & Hs1 & Heq1).
  unfold bind at 1. destruct (RELEASE_IF_NOT_NULL_lastSchedFrame s) as [[] s1'].
  simpl in Heq1. subst s1'.
  unfold bind at 1, modd at 1, modify at 1.
  unfold bind at 1.
  set (s2 := upd_delegate _ (upd_delegate _ s1)).
  pose proof (AddRef_step f s2) as Hs3.
  destruct (AddRef f s2) as [r s3]. simpl in Hs3.
  destruct Hs1 as (h1 & p1 & -> & Hl1 & Ht1).
  destruct Hs3 as (h3 & p3 & -> & Hl3 & Ht3).
  subst s2. simpl in Hl3, Ht3.
  exists h3, p3. split; [|split; [congruence|intros g; by rewrite Ht3, Ht1]].
  unfold_monad. simpl. rewrite Ht3, Ht1. fold ts. fold d.
  unfold after, d.
  destruct s as [? ? [? ? ? ? l0 ? ? ? ? ? ? ?] ? ? ? ? ? ? ? ? ? ?]; simpl.
  destruct l0; simpl; destruct (_ && _); reflexivity.
Qed.

Lemma schedule_one_dismiss f i s :
  m_max_sched_frames (delegate s) < i ->
  exists h p,
    snd (schedule_one f i s) =
      after s h p (delegate s) (dev s) (log s ++ [DismissedFrame (to_uint32 (i - 1))])
    /\ length h = length (heap s)
    /\ forall g, frame_timestamp h g = frame_timestamp (heap s) g.
Proof.
  intros Hi. unfold schedule_one.
  unfold bind at 1, getd at 1, gets at 1.
  replace (_ <? i) with true by (symmetry; apply Z.ltb_lt; exact Hi).
  unfold bind at 1, LOG at 1, modify at 1.
  set (s1 := upd_out _ _ s). unfold bind, ret.
  pose proof (Release_step f s1) as Hs2.
  destruct (Release f s1) as [r s2]. simpl in *.
  destruct Hs2 as (h & p & -> & Hl & Ht).
  exists h, p. subst s1. simpl in *. split; [|done].
  by destruct s.
Qed.


Lemma anchor_of_gt_resync ts dur n scale : resync < anchor_of ts dur n scale.
Proof.
  unfold anchor_of, to_uint32.
  match goal with |- _ < ?x mod _ =>
    pose proof (Z.mod_pos_bound x UINT32_MOD eq_refl)
  end.
  assert (resync < 0) by reflexivity.
  lia.
Qed.

Lemma first_stamped_ext ts ts' n l :
  (forall g, ts g = ts' g) -> first_stamped ts n l = first_stamped ts' n l.
Proof.
  intros Hts. revert n. induction l as [|f l IH]; intros n; simpl; [done|].
  by rewrite Hts, IH.
Qed.

Lemma published_anchor_ext ts ts' d l :
  (forall g, ts g = ts' g) -> published_anchor ts d l = published_anchor ts' d l.
Proof. intros Hts. unfold published_anchor. by rewrite (first_stamped_ext ts ts'). Qed.

Lemma sched_events_cons dur scale n f l :
  sched_events dur scale n (f :: l)
  = ScheduleVideoFrame (Some f) (n * dur) dur scale :: sched_events dur scale (n + 1) l.
Proof.
  unfold sched_events. simpl. f_equal; [f_equal; lia|].
  apply imap_ext. intros j x _. simpl. f_equal. lia.
Qed.

Lemma dismissals_cons i f l :
  dismissals i (f :: l) = DismissedFrame i :: dismissals (i + 1) l.
Proof.
  unfold dismissals. simpl. f_equal; [f_equal; lia|].
  apply imap_ext. intros j x _. simpl. f_equal. lia.
Qed.

Lemma after_eq s h p d d' D D' L L' :
  d = d' -> D = D' -> L = L' -> after s h p d D L = after s h p d' D' L'.
Proof. by intros -> -> ->. Qed.

Lemma after_after s g h1 p1 d1 D1 L1 h p d D L :
  after (after (upd_delegate g s) h1 p1 d1 D1 L1) h p d D L = after s h p d D L.
Proof. reflexivity. Qed.

Lemma drained_eq d l l' n n' y y' :
  l = l' -> n = n' -> y = y' -> drained d l n y = drained d l' n' y'.
Proof. by intros -> -> ->. Qed.

(** The whole loop: the first [max - i] frames are scheduled at
    consecutive slots, the others are dismissed. *)
Lemma drain_spec q : forall i s,
  0 <= i -> i + Z.of_nat (length q) < UINT32_MOD ->
  schedFrames (delegate s) = q ->
  let d := delegate s in
  let k := Z.to_nat (m_max_sched_frames d - i) in
  exists h p,
    snd (drain q i s) =
      after s h p
        (drained d (from_option Some (lastSchedFrame d) (last (take k q)))
           (schedSeq d + Z.of_nat (length (take k q)))
           (published_anchor (frame_timestamp (heap s)) d (take k q)))
        (dev s ++ sched_events (frameRateDuration d) (frameRateScale d)
                   (schedSeq d) (take k q))
        (log s ++ dismissals (i + Z.of_nat k) (drop k q))
    /\ length h = length (heap s)
    /\ forall g, frame_timestamp h g = frame_timestamp (heap s) g.
Proof.
  induction q as [|f rest IH]; intros i s Hi Hlen Hq d k.
  - exists (heap s), (buffer_pool s). split; [|done].
    rewrite take_nil, drop_nil. simpl. rewrite !app_nil_r, Z.add_0_r.
    unfold published_anchor, d. simpl.
    destruct s as [? ? [] ? ? ? ? ? ? ? ? ? ?]; simpl in *. subst.
    by destruct (_ <=? resync).
  - simpl in Hlen. simpl drain. unfold bind at 1, modd at 1, modify at 1.
    rewrite to_uint32_small by lia.
    set (sa := upd_delegate (set_schedFrames rest) s).
    unfold bind at 1.
    destruct (Z.lt_ge_cases (m_max_sched_frames d) (i + 1)) as [Hmax|Hmax].
    + destruct (schedule_one_dismiss f (i + 1) sa Hmax) as (h1 & p1 & Heq & Hl1 & Ht1).
      destruct (schedule_one f (i + 1) sa) as [[] sb]. simpl in Heq. subst sb.
      match goal with |- context [drain rest (i + 1) ?sb] =>
        destruct (IH (i + 1) sb) as (h & p & -> & Hl & Ht); [lia|lia|done|]
      end.
      exists h, p. simpl in Hl, Ht, Hl1, Ht1.
      split; [|split; [congruence|intros g; by rewrite Ht, Ht1]].
      simpl. fold d.
      replace (Z.to_nat (m_max_sched_frames d - (i + 1))) with 0%nat by lia.
      replace k with 0%nat by lia.
      rewrite !take_0, !drop_0. simpl.
      rewrite dismissals_cons, to_uint32_small by lia.
      replace (i + 1 - 1) with i by lia.
      rewrite !Z.add_0_r, !app_nil_r, <- app_assoc. simpl.
      subst sa. rewrite after_after.
      apply after_eq; [|done|done].
      unfold published_anchor, d. simpl.
      destruct s as [? ? [] ? ? ? ? ? ? ? ? ? ?]; simpl in *.
      by destruct (_ <=? resync).
    + destruct (schedule_one_sched f (i + 1) sa Hmax) as (h1 & p1 & Heq & Hl1 & Ht1).
      destruct (schedule_one f (i + 1) sa) as [[] sb]. simpl in Heq. subst sb.
      match goal with |- context [drain rest (i + 1) ?sb] =>
        destruct (IH (i + 1) sb) as (h & p & -> & Hl & Ht); [lia|lia|done|]
      end.
      exists h, p. simpl in Hl, Ht, Hl1, Ht1.
      split; [|split; [congruence|intros g; by rewrite Ht, Ht1]].
      simpl. fold d.
      set (k' := Z.to_nat (m_max_sched_frames d - (i + 1))).
      replace k with (S k') by lia. simpl take. simpl drop.
      rewrite sched_events_cons, <- app_assoc. simpl.
      subst sa. rewrite after_after.
      apply after_eq.
      * unfold drained. simpl.
        rewrite (published_anchor_ext _ (frame_timestamp (heap s))) by done.
        set (ts := frame_timestamp (heap s)).
        assert (Hlast : from_option Some (Some f) (last (take k' rest))
                        = from_option Some (lastSchedFrame d) (last (f :: take k' rest))).
        { rewrite last_cons. destruct (last (take k' rest)); reflexivity. }
        rewrite Hlast.
        replace (schedSeq d + 1 + Z.of_nat (length (take k' rest)))
          with (schedSeq d + Z.of_nat (S (length (take k' rest)))) by lia.
        assert (Hsync :
          published_anchor ts
            (upd_sched rest (Some f) (schedSeq d + 1)
               (upd_audio
                  (if (m_audio_sync_ts d <=? resync) && negb (ts f =? INT64_MIN)
                   then anchor_of (ts f) (frameRateDuration d) (schedSeq d) (frameRateScale d)
                   else m_audio_sync_ts d) (m_adata d) (set_schedFrames rest d)))
            (take k' rest)
          = published_anchor ts d (f :: take k' rest)).
        { unfold published_anchor. simpl.
          destruct (m_audio_sync_ts d <=? resync) eqn:Hs; simpl.
          - destruct (ts f =? INT64_MIN) eqn:Hv; simpl.
            + by rewrite Hs.
            + pose proof (anchor_of_gt_resync (ts f) (frameRateDuration d)
                            (schedSeq d) (frameRateScale d)) as Hgt.
              by replace (_ <=? resync) with false by (symmetry; apply Z.leb_gt; lia).
          - by rewrite Hs. }
        unfold d in *. destruct s as [? ? [] ? ? ? ? ? ? ? ? ? ?]; simpl in *.
        rewrite Hsync. reflexivity.
      * done.
      * f_equal. f_equal. lia.
Qed.

End SchedulerLemmas.

Section Claims.
Context `{Platform}.

(** C3.  When [ScheduleNextFrame] finds the queue empty: if the device
    reports at least [m_min_sched_frames] buffered frames nothing happens,
    the state is the one before; otherwise [lastSchedFrame] is handed to
    the device once more at the next slot, [schedSeq * frameRateDuration],
    [schedSeq] grows by exactly one, the anchor becomes [resync], one
    "missing frame" line is logged, and nothing else changes. *)
Theorem ScheduleNextFrame_underrun (s : state_decklink) (b : Z) :
  schedFrames (delegate s) = [] ->
  let d := delegate s in
  (m_min_sched_frames d <= b -> ScheduleNextFrame b s = (tt, s))
  /\ (b < m_min_sched_frames d ->
      ScheduleNextFrame b s =
        (tt, after s (heap s) (buffer_pool s)
               (set_schedSeq (schedSeq d + 1) (set_audio_sync_ts resync d))
               (dev s ++ [ScheduleVideoFrame (lastSchedFrame d)
                            (schedSeq d * frameRateDuration d)
                            (frameRateDuration d) (frameRateScale d)])
               (log s ++ [MissingFrame]))).
Proof.
  intros Hq d. unfold ScheduleNextFrame. unfold_monad. rewrite Hq. split; intros Hb.
  - by replace (_ <=? b) with true by (symmetry; apply Z.leb_le; exact Hb).
  - replace (_ <=? b) with false by (symmetry; apply Z.leb_gt; exact Hb).
    simpl. unfold after, d. by destruct s as [? ? [] ? ? ? ? ? ? ? ? ? ?].
Qed.

(** C9.  As long as no anchor was ever saved ([saved_sync_ts] is
    [INT64_MIN]) and the published anchor is [deinit], [ScheduleAudio]
    discards the audio: nothing is handed to the device, [*samples] and
    the whole state stay as they were. *)
Theorem ScheduleAudio_discards (s : state_decklink) (ts samples written : Z) :
  saved_sync_ts (m_adata (delegate s)) = INT64_MIN ->
  m_audio_sync_ts (delegate s) = deinit ->
  ScheduleAudio ts samples written s = (samples, s).
Proof.
  intros Hsaved Hsync. unfold ScheduleAudio. unfold_monad.
  by rewrite Hsaved, Hsync.
Qed.


Lemma putf_scheduled s f ts :
  low_latency s = false ->
  display_decklink_putf (Some (f, ts)) s
  = EnqueueFrame f (set_heap (alter (set_timestamp ts) f (heap s)) s).
Proof. intros Hll. unfold display_decklink_putf. unfold_monad. by rewrite Hll. Qed.

Lemma EnqueueFrame_push s f :
  Z.of_nat (length (schedFrames (delegate s))) < MAX_UNPROC_QUEUE_SIZE ->
  EnqueueFrame f s
  = (true, upd_delegate (set_schedFrames (schedFrames (delegate s) ++ [f])) s).
Proof.
  intros Hlen. unfold EnqueueFrame. unfold_monad.
  rewrite to_uint32_small by (unfold MAX_UNPROC_QUEUE_SIZE, UINT32_MOD in *; lia).
  by replace (_ <? _) with true by (symmetry; apply Z.ltb_lt; exact Hlen).
Qed.

Lemma EnqueueFrame_overflow s f :
  MAX_UNPROC_QUEUE_SIZE <= Z.of_nat (length (schedFrames (delegate s))) < UINT32_MOD ->
  EnqueueFrame f s
  = (false,
     after s (heap (snd (Release f s))) (buffer_pool (snd (Release f s)))
       (set_audio_sync_ts resync (delegate s)) (dev s)
       (log s ++ [QueueOverflow (Z.of_nat (length (schedFrames (delegate s))))])).
Proof.
  intros Hlen. unfold EnqueueFrame. unfold_monad.
  rewrite to_uint32_small by lia.
  replace (_ <? _) with false by (symmetry; apply Z.ltb_ge; lia).
  destruct (Release_step f s) as (h & p & Heq & _).
  destruct (Release f s) as [r s1]. simpl in *. subst s1. simpl.
  unfold after. by destruct s.
Qed.

Lemma submit_all_fits frames : forall s,
  low_latency s = false ->
  Z.of_nat (length (schedFrames (delegate s)) + length frames) <= MAX_UNPROC_QUEUE_SIZE ->
  exists h,
    submit_all frames s
    = (replicate (length frames) true,
       upd_delegate (set_schedFrames (schedFrames (delegate s) ++ frames.*1))
         (set_heap h s))
    /\ length h = length (heap s).
Proof.
  induction frames as [|[f ts] rest IH]; intros s Hll Hlen.
  - exists (heap s). simpl. rewrite app_nil_r. unfold ret. split; [|done].
    by destruct s as [? ? [] ? ? ? ? ? ? ? ? ? ?].
  - simpl in Hlen. cbn [submit_all]. unfold bind at 1.
    rewrite putf_scheduled by done.
    rewrite EnqueueFrame_push by (simpl; lia).
    cbv beta iota. unfold bind at 1.
    match goal with |- context [submit_all rest ?s1] =>
      destruct (IH s1) as (h & -> & Hl); [done|simpl; rewrite length_app; simpl; lia|]
    end.
    exists h. unfold_monad. simpl in *. rewrite <- app_assoc. simpl.
    split; [done|]. by rewrite Hl, length_alter.
Qed.


(** *** Reference counts during a drain *)

Lemma Release_other f g s : g <> f -> heap (snd (Release f s)) !! g = heap s !! g.
Proof.
  intros Hne. rewrite Release_eq. destruct (heap s !! f) as [fr|]; [|done].
  simpl. by rewrite list_lookup_insert_ne.
Qed.

Lemma AddRef_other f g s : g <> f -> heap (snd (AddRef f s)) !! g = heap s !! g.
Proof.
  intros Hne. rewrite AddRef_eq. destruct (heap s !! f) as [fr|]; [|done].
  simpl. by rewrite list_lookup_insert_ne.
Qed.

Lemma AddRef_pool f s : buffer_pool (snd (AddRef f s)) = buffer_pool s.
Proof. rewrite AddRef_eq. by destruct (heap s !! f). Qed.

Lemma Release_pool_grows f s :
  exists Y, buffer_pool (snd (Release f s)) = buffer_pool s ++ Y.
Proof.
  rewrite Release_eq. destruct (heap s !! f) as [fr|]; simpl.
  - destruct (_ =? 0); [by exists [f]|exists []; by rewrite app_nil_r].
  - exists []. by rewrite app_nil_r.
Qed.

Lemma Release_last_reference f fr s :
  heap s !! f = Some fr -> ref fr = 1 ->
  frame_ref (heap (snd (Release f s))) f = 0
  /\ buffer_pool (snd (Release f s)) = buffer_pool s ++ [f].
Proof.
  intros Hf Hr. rewrite Release_eq, Hf. simpl. rewrite Hr.
  change (1 - 1) with 0. rewrite Z.mod_0_l by (pose proof ULONG_MOD_gt_1; lia).
  simpl. split; [|done]. unfold frame_ref.
  by rewrite list_lookup_insert_eq by (by eapply lookup_lt_Some).
Qed.

Lemma schedule_one_dismiss_eq f i s :
  m_max_sched_frames (delegate s) < i ->
  snd (schedule_one f i s)
  = snd (Release f (upd_out (dev s)
                      (log s ++ [DismissedFrame (to_uint32 (i - 1))]) s)).
Proof.
  intros Hi. unfold schedule_one. unfold_monad.
  replace (_ <? i) with true by (symmetry; apply Z.ltb_lt; exact Hi).
  by destruct (Release f _).
Qed.

Lemma schedule_one_sched_store f i s :
  i <= m_max_sched_frames (delegate s) ->
  let s3 := snd (AddRef f (upd_delegate (set_lastSchedFrame (Some f))
                             (snd (RELEASE_IF_NOT_NULL_lastSchedFrame s)))) in
  heap (snd (schedule_one f i s)) = heap s3
  /\ buffer_pool (snd (schedule_one f i s)) = buffer_pool s3.
Proof.
  intros Hi. unfold schedule_one. unfold_monad.
  replace (_ <? i) with false by (symmetry; apply Z.ltb_ge; exact Hi).
  destruct (RELEASE_IF_NOT_NULL_lastSchedFrame s) as [[] s1]. simpl.
  destruct (AddRef f _) as [r s3]. simpl.
  by destruct (_ && _).
Qed.

Lemma RELEASE_last_other g s :
  lastSchedFrame (delegate s) <> Some g ->
  heap (snd (RELEASE_IF_NOT_NULL_lastSchedFrame s)) !! g = heap s !! g.
Proof.
  intros Hg. unfold RELEASE_IF_NOT_NULL_lastSchedFrame. unfold_monad.
  destruct (lastSchedFrame (delegate s)) as [l|]; [|done].
  pose proof (Release_other l g s) as Ho.
  destruct (Release l s) as [r s1]. simpl in *. apply Ho. congruence.
Qed.

Lemma RELEASE_last_pool_grows s :
  exists Y, buffer_pool (snd (RELEASE_IF_NOT_NULL_lastSchedFrame s))
            = buffer_pool s ++ Y.
Proof.
  unfold RELEASE_IF_NOT_NULL_lastSchedFrame. unfold_monad.
  destruct (lastSchedFrame (delegate s)) as [l|].
  - pose proof (Release_pool_grows l s) as Hp.
    by destruct (Release l s) as [r s1].
  - exists []. by rewrite app_nil_r.
Qed.

(** What one iteration does to the store: it touches the frame itself and
    the frame scheduled last, and only appends to the free list. *)
Lemma schedule_one_store f i s :
  let s' := snd (schedule_one f i s) in
  (forall g, g <> f -> lastSchedFrame (delegate s) <> Some g ->
     heap s' !! g = heap s !! g)
  /\ (exists Y, buffer_pool s' = buffer_pool s ++ Y)
  /\ (m_max_sched_frames (delegate s) < i ->
      forall fr, heap s !! f = Some fr -> ref fr = 1 ->
        frame_ref (heap s') f = 0 /\ buffer_pool s' = buffer_pool s ++ [f]).
Proof.
  intros s'. subst s'.
  destruct (Z.lt_ge_cases (m_max_sched_frames (delegate s)) i) as [Hi|Hi].
  - rewrite schedule_one_dismiss_eq by done.
    set (s1 := upd_out _ _ s). split_and!.
    + intros g Hg _. by rewrite Release_other.
    + apply (Release_pool_grows f s1).
    + intros _ fr Hf Hr. by apply (Release_last_reference f fr s1).
  - destruct (schedule_one_sched_store f i s Hi) as [-> ->]. split_and!.
    + intros g Hg Hl. rewrite AddRef_other by done. simpl.
      by apply RELEASE_last_other.
    + rewrite AddRef_pool. simpl. apply RELEASE_last_pool_grows.
    + lia.
Qed.

Lemma drain_cons f rest i s :
  snd (drain (f :: rest) i s)
  = snd (drain rest (to_uint32 (i + 1))
           (snd (schedule_one f (to_uint32 (i + 1))
                   (upd_delegate (set_schedFrames rest) s)))).
Proof.
  simpl drain. unfold_monad. by destruct (schedule_one _ _ _) as [[] sb].
Qed.

Lemma schedule_one_delegate f i s :
  let d' := delegate (snd (schedule_one f i s)) in
  m_max_sched_frames d' = m_max_sched_frames (delegate s)
  /\ lastSchedFrame d'
     = if m_max_sched_frames (delegate s) <? i
       then lastSchedFrame (delegate s) else Some f.
Proof.
  destruct (Z.lt_ge_cases (m_max_sched_frames (delegate s)) i) as [Hi|Hi].
  - destruct (schedule_one_dismiss f i s Hi) as (h & p & -> & _). simpl.
    by replace (_ <? i) with true by (symmetry; by apply Z.ltb_lt).
  - destruct (schedule_one_sched f i s Hi) as (h & p & -> & _). simpl.
    by replace (_ <? i) with false by (symmetry; by apply Z.ltb_ge).
Qed.

(** A frame that is neither queued nor scheduled last is not touched by
    the loop. *)
Lemma drain_other q : forall i s g,
  g ∉ q -> lastSchedFrame (delegate s) <> Some g ->
  heap (snd (drain q i s)) !! g = heap s !! g.
Proof.
  induction q as [|f rest IH]; intros i s g Hg Hl; [done|].
  apply not_elem_of_cons in Hg as [Hgf Hg].
  rewrite drain_cons.
  set (sa := upd_delegate (set_schedFrames rest) s).
  set (i' := to_uint32 (i + 1)).
  destruct (schedule_one_store f i' sa) as (Ho & _ & _).
  destruct (schedule_one_delegate f i' sa) as [_ Hl'].
  rewrite IH; [by apply Ho|done|].
  rewrite Hl'. destruct (_ <? i'); [done|congruence].
Qed.

(** The frames a drain dismisses, when each queued frame is held exactly
    once: their count drops to zero and they go to the tail of the free
    list, in queue order. *)
Lemma drain_releases q : forall i s,
  0 <= i -> i + Z.of_nat (length q) < UINT32_MOD ->
  NoDup q ->
  (forall f, f ∈ q -> exists fr, heap s !! f = Some fr /\ ref fr = 1) ->
  (forall l, lastSchedFrame (delegate s) = Some l -> l ∉ q) ->
  let k := Z.to_nat (m_max_sched_frames (delegate s) - i) in
  (forall f, f ∈ drop k q -> frame_ref (heap (snd (drain q i s))) f = 0)
  /\ exists Y, buffer_pool (snd (drain q i s)) = buffer_pool s ++ Y ++ drop k q
             /\ (k = 0%nat -> Y = []).
Proof.
  induction q as [|f rest IH]; intros i s Hi Hlen Hnd Href Hlast k.
  - rewrite drop_nil. split; [by intros f ?%elem_of_nil|].
    exists []. by rewrite !app_nil_r.
  - simpl in Hlen. apply NoDup_cons in Hnd as [Hf Hnd].
    rewrite drain_cons, to_uint32_small by lia.
    set (sa := upd_delegate (set_schedFrames rest) s).
    destruct (schedule_one_store f (i + 1) sa) as (Ho & [Y1 HY1] & Hd).
    destruct (schedule_one_delegate f (i + 1) sa) as [Hmax' Hl'].
    set (sb := snd (schedule_one f (i + 1) sa)) in *.
    simpl in HY1, Hmax', Hl', Ho, Hd.
    destruct (IH (i + 1) sb) as [Hz (Y & HY & HY0)]; [lia|lia|done| | |].
    { intros g Hg. rewrite Ho; [apply Href; by right|by intros ->|].
      intros Hl. apply (Hlast g Hl). by right. }
    { intros l. rewrite Hl'. destruct (_ <? i + 1).
      - intros Hl Hin. apply (Hlast l Hl). by right.
      - by intros [= <-]. }
    rewrite Hmax' in Hz, HY, HY0.
    destruct (Z.lt_ge_cases (m_max_sched_frames (delegate s)) (i + 1)) as [Hmax|Hmax].
    + (* dismissed, and so are all the others *)
      destruct (Href f) as (fr & Hfr & Hr); [by left|].
      destruct (Hd Hmax fr Hfr Hr) as [Hf0 Hpool].
      replace (Z.to_nat (m_max_sched_frames (delegate s) - (i + 1))) with 0%nat
        in Hz, HY, HY0 by lia.
      rewrite (HY0 eq_refl) in HY. clear HY0.
      replace k with 0%nat by lia. rewrite drop_0 in *. split.
      * intros g [->|Hg]%elem_of_cons; [|by apply Hz].
        unfold frame_ref. rewrite drain_other; [exact Hf0|done|].
        rewrite Hl'.
        replace (_ <? i + 1) with true by (symmetry; by apply Z.ltb_lt).
        intros Hl. apply (Hlast f Hl). by left.
      * exists []. split; [|done]. rewrite HY, Hpool. simpl.
        by rewrite <- app_assoc.
    + (* scheduled *)
      set (k' := Z.to_nat (m_max_sched_frames (delegate s) - (i + 1))) in *.
      replace k with (S k') by lia. simpl drop. split; [exact Hz|].
      exists (Y1 ++ Y). split; [|done]. rewrite HY, HY1. by rewrite <- !app_assoc.
Qed.

Lemma ScheduleNextFrame_nonempty s b :
  schedFrames (delegate s) <> [] ->
  ScheduleNextFrame b s = drain (schedFrames (delegate s)) b s.
Proof.
  intros Hq. unfold ScheduleNextFrame. unfold_monad.
  by destruct (schedFrames (delegate s)).
Qed.

(** C1, as amended.  A call of [ScheduleNextFrame] that finds [N] frames
    queued while the device reports [b] buffered frames, [b + N] below
    [2^32], empties the queue in FIFO order.  The first [max - b] frames
    (none when [b >= max]) are handed to the device at the consecutive
    slots [schedSeq], [schedSeq + 1], ..., each at display time
    [slot * frameRateDuration]; [schedSeq] grows by the number of frames
    scheduled, so a dismissed frame takes no slot; every later frame is
    logged as dismissed.  In particular, [N <= 10] submissions to an empty
    queue followed by a drain with [b + N <= max] schedule exactly these
    [N] frames in call order and dismiss none.  And when the queued frames
    are distinct, each held by the queue alone (count 1) and none of them
    the last scheduled frame, every dismissed frame ends with count 0 at
    the tail of the free list, in queue order. *)
Theorem ScheduleNextFrame_drains :
  (forall (s : state_decklink) (b : Z),
     let d := delegate s in
     let q := schedFrames d in
     q <> [] -> 0 <= b -> b + Z.of_nat (length q) < UINT32_MOD ->
     let k := Z.to_nat (m_max_sched_frames d - b) in
     let s' := snd (ScheduleNextFrame b s) in
     dev s' = dev s ++ sched_events (frameRateDuration d) (frameRateScale d)
                         (schedSeq d) (take k q)
     /\ log s' = log s ++ dismissals (b + Z.of_nat k) (drop k q)
     /\ schedFrames (delegate s') = []
     /\ schedSeq (delegate s') = schedSeq d + Z.of_nat (length (take k q))
     /\ lastSchedFrame (delegate s')
        = from_option Some (lastSchedFrame d) (last (take k q)))
  /\ (forall (s : state_decklink) (frames : list (nat * Z)) (b : Z),
       let d := delegate s in
       low_latency s = false -> schedFrames d = [] -> frames <> [] ->
       Z.of_nat (length frames) <= MAX_UNPROC_QUEUE_SIZE ->
       0 <= b -> b + Z.of_nat (length frames) <= m_max_sched_frames d ->
       m_max_sched_frames d < UINT32_MOD ->
       let s' := snd (ScheduleNextFrame b (snd (submit_all frames s))) in
       dev s' = dev s ++ sched_events (frameRateDuration d) (frameRateScale d)
                           (schedSeq d) (frames.*1)
       /\ log s' = log s
       /\ schedSeq (delegate s') = schedSeq d + Z.of_nat (length frames))
  /\ (forall (s : state_decklink) (b : Z),
       let d := delegate s in
       let q := schedFrames d in
       q <> [] -> 0 <= b -> b + Z.of_nat (length q) < UINT32_MOD ->
       NoDup q ->
       Forall (fun f => ref <$> heap s !! f = Some 1) q ->
       (forall l, lastSchedFrame d = Some l -> l ∉ q) ->
       let k := Z.to_nat (m_max_sched_frames d - b) in
       let s' := snd (ScheduleNextFrame b s) in
       (forall f, f ∈ drop k q -> frame_ref (heap s') f = 0)
       /\ drop k q `suffix_of` buffer_pool s').
Proof.
  assert (HA : forall (s : state_decklink) (b : Z),
     let d := delegate s in
     let q := schedFrames d in
     q <> [] -> 0 <= b -> b + Z.of_nat (length q) < UINT32_MOD ->
     let k := Z.to_nat (m_max_sched_frames d - b) in
     let s' := snd (ScheduleNextFrame b s) in
     dev s' = dev s ++ sched_events (frameRateDuration d) (frameRateScale d)
                         (schedSeq d) (take k q)
     /\ log s' = log s ++ dismissals (b + Z.of_nat k) (drop k q)
     /\ schedFrames (delegate s') = []
     /\ schedSeq (delegate s') = schedSeq d + Z.of_nat (length (take k q))
     /\ lastSchedFrame (delegate s')
        = from_option Some (lastSchedFrame d) (last (take k q))).
  { intros s b. cbv zeta. intros Hq Hb Hlen.
    rewrite ScheduleNextFrame_nonempty by done.
    destruct (drain_spec _ b s Hb Hlen eq_refl) as (h & p & -> & _).
    by repeat split. }
  split; [exact HA|]. split.
  2: { intros s b. cbv zeta. intros Hq Hb Hlen Hnd Href Hlast.
       rewrite ScheduleNextFrame_nonempty by done.
       assert (Href' : forall f, f ∈ schedFrames (delegate s) ->
                 exists fr, heap s !! f = Some fr /\ ref fr = 1).
       { intros f Hf. rewrite Forall_forall in Href.
         apply Href in Hf. apply fmap_Some in Hf as (fr & Hfr & Hr). eauto. }
       destruct (drain_releases _ b s Hb Hlen Hnd Href' Hlast) as [Hz (Y & HY & _)].
       split; [exact Hz|]. exists (buffer_pool s ++ Y). by rewrite HY, app_assoc. }
  intros s frames b d Hll Hq Hne HN Hb Hmax Hmax32 s'. unfold d in *. clear d.
  destruct (submit_all_fits frames s Hll) as (h & Heq & Hl).
  { rewrite Hq. simpl. lia. }
  subst s'. rewrite Heq. simpl snd. rewrite Hq. simpl app.
  match goal with |- context [ScheduleNextFrame b ?s1] =>
    destruct (HA s1 b) as (Hdev & Hlog & _ & Hseq & _)
  end.
  - simpl. by destruct frames.
  - done.
  - simpl. rewrite length_fmap. lia.
  - simpl in Hdev, Hlog, Hseq.
    rewrite take_ge in Hdev, Hseq by (rewrite length_fmap; lia).
    rewrite drop_ge in Hlog by (rewrite length_fmap; lia).
    rewrite length_fmap in Hseq. unfold dismissals in Hlog. simpl in Hlog.
    rewrite app_nil_r in Hlog. done.
Qed.

(** C5, as amended.  A drain publishes a new anchor exactly when the
    anchor is [deinit] or [resync] and one of the frames it schedules (a
    dismissed frame does not count) carries a timestamp.  The value is that
    of the first such frame: its timestamp minus
    [frameRateDuration * n * 90000 / frameRateScale] (truncating division
    of the whole product), reduced to 32 bits, where [n] is the sequence
    number the frame is scheduled at; this is what the [int64_t] arithmetic
    of the source yields where [anchor_defined] holds, that is for a frame
    rate scale other than zero and products, quotient and difference that
    fit [int64_t].  In every other case the anchor stays as it was. *)
Theorem drain_publishes_anchor (s : state_decklink) (b : Z) :
  let d := delegate s in
  let q := schedFrames d in
  q <> [] -> 0 <= b -> b + Z.of_nat (length q) < UINT32_MOD ->
  let scheduled := take (Z.to_nat (m_max_sched_frames d - b)) q in
  let stamped := first_stamped (frame_timestamp (heap s)) (schedSeq d) scheduled in
  let anchor' := m_audio_sync_ts (delegate (snd (ScheduleNextFrame b s))) in
  (resync < m_audio_sync_ts d -> anchor' = m_audio_sync_ts d)
  /\ (stamped = None -> anchor' = m_audio_sync_ts d)
  /\ (forall ts n, m_audio_sync_ts d <= resync -> stamped = Some (ts, n) ->
        anchor_defined ts (frameRateDuration d) n (frameRateScale d) ->
        anchor' = (ts - Z.quot (frameRateDuration d * n * 90000) (frameRateScale d))
                  mod 2 ^ 32).
Proof.
  cbv zeta. intros Hq Hb Hlen.
  rewrite ScheduleNextFrame_nonempty by done.
  destruct (drain_spec _ b s Hb Hlen eq_refl) as (h & p & -> & _).
  simpl. unfold published_anchor.
  repeat split.
  - intros Hs. by replace (_ <=? resync) with false by (symmetry; apply Z.leb_gt; lia).
  - intros ->. by destruct (_ <=? resync).
  - intros ts n Hs -> _.
    by replace (_ <=? resync) with true by (symmetry; apply Z.leb_le; lia).
Qed.


Lemma submit_all_app l1 l2 s :
  submit_all (l1 ++ l2) s
  = let (r1, s1) := submit_all l1 s in
    let (r2, s2) := submit_all l2 s1 in (r1 ++ r2, s2).
Proof.
  revert s. induction l1 as [|fr l1 IH]; intros s.
  - simpl. unfold ret. by destruct (submit_all l2 s).
  - cbn [app submit_all]. unfold bind, ret.
    destruct (display_decklink_putf (Some fr) s) as [r s1].
    rewrite IH.
    destruct (submit_all l1 s1) as [r1 s2].
    by destruct (submit_all l2 s2) as [r2 s3].
Qed.

Lemma list_snoc_inv {A} (l : list A) (n : nat) :
  length l = S n -> exists l' x, l = l' ++ [x] /\ length l' = n.
Proof.
  intros Hl. destruct l as [|y l] using rev_ind; [done|].
  exists l, y. rewrite length_app in Hl. simpl in Hl. split; [done|lia].
Qed.


Lemma submit_all_overflow s frames :
  low_latency s = false -> schedFrames (delegate s) = [] ->
  Z.of_nat (length frames) = MAX_UNPROC_QUEUE_SIZE + 1 ->
  exists h p,
    submit_all frames s
    = (replicate 10 true ++ [false],
       after s h p
         (set_audio_sync_ts resync
            (set_schedFrames (take 10 (frames.*1)) (delegate s)))
         (dev s) (log s ++ [QueueOverflow MAX_UNPROC_QUEUE_SIZE])).
Proof.
  intros Hll Hq Hlen. unfold MAX_UNPROC_QUEUE_SIZE in Hlen.
  destruct (list_snoc_inv frames 10) as (l & [f ts] & -> & Hl10); [lia|].
  rewrite submit_all_app.
  destruct (submit_all_fits l s Hll) as (h & -> & Hh).
  { rewrite Hq. unfold MAX_UNPROC_QUEUE_SIZE. simpl. lia. }
  rewrite Hq. simpl app. cbn [submit_all]. unfold bind at 1.
  rewrite putf_scheduled by done.
  rewrite EnqueueFrame_overflow
    by (simpl; rewrite length_fmap, Hl10; unfold MAX_UNPROC_QUEUE_SIZE, UINT32_MOD; lia).
  unfold_monad. simpl. rewrite length_fmap, Hl10, fmap_app.
  rewrite take_app_length' by (by rewrite length_fmap).
  eexists _, _. reflexivity.
Qed.

(** C2.  [EnqueueFrame] returns [true] exactly when the queue holds fewer
    than [MAX_UNPROC_QUEUE_SIZE] (10) frames, and then only appends the
    frame.  Otherwise it calls [Release] on the frame (which puts a frame
    with count 1 on the free list), logs the overflow, sets the anchor to
    [resync], returns [false], and leaves the queue as it was.  Hence 11
    submissions to an empty queue with no drain in between return ten times
    [true] and once [false], keep the first ten frames, log one overflow
    and leave the anchor at [resync]. *)
Theorem EnqueueFrame_bounded :
  (forall (s : state_decklink) (f : nat),
     let q := schedFrames (delegate s) in
     Z.of_nat (length q) < UINT32_MOD ->
     let r := fst (EnqueueFrame f s) in
     let s' := snd (EnqueueFrame f s) in
     (r = true <-> Z.of_nat (length q) < MAX_UNPROC_QUEUE_SIZE)
     /\ (r = true -> s' = upd_delegate (set_schedFrames (q ++ [f])) s)
     /\ (r = false ->
          schedFrames (delegate s') = q
          /\ m_audio_sync_ts (delegate s') = resync
          /\ log s' = log s ++ [QueueOverflow (Z.of_nat (length q))]
          /\ dev s' = dev s
          /\ heap s' = heap (snd (Release f s))
          /\ buffer_pool s' = buffer_pool (snd (Release f s))
          /\ forall fr, heap s !! f = Some fr -> ref fr = 1 ->
               frame_ref (heap s') f = 0 /\ buffer_pool s' = buffer_pool s ++ [f]))
  /\ (forall (s : state_decklink) (frames : list (nat * Z)),
       low_latency s = false -> schedFrames (delegate s) = [] ->
       Z.of_nat (length frames) = MAX_UNPROC_QUEUE_SIZE + 1 ->
       let rs := fst (submit_all frames s) in
       let s' := snd (submit_all frames s) in
       rs = replicate 10 true ++ [false]
       /\ schedFrames (delegate s') = take 10 (frames.*1)
       /\ m_audio_sync_ts (delegate s') = resync
       /\ log s' = log s ++ [QueueOverflow MAX_UNPROC_QUEUE_SIZE]).
Proof.
  split.
  - intros s f. cbv zeta. intros Hlen.
    destruct (Z.lt_ge_cases (Z.of_nat (length (schedFrames (delegate s))))
                MAX_UNPROC_QUEUE_SIZE) as [Hlt|Hge].
    + rewrite EnqueueFrame_push by done. simpl. by repeat split.
    + rewrite EnqueueFrame_overflow by lia. simpl.
      split; [split; [done|lia]|]. split; [done|]. intros _.
      do 6 (split; [done|]).
      intros fr Hfr Href. rewrite Release_eq, Hfr. simpl.
      rewrite Href. change (1 - 1) with 0.
      rewrite Z.mod_0_l by (pose proof ULONG_MOD_gt_1; lia). simpl.
      split; [|done]. unfold frame_ref.
      by rewrite list_lookup_insert_eq by (by eapply lookup_lt_Some).
  - intros s frames Hll Hq Hlen. cbv zeta.
    destruct (submit_all_overflow s frames Hll Hq Hlen) as (h & p & ->).
    done.
Qed.




(** The baseline [INT64_MIN], which [ScheduleAudio] takes from the initial
    [m_adata] when the anchor is [resync] and none was saved, is outside
    the range of the stream time for every timestamp that is not
    negative. *)
Lemma stream_time_undefined_at_INT64_MIN (ts : Z) :
  0 <= ts -> ~ stream_time_defined ts INT64_MIN.
Proof.
  intros Hts [[_ Hhi] _]. unfold INT64_MIN, INT64_MAX in Hhi. lia.
Qed.

(** *** Order of presentation *)

Lemma stutter_app {A} (S L l : list A) :
  stutter S L -> stutter (S ++ l) (L ++ l).
Proof.
  revert S L. induction l as [|x l IH]; intros S L HS.
  - by rewrite !app_nil_r.
  - rewrite !(cons_middle x), !app_assoc. apply IH. by apply stutter_keep.
Qed.

Lemma video_frames_app D1 D2 :
  video_frames (D1 ++ D2) = video_frames D1 ++ video_frames D2.
Proof. apply omap_app. Qed.

Lemma video_frames_sched_events dur scale n l :
  video_frames (sched_events dur scale n l) = l.
Proof.
  revert n. induction l as [|x l IH]; intros n; [done|].
  rewrite sched_events_cons. unfold video_frames in *. simpl. by rewrite IH.
Qed.

(** The frames a drain schedules are a subsequence of the queue, whatever
    the counter does. *)
Lemma drain_order q : forall i s,
  schedFrames (delegate s) = q ->
  exists sch D h p n y L,
    sch `sublist_of` q
    /\ video_frames D = sch
    /\ snd (drain q i s)
       = after s h p
           (drained (delegate s)
              (from_option Some (lastSchedFrame (delegate s)) (last sch)) n y)
           (dev s ++ D) L.
Proof.
  induction q as [|f rest IH]; intros i s Hq.
  - exists [], [], (heap s), (buffer_pool s), (schedSeq (delegate s)),
      (m_audio_sync_ts (delegate s)), (log s).
    simpl. rewrite app_nil_r.
    split; [done|]. split; [done|].
    destruct s as [? ? [] ? ? ? ? ? ? ? ? ? ?]; simpl in *. by subst.
  - simpl drain. unfold bind at 1, modd at 1, modify at 1.
    set (sa := upd_delegate (set_schedFrames rest) s).
    set (i' := to_uint32 (i + 1)).
    unfold bind at 1.
    destruct (Z.lt_ge_cases (m_max_sched_frames (delegate s)) i') as [Hmax|Hmax].
    + destruct (schedule_one_dismiss f i' sa Hmax) as (h1 & p1 & Heq & _).
      destruct (schedule_one f i' sa) as [[] sb]. simpl in Heq. subst sb.
      match goal with |- context [drain rest i' ?sb] =>
        destruct (IH i' sb) as (sch & D & h & p & n & y & L & Hsub & HD & ->);
          [done|]
      end.
      exists sch, D, h, p, n, y, L. split; [by apply sublist_cons|].
      split; [done|]. subst sa. rewrite after_after. reflexivity.
    + destruct (schedule_one_sched f i' sa Hmax) as (h1 & p1 & Heq & _).
      destruct (schedule_one f i' sa) as [[] sb]. simpl in Heq. subst sb.
      match goal with |- context [drain rest i' ?sb] =>
        destruct (IH i' sb) as (sch & D & h & p & n & y & L & Hsub & HD & ->);
          [done|]
      end.
      exists (f :: sch), (ScheduleVideoFrame (Some f)
                            (schedSeq (delegate s) * frameRateDuration (delegate s))
                            (frameRateDuration (delegate s))
                            (frameRateScale (delegate s)) :: D), h, p, n, y, L.
      split; [by apply sublist_skip|]. split; [simpl; by rewrite HD|].
      subst sa. rewrite after_after. simpl.
      rewrite <- app_assoc. simpl.
      apply after_eq; [|done|done].
      unfold drained. simpl. rewrite last_cons.
      by destruct (last sch).
Qed.


Lemma stutter_refl {A} (l : list A) : stutter l l.
Proof.
  induction l as [|x l IH] using rev_ind; [constructor|]. by apply stutter_keep.
Qed.

Lemma ordered_store_step pre sub D0 s s' :
  store_step s s' -> ordered pre sub D0 s -> ordered pre sub D0 s'.
Proof. intros (h & p & -> & _) Ho. exact Ho. Qed.

Lemma ordered_submit pre sub D0 s f ts :
  ordered pre sub D0 s ->
  ordered pre (sub ++ [f]) D0 (snd (display_decklink_putf (Some (f, ts)) s)).
Proof.
  intros (Hll & S & D & Hdev & Hst & Hsub & Hlast).
  rewrite putf_scheduled by done.
  set (s1 := set_heap _ s).
  unfold EnqueueFrame. unfold_monad.
  destruct (_ <? MAX_UNPROC_QUEUE_SIZE).
  - subst s1. simpl. split; [done|]. exists S, D. repeat split; try done.
    simpl. rewrite app_assoc. by apply sublist_app.
  - pose proof (Release_step f s1) as (h & p & Heq & _).
    destruct (Release f s1) as [r s2]. simpl in *. subst s2 s1. simpl.
    split; [done|]. exists S, D. repeat split; try done.
    by apply sublist_inserts_r.
Qed.

Lemma ordered_schedule pre sub D0 s b :
  ordered pre sub D0 s -> ordered pre sub D0 (snd (ScheduleNextFrame b s)).
Proof.
  intros (Hll & S & D & Hdev & Hst & Hsub & Hlast).
  destruct (schedFrames (delegate s)) as [|f q] eqn:Hq.
  - unfold ScheduleNextFrame. unfold_monad. rewrite Hq.
    destruct (_ <=? b); simpl.
    + split; [done|]. exists S, D. by rewrite Hq.
    + split; [done|]. simpl. rewrite Hq, Hdev, Hlast.
      destruct (last (pre ++ S)) as [x|] eqn:HS.
      * pose proof HS as [S' HS']%last_Some.
        exists S, (D ++ [ScheduleVideoFrame (Some x)
          (schedSeq (delegate s) * frameRateDuration (delegate s))
          (frameRateDuration (delegate s)) (frameRateScale (delegate s))]).
        rewrite (app_assoc D0), video_frames_app. simpl.
        split_and!; try done.
        rewrite (app_assoc pre), HS'. apply stutter_again. by rewrite <- HS'.
      * exists S, (D ++ [ScheduleVideoFrame None
          (schedSeq (delegate s) * frameRateDuration (delegate s))
          (frameRateDuration (delegate s)) (frameRateScale (delegate s))]).
        rewrite (app_assoc D0), video_frames_app. simpl. rewrite app_nil_r.
        by split_and!.
  - rewrite ScheduleNextFrame_nonempty by (by rewrite Hq).
    destruct (drain_order (schedFrames (delegate s)) b s eq_refl)
      as (sch & D' & h & p & n & y & L & Hsch & HD' & ->).
    simpl. split; [done|]. exists (S ++ sch), (D ++ D').
    rewrite Hdev, video_frames_app, HD', app_nil_r, !(app_assoc pre), last_app, Hlast.
    split_and!.
    + by rewrite app_assoc.
    + by apply stutter_app.
    + rewrite Hq in Hsch. etrans; [|exact Hsub]. by apply sublist_app.
    + by destruct (last sch).
Qed.

Lemma ordered_completed pre sub D0 s f r b :
  ordered pre sub D0 s -> ordered pre sub D0 (snd (ScheduledFrameCompleted f r b s)).
Proof.
  intros Ho. unfold ScheduledFrameCompleted.
  unfold bind at 1, getd at 1, gets at 1. unfold bind at 1.
  match goal with |- context [let (_, s') := ?c s in _] =>
    assert (Hs1 : ordered pre sub D0 (snd (c s)))
      by (destruct r; unfold_monad; exact Ho);
    destruct (c s) as [[] s1]
  end.
  simpl in Hs1. apply (ordered_schedule _ _ _ _ b) in Hs1.
  unfold bind at 1. destruct (ScheduleNextFrame b s1) as [[] s2]. simpl in Hs1.
  unfold bind, ret. pose proof (Release_step f s2) as Hst.
  destruct (Release f s2) as [x s3]. simpl in *.
  by eapply ordered_store_step.
Qed.

Lemma run_ordered ops : forall pre sub D0 s,
  ordered pre sub D0 s -> ordered pre (sub ++ submitted ops) D0 (snd (run ops s)).
Proof.
  induction ops as [|o ops IH]; intros pre sub D0 s Ho.
  - unfold submitted. simpl. by rewrite app_nil_r.
  - cbn [run]. unfold bind at 1.
    destruct o as [f ts|f r b]; cbn [step].
    + unfold bind at 1, ret.
      pose proof (ordered_submit _ _ _ _ f ts Ho) as Ho1.
      destruct (display_decklink_putf (Some (f, ts)) s) as [x s1].
      simpl in Ho1. apply IH in Ho1.
      unfold submitted in *. simpl. by rewrite cons_middle, app_assoc.
    + pose proof (ordered_completed _ _ _ _ f r b Ho) as Ho1.
      destruct (ScheduledFrameCompleted f r b s) as [[] s1].
      simpl in Ho1. by apply IH in Ho1.
Qed.

(** C4, as amended.  Whatever the producer submits and whenever the
    device calls back, the frames handed to the device are, apart from
    repetitions of the last scheduled frame, a subsequence of the submitted
    frames in call order.  What is dropped is always the newest: a
    submission to a full queue drops the submitted frame and keeps the
    queue, and a drain schedules a prefix of the queue and dismisses the
    frames behind it. *)
Theorem presentation_order :
  (forall (ops : list op) (s0 : state_decklink),
     low_latency s0 = false ->
     let pre := option_list (lastSchedFrame (delegate s0)) in
     exists S D,
       dev (snd (run ops s0)) = dev s0 ++ D
       /\ S `sublist_of` (schedFrames (delegate s0) ++ submitted ops)
       /\ stutter (pre ++ S) (pre ++ video_frames D))
  /\ (forall (s : state_decklink) (f : nat) (ts : Z),
       let q := schedFrames (delegate s) in
       low_latency s = false ->
       MAX_UNPROC_QUEUE_SIZE <= Z.of_nat (length q) < UINT32_MOD ->
       fst (display_decklink_putf (Some (f, ts)) s) = false
       /\ schedFrames (delegate (snd (display_decklink_putf (Some (f, ts)) s))) = q)
  /\ (forall (s : state_decklink) (b : Z),
       let d := delegate s in
       let q := schedFrames d in
       q <> [] -> 0 <= b -> b + Z.of_nat (length q) < UINT32_MOD ->
       let k := Z.to_nat (m_max_sched_frames d - b) in
       let s' := snd (ScheduleNextFrame b s) in
       exists D L,
         dev s' = dev s ++ D /\ video_frames D = take k q
         /\ log s' = log s ++ L /\ length L = length (drop k q)).
Proof.
  split; [|split].
  - intros ops s0 Hll pre.
    destruct (run_ordered ops pre (schedFrames (delegate s0)) (dev s0) s0)
      as (_ & S & D & Hdev & Hst & Hsub & _).
    { split; [done|]. exists [], []. rewrite !app_nil_r. simpl.
      split_and!; try done.
      - apply stutter_refl.
      - subst pre. by destruct (lastSchedFrame (delegate s0)). }
    exists S, D. split_and!; try done.
    etrans; [|exact Hsub]. by apply sublist_inserts_r.
  - intros s f ts q Hll Hlen. rewrite putf_scheduled by done.
    by rewrite EnqueueFrame_overflow.
  - intros s b. cbv zeta. intros Hq Hb Hlen.
    rewrite ScheduleNextFrame_nonempty by done.
    destruct (drain_spec _ b s Hb Hlen eq_refl) as (h & p & -> & _).
    eexists _, _. simpl. split; [done|]. split; [|split; [done|]].
    + apply video_frames_sched_events.
    + unfold dismissals. by rewrite length_imap.
Qed.


(** [display_decklink_getf] returns no buffer exactly when the session is
    not initialized, or when an audio reconfiguration is pending and the
    reconfiguration it then runs fails; an uninitialized session is left
    untouched. *)
Lemma getf_none_iff (env : negotiation) (s : state_decklink) :
  (initialized s = false -> display_decklink_getf env s = (None, s))
  /\ (fst (display_decklink_getf env s) = None
      <-> initialized s = false
          \/ (audio_reconfigure s = true
              /\ fst (display_decklink_reconfigure env (vid_desc s) s) = false)).
Proof.
  unfold display_decklink_getf. unfold_monad.
  destruct (initialized s) eqn:Hini; simpl.
  2: { split; [done|]. split; [by left|done]. }
  split; [done|].
  destruct (audio_reconfigure s) eqn:Har; simpl.
  - destruct (display_decklink_reconfigure env (vid_desc s) s) as [[] s1]; simpl.
    + repeat match goal with
             | |- context [let (_, _) := ?c in _] => destruct c; simpl
             | |- context [match ?o with Some _ => _ | None => _ end] =>
                 destruct o; simpl
             | |- context [if ?c then _ else _] => destruct c; simpl
             end.
      all: split; [done|]; intros [?|[_ ?]]; done.
    + split; [by right|done].
  - repeat match goal with
           | |- context [let (_, _) := ?c in _] => destruct c; simpl
           | |- context [match ?o with Some _ => _ | None => _ end] =>
               destruct o; simpl
           | |- context [if ?c then _ else _] => destruct c; simpl
           end.
    all: split; [done|]; intros [?|[? _]]; done.
Qed.



Lemma pool_inv_insert s' s f fr r :
  heap s !! f = Some fr ->
  heap s' = <[f := set_ref r fr]> (heap s) ->
  f ∉ buffer_pool s' -> NoDup (buffer_pool s') ->
  Forall (fun g => ref <$> heap s !! g = Some 0) (buffer_pool s') ->
  pool_inv s'.
Proof.
  intros Hf Hh Hnin Hnd Hall. split; [done|]. rewrite Hh.
  apply Forall_forall. intros g Hg. rewrite Forall_forall in Hall.
  rewrite list_lookup_insert_ne by (intros ->; done). by apply Hall.
Qed.

Lemma pooled_count_zero s f fr :
  pool_inv s -> heap s !! f = Some fr -> ref fr <> 0 -> f ∉ buffer_pool s.
Proof.
  intros [_ Hall] Hf Hr Hin. rewrite Forall_forall in Hall.
  apply Hall in Hin. rewrite Hf in Hin. simpl in Hin. congruence.
Qed.

Lemma Release_keeps_pool s f fr :
  pool_inv s -> heap s !! f = Some fr -> 1 <= ref fr < ULONG_MOD ->
  pool_inv (snd (Release f s))
  /\ buffer_pool (snd (Release f s))
     = (if ref fr =? 1 then buffer_pool s ++ [f] else buffer_pool s).
Proof.
  intros Hinv Hf Hr.
  assert (Hnin : f ∉ buffer_pool s) by (eapply pooled_count_zero; [done..|lia]).
  rewrite Release_eq, Hf. simpl.
  rewrite (Z.mod_small (ref fr - 1)) by lia.
  destruct Hinv as [Hnd Hall].
  destruct (Z.eqb_spec (ref fr) 1) as [E|E].
  - replace (ref fr - 1 =? 0) with true by (symmetry; apply Z.eqb_eq; lia).
    split; [|done]. split; simpl.
    + apply NoDup_app. split_and!; [done| |apply NoDup_singleton].
      intros g Hg ->%list_elem_of_singleton. done.
    + apply Forall_app. split.
      * apply Forall_forall. intros g Hg. rewrite Forall_forall in Hall.
        rewrite list_lookup_insert_ne by (intros ->; done). by apply Hall.
      * apply Forall_singleton.
        rewrite list_lookup_insert_eq by (by eapply lookup_lt_Some). simpl.
        f_equal. lia.
  - replace (ref fr - 1 =? 0) with false by (symmetry; apply Z.eqb_neq; lia).
    split; [|done]. by eapply pool_inv_insert.
Qed.

Lemma AddRef_keeps_pool s f :
  pool_inv s -> f ∉ buffer_pool s -> pool_inv (snd (AddRef f s)).
Proof.
  intros [Hnd Hall] Hnin. rewrite AddRef_eq.
  destruct (heap s !! f) as [fr|] eqn:Hf; [|done]. simpl.
  by eapply pool_inv_insert.
Qed.

(** The pool loop: it returns a frame with count 1 that is no longer on
    the list, or empties the list; the configuration stays. *)
Lemma pool_scan_inv p : forall s,
  buffer_pool s = p -> pool_inv s ->
  let r := pool_scan p s in
  pool_inv (snd r)
  /\ match fst r with
     | Some f => ref <$> heap (snd r) !! f = Some 1 /\ f ∉ buffer_pool (snd r)
     | None => buffer_pool (snd r) = []
     end
  /\ exists h p', snd r = upd_store h p' s.
Proof.
  induction p as [|tmp rest IH]; intros s Hp Hinv r; subst r.
  - simpl. split; [done|]. split; [done|]. exists (heap s), []. rewrite <- Hp.
    by destruct s.
  - destruct Hinv as [Hnd Hall]. rewrite Hp in Hnd, Hall.
    apply NoDup_cons in Hnd as [Hnin Hnd].
    apply Forall_cons in Hall as [Htmp Hall].
    apply fmap_Some in Htmp as (fr & Hfr & Hr). symmetry in Hr.
    pose proof ULONG_MOD_gt_1 as HM.
    cbn [pool_scan]. unfold_monad. simpl. rewrite Hp, Hfr. simpl.
    change (frame_matches (set_buffer_pool rest s) fr) with (frame_matches s fr).
    destruct (frame_matches s fr).
    + rewrite AddRef_eq. simpl. rewrite Hfr. simpl.
      rewrite Hr. change (0 + 1) with 1.
      rewrite Z.mod_1_l by done.
      split; [by eapply pool_inv_insert|]. split.
      * split; [|done].
        by rewrite list_lookup_insert_eq by (by eapply lookup_lt_Some).
      * by eexists _, _.
    + rewrite Release_eq. simpl. rewrite Hfr. simpl.
      rewrite Hr. change (0 - 1) with (-1).
      replace (-1 mod ULONG_MOD) with (ULONG_MOD - 1)
        by (apply Z.mod_unique_pos with (q := -1); lia).
      replace (ULONG_MOD - 1 =? 0) with false by (symmetry; apply Z.eqb_neq; lia).
      match goal with |- context [pool_scan rest ?s2] =>
        destruct (IH s2) as (Hi & Hres & h & p' & Heq);
          [done|by eapply pool_inv_insert|]
      end.
      split; [exact Hi|]. split; [exact Hres|].
      exists h, p'. by rewrite Heq.
Qed.


Lemma pool_scan_store p : forall s,
  exists h p', snd (pool_scan p s) = upd_store h p' s.
Proof.
  induction p as [|tmp rest IH]; intros s.
  - exists (heap s), (buffer_pool s). simpl. by destruct s.
  - cbn [pool_scan]. unfold bind at 1, modify at 1. unfold bind at 1, gets at 1.
    cbn [id].
    set (s0 := set_buffer_pool (tail (buffer_pool s)) s).
    assert (H0 : forall s2, (exists h p', s2 = upd_store h p' s0) ->
                            exists h p', s2 = upd_store h p' s).
    { intros s2 (h & p' & ->). by exists h, p'. }
    destruct (heap s0 !! tmp) as [fr|]; [|apply H0, IH].
    destruct (frame_matches s0 fr).
    + unfold bind, ret. destruct (AddRef_step tmp s0) as (h & p' & Heq & _).
      destruct (AddRef tmp s0) as [x s2]. simpl in *. apply H0. by exists h, p'.
    + unfold bind at 1. destruct (Release_step tmp s0) as (h & p' & Heq & _).
      destruct (Release tmp s0) as [x s2]. simpl in Heq. subst s2.
      destruct (IH (upd_store h p' s0)) as (h2 & p2 & ->).
      by exists h2, p2.
Qed.

Lemma getf_ready env s :
  initialized s = true -> audio_reconfigure s = false -> stereo s = false ->
  display_decklink_getf env s
  = (let (o, s1) := pool_scan (buffer_pool s) s in
     match o with
     | Some f => (Some f, s1)
     | None => (Some (length (heap s1)),
                set_heap (heap s1 ++ [new_frame (width (vid_desc s1))
                                        (height (vid_desc s1))
                                        (vc_get_linesize (width (vid_desc s1))
                                           (color_spec (vid_desc s1)))
                                        (pixelFormat s1) None]) s1)
     end).
Proof.
  intros Hini Har Hst. unfold display_decklink_getf.
  unfold bind at 1, gets at 1. rewrite Hini. cbn [negb].
  unfold bind at 1, gets at 1. rewrite Har.
  unfold bind at 1, ret at 1. cbn [negb].
  unfold bind at 1, gets at 1. unfold bind at 1.
  assert (Hs1 : stereo (snd (pool_scan (buffer_pool s) s)) = false).
  { destruct (pool_scan_store (buffer_pool s) s) as (h & p & ->). done. }
  destruct (pool_scan (buffer_pool s) s) as [[f|] s1]; simpl in Hs1.
  - unfold_monad. by rewrite Hs1.
  - unfold allocate_new_decklink_frame. unfold_monad. simpl.
    by rewrite Hs1.
Qed.

(** The free list under [pool_inv].  [Release] of a frame with a count of
    at least 1 keeps the invariant and appends the frame to the list exactly
    when the count was 1; [AddRef] of a frame that is not on the list keeps
    it; and [display_decklink_getf] of an initialized session in mono mode
    with no audio reconfiguration pending returns a frame with count 1 that
    is not on the list, and keeps the invariant. *)
Theorem pool_keeps_counts :
  (forall (s : state_decklink) (f : nat) (fr : DeckLinkFrame),
     pool_inv s -> heap s !! f = Some fr -> 1 <= ref fr < ULONG_MOD ->
     pool_inv (snd (Release f s))
     /\ buffer_pool (snd (Release f s))
        = (if ref fr =? 1 then buffer_pool s ++ [f] else buffer_pool s))
  /\ (forall (s : state_decklink) (f : nat),
       pool_inv s -> f ∉ buffer_pool s -> pool_inv (snd (AddRef f s)))
  /\ (forall (env : negotiation) (s : state_decklink),
       pool_inv s ->
       initialized s = true -> audio_reconfigure s = false -> stereo s = false ->
       exists f s',
         display_decklink_getf env s = (Some f, s')
         /\ ref <$> heap s' !! f = Some 1
         /\ (f ∉ buffer_pool s')
         /\ pool_inv s').
Proof.
  split; [exact Release_keeps_pool|]. split; [exact AddRef_keeps_pool|].
  intros env s Hinv Hini Har Hst.
  rewrite getf_ready by done.
  destruct (pool_scan_inv (buffer_pool s) s eq_refl Hinv)
    as (Hi & Hres & h & p' & Heq).
  destruct (pool_scan (buffer_pool s) s) as [[f|] s1]; simpl in *.
  - destruct Hres as [Hf Hnin]. by exists f, s1.
  - eexists _, _. split; [reflexivity|]. unfold pool_inv. simpl. rewrite Hres.
    split; [|split; [apply not_elem_of_nil|split; constructor]].
    rewrite lookup_app_r by lia. by rewrite Nat.sub_diag.
Qed.

(** *** The queue never holds more than ten frames *)

Lemma ScheduleNextFrame_empty s b :
  schedFrames (delegate s) = [] ->
  schedFrames (delegate (snd (ScheduleNextFrame b s))) = []
  /\ low_latency (snd (ScheduleNextFrame b s)) = low_latency s.
Proof.
  intros Hq. unfold ScheduleNextFrame. unfold_monad. rewrite Hq.
  destruct (_ <=? b); simpl; by rewrite ?Hq.
Qed.

Lemma queue_bounded_step o s :
  queue_bounded s -> queue_bounded (snd (step o s)).
Proof.
  intros [Hll Hlen]. destruct o as [f ts|f r b]; cbn [step].
  - unfold bind, ret.
    destruct (display_decklink_putf (Some (f, ts)) s) as [x s1] eqn:E.
    rewrite putf_scheduled in E by done. simpl.
    destruct (Z.lt_ge_cases
                (Z.of_nat (length (schedFrames (delegate s)))) MAX_UNPROC_QUEUE_SIZE)
      as [Hlt|Hge].
    + rewrite EnqueueFrame_push in E by done. injection E as _ <-.
      split; [done|]. simpl. rewrite length_app. simpl. lia.
    + rewrite EnqueueFrame_overflow in E
        by (simpl; unfold MAX_UNPROC_QUEUE_SIZE, UINT32_MOD in *; lia).
      injection E as _ <-. by split.
  - unfold ScheduledFrameCompleted.
    unfold bind at 1, getd at 1, gets at 1. unfold bind at 1.
    match goal with |- context [let (_, s') := ?c s in _] =>
      assert (Hs1 : queue_bounded (snd (c s)))
        by (destruct r; unfold_monad; by split);
      destruct (c s) as [[] s1]
    end.
    simpl in Hs1. destruct Hs1 as [Hll1 Hlen1].
    unfold bind at 1.
    assert (Hs2 : queue_bounded (snd (ScheduleNextFrame b s1))).
    { destruct (schedFrames (delegate s1)) as [|g q] eqn:Hq.
      - destruct (ScheduleNextFrame_empty s1 b Hq) as [Hq2 Hll2].
        split; [congruence|]. rewrite Hq2. simpl. unfold MAX_UNPROC_QUEUE_SIZE. lia.
      - rewrite ScheduleNextFrame_nonempty by (by rewrite Hq).
        destruct (drain_order (schedFrames (delegate s1)) b s1 eq_refl)
          as (sch & D' & h & p & n & y & L & _ & _ & ->).
        split; [done|]. simpl. unfold MAX_UNPROC_QUEUE_SIZE. lia. }
    destruct (ScheduleNextFrame b s1) as [[] s2]. simpl in Hs2.
    unfold bind, ret. pose proof (Release_step f s2) as (h & p & Heq & _).
    destruct (Release f s2) as [x s3]. simpl in *. by subst s3.
Qed.

(** In scheduled mode the queue never holds more than
    [MAX_UNPROC_QUEUE_SIZE] frames, whatever is submitted and whenever the
    device calls back. *)
Theorem queue_stays_bounded (ops : list op) (s : state_decklink) :
  low_latency s = false ->
  Z.of_nat (length (schedFrames (delegate s))) <= MAX_UNPROC_QUEUE_SIZE ->
  Z.of_nat (length (schedFrames (delegate (snd (run ops s)))))
  <= MAX_UNPROC_QUEUE_SIZE.
Proof.
  intros Hll Hlen. assert (Hq : queue_bounded s) by (by split). clear Hll Hlen.
  revert s Hq. induction ops as [|o ops IH]; intros s Hq.
  - by destruct Hq.
  - cbn [run]. unfold bind at 1.
    pose proof (queue_bounded_step o s Hq) as Hq1.
    destruct (step o s) as [[] s1]. by apply IH.
Qed.

(** *** Reset *)

Lemma release_all_spec q : forall s,
  schedFrames (delegate s) = q ->
  exists h p,
    snd (release_all q s) = upd_store h p (upd_delegate (set_schedFrames []) s).
Proof.
  induction q as [|f rest IH]; intros s Hq.
  - exists (heap s), (buffer_pool s). simpl.
    destruct s as [? ? [] ? ? ? ? ? ? ? ? ? ?]; simpl in *. by subst.
  - cbn [release_all]. unfold bind at 1.
    pose proof (Release_step f s) as (h1 & p1 & Heq & _).
    destruct (Release f s) as [r s1]. simpl in Heq. subst s1.
    unfold bind, modd, modify.
    match goal with |- context [release_all rest ?s2] =>
      destruct (IH s2) as (h & p & ->); [done|]
    end.
    by exists h, p.
Qed.



End Claims.

(** C7.  The bound of the pre-fill loop is
    [(m_min_sched_frames + m_min_sched_frames) / 2]: it equals the minimum
    lookahead and never reads the maximum.  With the defaults 4 and 6 the
    reconfiguration enqueues and schedules four frames, not
    [(4 + 6) / 2 = 5]. *)
Theorem prefill_uses_min_twice :
  (forall d : PlaybackDelegate,
     0 <= m_min_sched_frames d < 2 ^ 31 -> prefill_count d = m_min_sched_frames d)
  /\ prefill_count (delegate_init DEFAULT_MIN_SCHED_FRAMES DEFAULT_MAX_SCHED_FRAMES) = 4
  /\ (DEFAULT_MIN_SCHED_FRAMES + DEFAULT_MAX_SCHED_FRAMES) / 2 = 5
  /\ let s := snd (@display_decklink_reconfigure platform32 negotiation_ok desc_1080
                     (state_init false DEFAULT_MIN_SCHED_FRAMES DEFAULT_MAX_SCHED_FRAMES)) in
     initialized s = true
     /\ length (filter is_video_call (dev s)) = 4%nat.
Proof.
  split; [|by vm_compute].
  intros d Hmin. unfold prefill_count.
  rewrite to_uint32_small by (unfold UINT32_MOD; lia).
  replace (m_min_sched_frames d + m_min_sched_frames d)
    with (m_min_sched_frames d * 2) by lia.
  by rewrite Z.div_mul.
Qed.

(** C10.  The underrun path of [ScheduleNextFrame] hands [lastSchedFrame]
    to the device without [AddRef], the completion callback calls
    [Release] for every completed frame.  After a reconfiguration in
    scheduled mode (frame [0] pre-filled, count 5), six completions during
    which the producer delivers nothing leave frame [0] on the free list
    with count [2^32 - 1]; the next [display_decklink_getf] returns it with
    count [0] while it still is [lastSchedFrame].  With a 64 bit [ULONG]
    the same run leaves the frame on the free list with count
    [2^64 - 1]. *)
Theorem underrun_breaks_pool_counts :
  let s1 := scenario_running in
  let s2 := snd (@run platform32 underrun6 s1) in
  let r := @display_decklink_getf platform32 negotiation_ok s2 in
  (buffer_pool s1 = [] /\ frame_ref (heap s1) 0 = 5)
  /\ (buffer_pool s2 = [0%nat] /\ frame_ref (heap s2) 0 = 2 ^ 32 - 1)
  /\ (fst r = Some 0%nat /\ frame_ref (heap (snd r)) 0 = 0
      /\ lastSchedFrame (delegate (snd r)) = Some 0%nat)
  /\ (let t1 := snd (@display_decklink_reconfigure platform64 negotiation_ok
                       desc_1080
                       (state_init false DEFAULT_MIN_SCHED_FRAMES
                          DEFAULT_MAX_SCHED_FRAMES)) in
      let t2 := snd (@run platform64 underrun6 t1) in
      buffer_pool t2 = [0%nat] /\ frame_ref (heap t2) 0 = 2 ^ 64 - 1).
Proof. by vm_compute. Qed.


(** ** Reconfiguration, low latency, audio and shutdown *)

Section SessionLemmas.
Context `{Platform}.

Lemma hoare_bind {A B} (P : state_decklink -> Prop) R Q (c : M A) (k : A -> M B) :
  hoare P c R -> (forall a, hoare (R a) (k a) Q) -> hoare P (bind c k) Q.
Proof.
  intros Hc Hk s HP. unfold bind. specialize (Hc s HP).
  destruct (c s) as [a s1]. exact (Hk a s1 Hc).
Qed.

Lemma hoare_ret {A} (P : state_decklink -> Prop) (Q : A -> _ -> Prop) a :
  (forall s, P s -> Q a s) -> hoare P (ret a) Q.
Proof. intros HQ s HP. by apply HQ. Qed.

Lemma hoare_gets {A} (P : state_decklink -> Prop) (g : state_decklink -> A) :
  hoare P (gets g) (fun a s => P s /\ a = g s).
Proof. by intros s HP. Qed.

Lemma hoare_modify (P Q : state_decklink -> Prop) g :
  (forall s, P s -> Q (g s)) -> hoare P (modify g) (fun _ => Q).
Proof. intros HQ s HP. by apply HQ. Qed.

Lemma hoare_conseq {A} (P P' : state_decklink -> Prop) (Q Q' : A -> _ -> Prop) c :
  hoare P' c Q' -> (forall s, P s -> P' s) -> (forall a s, Q' a s -> Q a s) ->
  hoare P c Q.
Proof. intros Hc HP HQ s Hs. apply HQ, Hc, HP, Hs. Qed.

Lemma hoare_store_step {A} (c : M A) (I : state_decklink -> Prop) :
  (forall s, store_step s (snd (c s))) ->
  (forall s h p, I s -> I (upd_store h p s)) ->
  hoare I c (fun _ => I).
Proof.
  intros Hc HI s Hs. destruct (Hc s) as (h & p & -> & _). by apply HI.
Qed.

Lemma release_all_length q : forall s,
  length (heap (snd (release_all q s))) = length (heap s).
Proof.
  induction q as [|f rest IH]; intros s; [done|].
  cbn [release_all]. unfold bind at 1.
  pose proof (Release_step f s) as (h1 & p1 & Heq & Hl & _).
  destruct (Release f s) as [r s1]. simpl in Heq. subst s1.
  unfold bind, modd, modify. rewrite IH. exact Hl.
Qed.

Lemma Reset_shape s :
  exists h p,
    Reset s = (tt, after s h p (upd_sched [] None 0 (delegate s)) (dev s) (log s))
    /\ length h = length (heap s).
Proof.
  unfold Reset. unfold bind at 1.
  destruct (RELEASE_last_step s) as (s1 & (h1 & p1 & -> & Hl1 & _) & Heq).
  destruct (RELEASE_IF_NOT_NULL_lastSchedFrame s) as [[] s1']. simpl in Heq.
  subst s1'. unfold bind at 1, getd at 1, gets at 1.
  unfold bind at 1.
  match goal with |- context [release_all ?q ?s2] =>
    destruct (release_all_spec q s2 eq_refl) as (h & p & Heq);
    pose proof (release_all_length q s2) as Hlen;
    destruct (release_all q s2) as [[] s3]
  end.
  simpl in Heq. subst s3. exists h, p. unfold modd, modify, after. simpl.
  split.
  - f_equal. destruct s as [? ? [? ? ? ? l0 ? ? ? ? ? ? ?] ? ? ? ? ? ? ? ? ? ?]; simpl.
    by destruct l0.
  - simpl in Hlen. rewrite Hlen. by destruct (lastSchedFrame (delegate s)).
Qed.

Lemma sched_only_refl s : schedFrames (delegate s) = [] -> sched_only s s.
Proof.
  intros Hq. exists (heap s), (buffer_pool s), (lastSchedFrame (delegate s)),
    (schedSeq (delegate s)), [], [].
  split; [|done]. rewrite !app_nil_r. unfold after.
  destruct s as [? ? [] ? ? ? ? ? ? ? ? ? ?]; simpl in *. by subst.
Qed.

Lemma sched_only_trans s1 s2 s3 :
  sched_only s1 s2 -> sched_only s2 s3 -> sched_only s1 s3.
Proof.
  intros (h & p & l & n & D & L & -> & Hl & Ht)
         (h' & p' & l' & n' & D' & L' & -> & Hl' & Ht').
  exists h', p', l', n', (D ++ D'), (L ++ L'). simpl in *.
  split; [|split; [congruence|intros g; by rewrite Ht', Ht]].
  unfold after. simpl. by rewrite !app_assoc.
Qed.

Lemma sched_only_store s s1 s2 :
  store_step s s1 -> sched_only s1 s2 -> sched_only s s2.
Proof.
  intros (h0 & p0 & -> & Hl0 & Ht0) (h & p & l & n & D & L & -> & Hl & Ht).
  exists h, p, l, n, D, L. simpl in *.
  split; [done|]. split; [congruence|]. intros g. by rewrite Ht, Ht0.
Qed.

(** One round of the pre-fill loop. *)
Lemma prefill_round f b s :
  schedFrames (delegate s) = [] ->
  frame_timestamp (heap s) f = INT64_MIN ->
  sched_only s (snd (ScheduleNextFrame b (snd (EnqueueFrame f (snd (AddRef f s)))))).
Proof.
  intros Hq Hts.
  pose proof (AddRef_step f s) as Hst.
  destruct (AddRef f s) as [r s1]. simpl in *.
  eapply sched_only_store; [exact Hst|].
  destruct Hst as (h1 & p1 & -> & Hl1 & Ht1).
  rewrite EnqueueFrame_push by (simpl; rewrite Hq; simpl; unfold MAX_UNPROC_QUEUE_SIZE; lia).
  cbn [snd].
  match goal with |- context [ScheduleNextFrame b ?X] =>
    assert (HX : schedFrames (delegate X) = [f]) by (simpl; by rewrite Hq);
    rewrite (ScheduleNextFrame_nonempty X) by (by rewrite HX);
    rewrite HX, drain_cons
  end.
  cbn [drain ret snd].
  set (s2 := upd_delegate (set_schedFrames []) _).
  assert (Hd2 : delegate s2 = upd_sched [] (lastSchedFrame (delegate s))
                                (schedSeq (delegate s)) (delegate s)).
  { subst s2. simpl. unfold set_schedFrames. simpl.
    destruct s as [? ? [] ? ? ? ? ? ? ? ? ? ?]; simpl in *. by subst. }
  destruct (Z.lt_ge_cases (m_max_sched_frames (delegate s2)) (to_uint32 (b + 1)))
    as [Hlt|Hge].
  - destruct (schedule_one_dismiss f _ s2 Hlt) as (h & p & -> & Hl & Ht).
    exists h, p, (lastSchedFrame (delegate s)), (schedSeq (delegate s)),
      [], [DismissedFrame (to_uint32 (to_uint32 (b + 1) - 1))].
    split; [|done]. rewrite app_nil_r. unfold after. simpl.
    destruct s as [? ? [] ? ? ? ? ? ? ? ? ? ?]; simpl in *. by subst.
  - destruct (schedule_one_sched f _ s2 Hge) as (h & p & -> & Hl & Ht).
    assert (Hts2 : frame_timestamp (heap s2) f = INT64_MIN)
      by (subst s2; simpl; by rewrite Ht1).
    rewrite Hts2, Z.eqb_refl, andb_false_r.
    exists h, p, (Some f), (schedSeq (delegate s) + 1),
      [ScheduleVideoFrame (Some f) (schedSeq (delegate s2) * frameRateDuration (delegate s2))
         (frameRateDuration (delegate s2)) (frameRateScale (delegate s2))], [].
    split; [|done]. rewrite app_nil_r. unfold after. simpl.
    destruct s as [? ? [] ? ? ? ? ? ? ? ? ? ?]; simpl in *. by subst.
Qed.

Lemma prefill_shape n : forall j f env s,
  schedFrames (delegate s) = [] ->
  frame_timestamp (heap s) f = INT64_MIN ->
  sched_only s (snd (prefill n j f env s)).
Proof.
  induction n as [|n IH]; intros j f env s Hq Hts.
  - by apply sched_only_refl.
  - cbn [prefill]. unfold bind at 1.
    pose proof (prefill_round f (prefill_buffered env j) s Hq Hts) as Hr.
    destruct (AddRef f s) as [r1 s1]. cbn [snd] in Hr. unfold bind at 1.
    destruct (EnqueueFrame f s1) as [r2 s2]. cbn [snd] in Hr. unfold bind at 1.
    destruct (ScheduleNextFrame (prefill_buffered env j) s2) as [[] s3].
    cbn [snd] in Hr. apply (sched_only_trans s s3); [exact Hr|].
    destruct Hr as (h & p & l & m & D & L & Heq & Hl & Ht). subst s3.
    apply IH; [done|]. simpl. by rewrite Ht.
Qed.


(** What [display_decklink_reconfigure] keeps from its first statements on:
    the new descriptor, a [deinit] anchor, and the audio side of the
    session. *)
Lemma reconfigure_hoare env desc ll pa aud ar A0 :
  hoare (fun s => low_latency s = ll /\ play_audio s = pa /\ aud_desc s = aud
                  /\ audio_reconfigure s = ar /\ m_adata (delegate s) = A0)
    (display_decklink_reconfigure env desc)
    (fun r s' =>
       initialized s' = r
       /\ (r = true -> audio_reconfigure s' = false)
       /\ (r = false -> audio_reconfigure s' = ar)
       /\ vid_desc s' = desc
       /\ m_audio_sync_ts (delegate s') = deinit
       /\ m_adata (delegate s') = A0
       /\ schedFrames (delegate s') = []
       /\ low_latency s' = ll /\ play_audio s' = pa /\ aud_desc s' = aud).
Proof.
  set (J := fun s => vid_desc s = desc /\ m_audio_sync_ts (delegate s) = deinit
                     /\ m_adata (delegate s) = A0 /\ low_latency s = ll
                     /\ play_audio s = pa /\ aud_desc s = aud
                     /\ audio_reconfigure s = ar).
  set (I := fun s => J s /\ initialized s = false /\ schedFrames (delegate s) = []).
  assert (Hfail : forall P : state_decklink -> Prop, (forall s, P s -> I s) ->
            hoare P (ret false) (fun r s' =>
              initialized s' = r
              /\ (r = true -> audio_reconfigure s' = false)
              /\ (r = false -> audio_reconfigure s' = ar)
              /\ vid_desc s' = desc
              /\ m_audio_sync_ts (delegate s') = deinit
              /\ m_adata (delegate s') = A0
              /\ schedFrames (delegate s') = []
              /\ low_latency s' = ll /\ play_audio s' = pa /\ aud_desc s' = aud)).
  { intros P HP. apply hoare_ret. intros s Hs. apply HP in Hs.
    destruct Hs as ((? & ? & ? & ? & ? & ? & ?) & ? & ?). by split_and!. }
  assert (Hcall : forall c, hoare I (call c) (fun _ => I)).
  { intros c. apply hoare_modify. intros s Hs. exact Hs. }
  assert (Hstore : forall s h p, I s -> I (upd_store h p s)).
  { intros s h p Hs. exact Hs. }
  unfold display_decklink_reconfigure.
  eapply hoare_bind.
  { apply (hoare_modify _ (fun s => m_audio_sync_ts (delegate s) = deinit
            /\ m_adata (delegate s) = A0 /\ low_latency s = ll
            /\ play_audio s = pa /\ aud_desc s = aud /\ audio_reconfigure s = ar)).
    intros s (? & ? & ? & ? & ?). by split_and!. }
  intros ?. eapply hoare_bind.
  { apply (hoare_modify _ J). intros s (? & ? & ? & ? & ? & ?). by split_and!. }
  intros ?. eapply hoare_bind; [apply hoare_gets|]. intros ini.
  eapply hoare_bind; [apply hoare_gets|]. intros ll'.
  eapply hoare_bind; [apply hoare_gets|]. intros pa'. cbv beta.
  eapply (hoare_bind _ (fun _ s => J s /\ initialized s = false)).
  { destruct ini.
    - intros s (((HJ & _) & _) & _). unfold_monad.
      destruct (negb ll'), pa'; simpl; (split; [exact HJ|reflexivity]).
    - intros s (((HJ & Hi) & _) & _). split; [exact HJ|]. simpl. by rewrite <- Hi. }
  intros ?. eapply (hoare_bind _ (fun _ => I)).
  { intros s (HJ & Hi). destruct (Reset_shape s) as (h & p & -> & _). simpl.
    split; [|done]. exact HJ. }
  intros ?. destruct (uv_to_bmd_codec_map (color_spec desc)) as [pf|];
    [|by apply Hfail].
  eapply (hoare_bind _ (fun _ => I)).
  { apply hoare_modify. intros s Hs. exact Hs. }
  intros ?. eapply hoare_bind; [apply hoare_gets|]. intros st0.
  eapply (hoare_bind _ (fun _ => I)).
  { destruct (_ && _).
    - apply hoare_modify. intros s [Hs _]. exact Hs.
    - apply hoare_ret. by intros s [Hs _]. }
  intros ?. eapply hoare_bind; [apply hoare_gets|]. intros st.
  destruct (st && _); [apply Hfail; by intros s [Hs _]|].
  eapply (hoare_bind _ (fun _ => I)).
  { destruct (mode_rate env) as [[dur scale]|].
    - apply hoare_modify. intros s [Hs _]. exact Hs.
    - apply hoare_ret. by intros s [Hs _]. }
  intros ?. destruct (negb (mode_found env)); [by apply Hfail|].
  destruct (negb (mode_supported env)); [by apply Hfail|].
  eapply hoare_bind; [apply Hcall|]. intros ?.
  destruct (negb (video_enabled env)); [by apply Hfail|].
  eapply (hoare_bind _ (fun _ => I)).
  { destruct pa'; [|by apply hoare_ret].
    eapply hoare_bind; [apply hoare_gets|]. intros ad.
    eapply hoare_bind; [eapply hoare_conseq; [apply Hcall| |]|].
    - by intros s [Hs _].
    - intros ? s Hs. exact Hs.
    - intros ?. by apply hoare_ret. }
  intros audio_ok. destruct (negb audio_ok); [by apply Hfail|].
  eapply (hoare_bind _ (fun _ => I)).
  { destruct (negb ll'); [|by apply hoare_ret].
    eapply hoare_bind; [apply Hcall|]. intros ?.
    eapply (hoare_bind _ (fun f s => I s /\ frame_timestamp (heap s) f = INT64_MIN)).
    { intros s Hs. unfold allocate_new_decklink_frame. unfold_monad. simpl.
      split; [exact Hs|]. unfold frame_timestamp.
      destruct (stereo s).
      - rewrite lookup_app_r by lia. by rewrite Nat.sub_diag.
      - rewrite lookup_app_r by lia. by rewrite Nat.sub_diag. }
    intros f. eapply hoare_bind; [apply hoare_gets|]. intros n.
    eapply (hoare_bind _ (fun _ => I)).
    { intros s ((Hs & Hts) & _).
      destruct (prefill_shape (Z.to_nat n) 0 f env s) as (h & p & l & m & D & L & -> & _);
        [apply Hs|exact Hts|].
      destruct Hs as ((? & ? & ? & ? & ? & ? & ?) & ? & ?). by split_and!. }
    intros ?. eapply (hoare_bind _ (fun _ => I)).
    { apply hoare_store_step; [apply Release_step|exact Hstore]. }
    intros ?. eapply hoare_bind; [apply hoare_gets|]. intros scale.
    eapply hoare_bind; [eapply hoare_conseq; [apply Hcall| |]|].
    - by intros s [Hs _].
    - intros ? s Hs. exact Hs.
    - intros ?. destruct (playback_started env); [by apply hoare_ret|].
      eapply hoare_bind; [apply Hcall|]. intros ?. by apply hoare_ret. }
  intros started. destruct (negb started); [by apply Hfail|].
  eapply hoare_bind.
  { apply (hoare_modify _ (fun s => J s /\ initialized s = true
                                   /\ schedFrames (delegate s) = [])).
    intros s (HJ & _ & Hq). by split_and!. }
  intros ?. eapply hoare_bind.
  { apply (hoare_modify _ (fun s =>
       vid_desc s = desc /\ m_audio_sync_ts (delegate s) = deinit
       /\ m_adata (delegate s) = A0 /\ low_latency s = ll
       /\ play_audio s = pa /\ aud_desc s = aud
       /\ audio_reconfigure s = false /\ initialized s = true
       /\ schedFrames (delegate s) = [])).
    intros s ((? & ? & ? & ? & ? & ? & ?) & ? & ?). by split_and!. }
  intros ?. apply hoare_ret.
  intros s (? & ? & ? & ? & ? & ? & ? & ? & ?). by split_and!.
Qed.

(** [display_decklink_reconfigure], whatever the device answers.  The
    session is initialized exactly when the call returns [true]; success
    clears a pending audio reconfiguration, failure leaves that flag as it
    was.  Either way the new description is stored, the queue is empty, the
    anchor is [deinit], and latency mode, audio flag, audio description and
    the audio baseline [m_adata] are those from before the call.  After a
    failure [display_decklink_getf] returns no buffer and changes nothing.
    If no anchor had been saved before the call, [ScheduleAudio] discards
    the audio of the new session: [*samples] and the state stay as they
    are. *)
Theorem reconfigure_outcome (env : negotiation) (desc : video_desc)
    (s : state_decklink) :
  let r := fst (display_decklink_reconfigure env desc s) in
  let s' := snd (display_decklink_reconfigure env desc s) in
  (initialized s' = r
   /\ (r = true -> audio_reconfigure s' = false)
   /\ (r = false -> audio_reconfigure s' = audio_reconfigure s)
   /\ vid_desc s' = desc
   /\ schedFrames (delegate s') = []
   /\ low_latency s' = low_latency s
   /\ play_audio s' = play_audio s
   /\ aud_desc s' = aud_desc s)
  /\ (m_audio_sync_ts (delegate s') = deinit
      /\ m_adata (delegate s') = m_adata (delegate s))
  /\ (r = false -> forall env', display_decklink_getf env' s' = (None, s'))
  /\ (saved_sync_ts (m_adata (delegate s)) = INT64_MIN ->
      forall ts samples written,
        ScheduleAudio ts samples written s' = (samples, s')).
Proof.
  cbv zeta.
  pose proof (reconfigure_hoare env desc (low_latency s) (play_audio s)
                (aud_desc s) (audio_reconfigure s) (m_adata (delegate s)) s)
    as Hh.
  destruct Hh as (Hi & Ht & Hf & Hd & Hy & Ha & Hq & Hl & Hp & Hau); [done|].
  destruct (display_decklink_reconfigure env desc s) as [r s']. simpl in *.
  split_and!; try done.
  - intros -> env'. unfold display_decklink_getf. unfold_monad. by rewrite Hi.
  - intros Hsaved ts samples written. unfold ScheduleAudio. unfold_monad.
    by rewrite Ha, Hsaved, Hy.
Qed.

Lemma frame_matches_set_ref s r fr :
  frame_matches s (set_ref r fr) = frame_matches s fr.
Proof. reflexivity. Qed.

Lemma pool_scan_cons tmp rest s :
  pool_scan (tmp :: rest) s
  = let s0 := set_buffer_pool (tail (buffer_pool s)) s in
    match heap s !! tmp with
    | Some fr =>
        if frame_matches s fr then (Some tmp, snd (AddRef tmp s0))
        else pool_scan rest (snd (Release tmp s0))
    | None => pool_scan rest s0
    end.
Proof.
  cbn [pool_scan]. unfold bind at 1, modify at 1. unfold bind at 1, gets at 1.
  cbn [id]. cbv zeta.
  set (s0 := set_buffer_pool (tail (buffer_pool s)) s).
  change (heap s0) with (heap s).
  destruct (heap s !! tmp) as [fr|]; [|done].
  change (frame_matches s0 fr) with (frame_matches s fr).
  destruct (frame_matches s fr); unfold bind, ret.
  - by destruct (AddRef tmp s0).
  - by destruct (Release tmp s0).
Qed.

(** The pool loop returns a frame that matches, allocates nothing, and
    finds a frame whenever the list holds a matching one. *)
Lemma pool_scan_matches p : forall s,
  let r := pool_scan p s in
  length (heap (snd r)) = length (heap s)
  /\ match fst r with
     | Some f => exists fr, heap (snd r) !! f = Some fr
                            /\ frame_matches s fr = true
     | None => forall f fr, f ∈ p -> heap s !! f = Some fr ->
                            frame_matches s fr = false
     end.
Proof.
  induction p as [|tmp rest IH]; intros s r; subst r.
  - simpl. split; [done|]. intros f fr Hin. by apply elem_of_nil in Hin.
  - rewrite pool_scan_cons. cbv zeta.
    set (s0 := set_buffer_pool (tail (buffer_pool s)) s).
    destruct (heap s !! tmp) as [fr|] eqn:Hfr.
    + destruct (frame_matches s fr) eqn:Hm.
      * rewrite AddRef_eq. change (heap s0) with (heap s).
        rewrite Hfr. simpl. rewrite length_insert. split; [done|].
        exists (set_ref ((ref fr + 1) mod ULONG_MOD) fr).
        split; [|done].
        by rewrite list_lookup_insert_eq by (by eapply lookup_lt_Some).
      * rewrite Release_eq. change (heap s0) with (heap s).
        rewrite Hfr. cbv zeta. cbn [snd].
        match goal with |- context [pool_scan rest ?s2] =>
          specialize (IH s2); cbv zeta in IH; destruct IH as [IHl IHm];
          destruct (pool_scan rest s2) as [o s3] eqn:E
        end.
        simpl in IHl, IHm |- *. rewrite length_insert in IHl. split; [done|].
        destruct o as [f|]; [exact IHm|].
        intros f fr' [->|Hin]%elem_of_cons Hf; [congruence|].
        destruct (decide (f = tmp)) as [->|Hne]; [congruence|].
        apply (IHm f fr' Hin). by rewrite list_lookup_insert_ne.
    + specialize (IH s0). cbv zeta in IH. destruct IH as [IHl IHm].
      destruct (pool_scan rest s0) as [o s3]. simpl in *. split; [done|].
      destruct o as [f|]; [exact IHm|].
      intros f fr' [->|Hin]%elem_of_cons Hf; [congruence|].
      by apply (IHm f fr' Hin).
Qed.

Lemma putf_low_latency s f ts :
  low_latency s = true ->
  display_decklink_putf (Some (f, ts)) s
  = (true, snd (Release f (upd_out (dev s ++ [DisplayVideoFrameSync f]) (log s) s))).
Proof.
  intros Hll. unfold display_decklink_putf. unfold bind at 1, gets at 1.
  rewrite Hll. unfold bind at 1, call at 1, modify at 1. unfold bind, ret.
  by destruct (Release f _).
Qed.

Lemma produce_one_round env ts s :
  low_latency_ready s ->
  exists f s',
    produce_one env ts s = (true, s')
    /\ low_latency_ready s' /\ pool_has_match s'
    /\ dev s' = dev s ++ [DisplayVideoFrameSync f]
    /\ log s' = log s /\ delegate s' = delegate s
    /\ vid_desc s' = vid_desc s /\ pixelFormat s' = pixelFormat s
    /\ last (buffer_pool s') = Some f
    /\ (length (heap s') <= S (length (heap s)))%nat
    /\ (pool_has_match s -> length (heap s') = length (heap s)).
Proof.
  intros (Hinv & Hini & Har & Hst & Hll).
  unfold produce_one. unfold bind. rewrite getf_ready by done.
  destruct (pool_scan_inv (buffer_pool s) s eq_refl Hinv)
    as (Hi & Hres & h & p' & Heq).
  destruct (pool_scan_matches (buffer_pool s) s) as [Hlen Hm].
  destruct (pool_scan (buffer_pool s) s) as [[f|] s1]; cbn [fst snd] in *;
    subst s1.
  - destruct Hres as [Hf Hnin]. destruct Hm as (fr & Hfr & Hmatch).
    cbn [heap upd_store buffer_pool] in *. rewrite Hfr in Hf. injection Hf as Hr.
    rewrite putf_low_latency by done.
    set (s2 := upd_out _ _ _).
    destruct (Release_keeps_pool s2 f fr) as [Hi2 Hp2];
      [exact Hi|exact Hfr|pose proof ULONG_MOD_gt_1; lia|].
    rewrite Hr in Hp2. change (1 =? 1) with true in Hp2. cbv iota in Hp2.
    pose proof (Release_step f s2) as (h3 & p3 & Heq3 & Hl3 & _).
    exists f, (snd (Release f s2)). split; [done|].
    assert (Hh3 : heap (snd (Release f s2)) !! f = Some (set_ref 0 fr)).
    { rewrite Release_eq. change (heap s2) with h. rewrite Hfr. simpl. rewrite Hr.
      change ((1 - 1) mod ULONG_MOD) with (0 mod ULONG_MOD). rewrite Z.mod_0_l
        by (pose proof ULONG_MOD_gt_1; lia).
      by rewrite list_lookup_insert_eq by (by eapply lookup_lt_Some). }
    rewrite Heq3 in *. simpl in *. split_and!; try done.
    + exists f, (set_ref 0 fr). split_and!; [|done|done].
      rewrite Hp2. apply elem_of_app. right. by apply list_elem_of_singleton.
    + rewrite Hp2. by rewrite last_snoc.
    + lia.
    + intros _. congruence.
  - cbn [heap upd_store buffer_pool] in *. subst p'.
    set (fr := new_frame _ _ _ _ None).
    rewrite putf_low_latency by done.
    set (s2 := upd_out _ _ _).
    assert (Hfr : heap s2 !! length h = Some fr).
    { subst s2. simpl. rewrite lookup_app_r by lia. by rewrite Nat.sub_diag. }
    assert (Hi2 : pool_inv s2).
    { subst s2. unfold pool_inv. simpl. split; constructor. }
    destruct (Release_keeps_pool s2 (length h) fr) as [Hi3 Hp3];
      [exact Hi2|exact Hfr|simpl; pose proof ULONG_MOD_gt_1; lia|].
    change (ref fr =? 1) with true in Hp3. cbv iota in Hp3.
    pose proof (Release_step (length h) s2) as (h3 & p3 & Heq3 & Hl3 & _).
    exists (length h), (snd (Release (length h) s2)). split; [done|].
    assert (Hh3 : heap (snd (Release (length h) s2)) !! length h
                  = Some (set_ref 0 fr)).
    { rewrite Release_eq, Hfr. simpl.
      change ((1 - 1) mod ULONG_MOD) with (0 mod ULONG_MOD). rewrite Z.mod_0_l
        by (pose proof ULONG_MOD_gt_1; lia).
      by rewrite list_lookup_insert_eq by (by eapply lookup_lt_Some). }
    rewrite Heq3 in *. simpl in *. split_and!; try done.
    + exists (length h), (set_ref 0 fr). split_and!; [|done|].
      * subst p3. simpl. by apply list_elem_of_singleton.
      * unfold frame_matches. simpl. rewrite Hst. simpl. by rewrite !Z.eqb_refl.
    + by subst p3.
    + rewrite Hl3, length_app. simpl. lia.
    + intros (g & fg & Hg & Hfg & Hmg). by rewrite (Hm g fg Hg Hfg) in Hmg.
Qed.

Lemma produce_cons env ts rest s :
  produce env (ts :: rest) s
  = let (r, s1) := produce_one env ts s in
    let (rs, s2) := produce env rest s1 in (r :: rs, s2).
Proof. reflexivity. Qed.

(** A producer in low-latency mode: rounds of [display_decklink_getf]
    followed by [display_decklink_putf] of the buffer.  From a session
    that is initialized, mono, without pending audio reconfiguration and
    whose free list satisfies [pool_inv], every round succeeds and displays
    one frame synchronously; the store grows by at most one frame over the
    whole run, and not at all when the free list holds a matching frame at
    the start; [pool_inv] holds at the end, nothing is logged and the
    delegate is not touched. *)
Theorem low_latency_recycles (env : negotiation) (tss : list Z)
    (s : state_decklink) :
  low_latency_ready s ->
  let r := produce env tss s in
  fst r = replicate (length tss) true
  /\ length (displayed (dev (snd r))) = (length (displayed (dev s)) + length tss)%nat
  /\ (length (heap (snd r)) <= S (length (heap s)))%nat
  /\ (pool_has_match s -> length (heap (snd r)) = length (heap s))
  /\ pool_inv (snd r)
  /\ log (snd r) = log s /\ delegate (snd r) = delegate s.
Proof.
  intros Hs. cbv zeta.
  assert (Hgen : forall tss s, low_latency_ready s -> pool_has_match s ->
            fst (produce env tss s) = replicate (length tss) true
            /\ length (displayed (dev (snd (produce env tss s))))
               = (length (displayed (dev s)) + length tss)%nat
            /\ length (heap (snd (produce env tss s))) = length (heap s)
            /\ pool_inv (snd (produce env tss s))
            /\ log (snd (produce env tss s)) = log s
            /\ delegate (snd (produce env tss s)) = delegate s).
  { clear tss s Hs. induction tss as [|ts tss IH]; intros s Hs Hm.
    - simpl. rewrite Nat.add_0_r. split_and!; try done. apply Hs.
    - rewrite produce_cons.
      destruct (produce_one_round env ts s Hs)
        as (f & s1 & -> & Hs1 & Hm1 & Hd & Hl & Hdel & _ & _ & _ & _ & Hsame).
      specialize (IH s1 Hs1 Hm1).
      destruct (produce env tss s1) as [rs s2]. cbn [fst snd length replicate] in *.
      destruct IH as (-> & Hd2 & Hh2 & Hi2 & Hl2 & Hdel2).
      split_and!; try done; try congruence.
      + rewrite Hd2, Hd. unfold displayed. rewrite omap_app, length_app. simpl. lia.
      + rewrite Hh2. by apply Hsame. }
  destruct tss as [|ts tss].
  - simpl. rewrite Nat.add_0_r. split_and!; try done; [lia|apply Hs].
  - rewrite produce_cons.
    destruct (produce_one_round env ts s Hs)
      as (f & s1 & -> & Hs1 & Hm1 & Hd & Hl & Hdel & _ & _ & _ & Hle & Hsame).
    destruct (Hgen tss s1 Hs1 Hm1) as (Hr & Hd2 & Hh2 & Hi2 & Hl2 & Hdel2).
    destruct (produce env tss s1) as [rs s2]. cbn [fst snd length replicate] in *.
    subst rs.
    split_and!; try done; try congruence.
    + rewrite Hd2, Hd. unfold displayed. rewrite omap_app, length_app. simpl. lia.
    + intros Hm. rewrite Hh2. by apply Hsame.
Qed.

(** [display_decklink_put_audio_frame] of a session that plays audio.
    While an audio reconfiguration is pending the frame is dropped: no
    event, the state unchanged.  In scheduled mode, as long as no anchor
    was saved and the published one is [deinit], nothing reaches the
    device, no overflow is reported and the drift fixer is told that all
    [n] samples were written.  In low-latency mode the samples go to
    [WriteAudioSamplesSync], the store, the [dev] trace and the delegate
    stay as they are; a failed write ends the call after its warning, a
    successful one reports an overflow exactly when the device wrote a
    count other than [n], and ends with the update of the drift fixer. *)
Theorem put_audio_frame_gating (env : audio_answers) (frame : audio_frame)
    (s : state_decklink) :
  play_audio s = true ->
  let n := to_uint32 (Z.quot (af_data_len frame)
                             (af_bps frame * af_ch_count frame)) in
  let r := display_decklink_put_audio_frame env frame s in
  (audio_reconfigure s = true -> r = (Some [], s))
  /\ (audio_reconfigure s = false -> low_latency s = false ->
      saved_sync_ts (m_adata (delegate s)) = INT64_MIN ->
      m_audio_sync_ts (delegate s) = deinit ->
      snd r = s
      /\ exists events, fst r = Some events
           /\ (AudioBufferMessage true ∉ events)
           /\ last events
              = Some (DriftFixerUpdate (buffered_samples env) n n))
  /\ (audio_reconfigure s = false -> low_latency s = true ->
      heap (snd r) = heap s /\ dev (snd r) = dev s
      /\ delegate (snd r) = delegate s
      /\ exists events, fst r = Some events
           /\ (WriteAudioSamplesSync n ∈ events)
           /\ (write_succeeded env = false ->
               last events = Some WriteAudioSamplesFailed)
           /\ (write_succeeded env = true ->
               (AudioBufferMessage true ∈ events <-> samples_written env <> n)
               /\ last events
                  = Some (DriftFixerUpdate (buffered_samples env) n
                            (samples_written env)))).
Proof.
  intros Hpa n r.
  assert (Hpending : audio_reconfigure s = true -> r = (Some [], s)).
  { intros Har. subst r. unfold display_decklink_put_audio_frame.
    unfold_monad. rewrite Hpa. simpl. by rewrite Har. }
  assert (Hrun : audio_reconfigure s = false ->
     r = (if low_latency s then
            if negb (write_succeeded env)
            then ret (Some ((if buffered_samples env =? 0
                             then [AudioUnderflowWarning] else [])
                            ++ [WriteAudioSamplesSync n; WriteAudioSamplesFailed]))
            else ret (Some (((if buffered_samples env =? 0
                              then [AudioUnderflowWarning] else [])
                             ++ [WriteAudioSamplesSync n])
                            ++ (if negb (samples_written env =? n)
                                   || debug_logging env
                                then [AudioBufferMessage
                                        (negb (samples_written env =? n))]
                                else [])
                            ++ [DriftFixerUpdate (buffered_samples env) n
                                  (samples_written env)]))
          else
            w <- ScheduleAudio (af_timestamp frame) n (samples_written env) ;;
            ret (Some ((if buffered_samples env =? 0
                        then [AudioUnderflowWarning] else [])
                       ++ (if negb (w =? n) || debug_logging env
                           then [AudioBufferMessage (negb (w =? n))] else [])
                       ++ [DriftFixerUpdate (buffered_samples env) n w]))) s).
  { intros Har. subst r. unfold display_decklink_put_audio_frame.
    unfold bind at 1, gets at 1. rewrite Hpa. cbn [negb].
    unfold bind at 1, gets at 1. rewrite Har.
    unfold bind at 1, gets at 1. reflexivity. }
  clearbody r. split_and!.
  - exact Hpending.
  - intros Har Hll Hsaved Hsync. rewrite (Hrun Har), Hll.
    unfold bind, ret. unfold ScheduleAudio. unfold_monad.
    rewrite Hsaved, Hsync. simpl. rewrite Z.eqb_refl. simpl.
    split; [done|]. eexists. split; [reflexivity|]. split.
    + intros Hin. destruct (buffered_samples env =? 0), (debug_logging env);
        simpl in Hin; repeat (apply elem_of_cons in Hin as [Hin|Hin]; [discriminate|]);
        by apply elem_of_nil in Hin.
    + by destruct (buffered_samples env =? 0), (debug_logging env).
  - intros Har Hll. rewrite (Hrun Har), Hll.
    destruct (write_succeeded env) eqn:Hw; simpl.
    + split_and!; try done. eexists. split; [reflexivity|]. split_and!.
      * destruct (buffered_samples env =? 0); simpl;
          repeat first [apply list_elem_of_here | apply list_elem_of_further].
      * intros ?; discriminate.
      * intros _. split.
        -- destruct (Z.eqb_spec (samples_written env) n) as [E|E]; simpl.
           ++ split; [|done]. intros Hin.
              destruct (buffered_samples env =? 0), (debug_logging env);
                simpl in Hin;
                repeat (apply elem_of_cons in Hin as [Hin|Hin]; [discriminate|]);
                by apply elem_of_nil in Hin.
           ++ split; [done|]. intros _.
              destruct (buffered_samples env =? 0); simpl;
                repeat first [apply list_elem_of_here | apply list_elem_of_further].
        -- destruct (buffered_samples env =? 0),
             (negb (samples_written env =? n) || debug_logging env); reflexivity.
    + split_and!; try done. eexists. split; [reflexivity|]. split_and!.
      * destruct (buffered_samples env =? 0); simpl;
          repeat first [apply list_elem_of_here | apply list_elem_of_further].
      * intros _. by destruct (buffered_samples env =? 0).
      * intros ?; discriminate.
Qed.

(** Once past its two guards, [display_decklink_getf] returns a frame and
    only touches the free store and the pool. *)
Lemma getf_serves env s :
  initialized s = true -> audio_reconfigure s = false ->
  exists f h p, display_decklink_getf env s = (Some f, upd_store h p s).
Proof.
  intros Hini Har.
  set (I := fun s' : state_decklink => exists h p, s' = upd_store h p s).
  assert (Hstore : forall A (c : M A),
            (forall s0, store_step s0 (snd (c s0))) -> hoare I c (fun _ => I)).
  { intros A c Hc s0 (h & p & ->). destruct (Hc (upd_store h p s)) as (h' & p' & -> & _).
    by exists h', p'. }
  unfold display_decklink_getf.
  unfold bind at 1, gets at 1. rewrite Hini. cbn [negb].
  unfold bind at 1, gets at 1. rewrite Har.
  unfold bind at 1, ret at 1. cbn [negb].
  match goal with |- exists f h p, ?c s = _ =>
    assert (Hh : hoare I c (fun o s' => is_Some o /\ I s'))
  end.
  { eapply hoare_bind; [apply hoare_gets|]. intros p.
    eapply (hoare_bind _ (fun _ => I)).
    { intros s0 [(h & p' & ->) ->].
      destruct (pool_scan_store (buffer_pool (upd_store h p' s)) (upd_store h p' s))
        as (h2 & p2 & ->).
      by exists h2, p2. }
    intros o. eapply (hoare_bind _ (fun _ => I)).
    { destruct o as [f|]; [by apply hoare_ret|].
      intros s0 (h & p' & ->). unfold allocate_new_decklink_frame. unfold_monad.
      simpl. by eexists _, _. }
    intros f. eapply hoare_bind; [apply hoare_gets|]. intros st.
    eapply hoare_bind; [apply hoare_gets|]. intros fr.
    eapply (hoare_bind _ (fun _ => I)).
    { destruct st, (fr ≫= rightEye) as [eye|];
        try (apply hoare_ret; by intros s0 [[Hs _] _]).
      eapply (hoare_bind _ (fun _ => I)).
      { eapply hoare_conseq; [apply Hstore, AddRef_step| |done].
        by intros s0 [[Hs _] _]. }
      intros ?. eapply (hoare_bind _ (fun _ => I)); [apply Hstore, Release_step|].
      intros ?. by apply hoare_ret. }
    intros ?. apply hoare_ret. intros s0 Hs. split; [by eexists|exact Hs]. }
  assert (Hs : I s) by (exists (heap s), (buffer_pool s); by destruct s).
  match goal with |- exists f h p, ?c s = _ =>
    specialize (Hh s Hs); destruct (c s) as [o s']
  end.
  cbn [fst snd] in Hh. destruct Hh as [[f ->] (h & p & ->)].
  by exists f, h, p.
Qed.

(** With an audio reconfiguration pending, [display_decklink_getf] is the
    video reconfiguration followed, when it succeeds, by the acquisition. *)
Lemma getf_pending env s :
  initialized s = true -> audio_reconfigure s = true ->
  display_decklink_getf env s
  = (let (r, s2) := display_decklink_reconfigure env (vid_desc s) s in
     if r then display_decklink_getf env (set_audio_reconfigure false s2)
     else (None, s2)).
Proof.
  intros Hini Har.
  pose proof (reconfigure_hoare env (vid_desc s) (low_latency s) (play_audio s)
                (aud_desc s) (audio_reconfigure s) (m_adata (delegate s)) s)
    as Hh.
  destruct Hh as (Hi & Ht & _); [done|].
  unfold display_decklink_getf at 1.
  unfold bind at 1, gets at 1. rewrite Hini. cbn [negb].
  unfold bind at 1, gets at 1. rewrite Har.
  unfold bind at 1. unfold bind at 1, gets at 1. unfold bind at 1.
  destruct (display_decklink_reconfigure env (vid_desc s) s) as [r s2].
  simpl in Hi, Ht. destruct r; [|reflexivity].
  unfold bind at 1, modify at 1. unfold ret at 1. cbn [negb].
  set (s3 := set_audio_reconfigure false s2).
  assert (Hi3 : initialized s3 = true) by done.
  assert (Ha3 : audio_reconfigure s3 = false) by done.
  clearbody s3. symmetry. unfold display_decklink_getf.
  unfold bind at 1, gets at 1. rewrite Hi3. cbn [negb].
  unfold bind at 1, gets at 1. rewrite Ha3.
  unfold bind at 1, ret at 1. cbn [negb]. reflexivity.
Qed.

Lemma hoare_pure {A} (phi : Prop) (P : state_decklink -> Prop)
    (Q : A -> state_decklink -> Prop) c :
  (forall s, P s -> phi) -> (phi -> hoare P c Q) -> hoare P c Q.
Proof. intros Hphi Hc s Hs. exact (Hc (Hphi s Hs) s Hs). Qed.

(** One round of the pre-fill loop, precisely: the frame is scheduled at
    the next slot unless the device already holds [m_max_sched_frames]. *)
Lemma prefill_round_events f b s :
  schedFrames (delegate s) = [] ->
  frame_timestamp (heap s) f = INT64_MIN ->
  let d := delegate s in
  let go := to_uint32 (b + 1) <=? m_max_sched_frames d in
  exists h p,
    snd (ScheduleNextFrame b (snd (EnqueueFrame f (snd (AddRef f s)))))
    = after s h p
        (if go then upd_sched [] (Some f) (schedSeq d + 1) d else d)
        (dev s ++ (if go then [ScheduleVideoFrame (Some f)
                                 (schedSeq d * frameRateDuration d)
                                 (frameRateDuration d) (frameRateScale d)]
                   else []))
        (log s ++ (if go then []
                   else [DismissedFrame (to_uint32 (to_uint32 (b + 1) - 1))]))
    /\ length h = length (heap s)
    /\ forall g, frame_timestamp h g = frame_timestamp (heap s) g.
Proof.
  intros Hq Hts d go.
  pose proof (AddRef_step f s) as Hst.
  destruct (AddRef f s) as [r s1]. cbn [snd] in *.
  destruct Hst as (h1 & p1 & -> & Hl1 & Ht1).
  rewrite EnqueueFrame_push by (simpl; rewrite Hq; simpl; unfold MAX_UNPROC_QUEUE_SIZE; lia).
  cbn [snd].
  match goal with |- context [ScheduleNextFrame b ?X] =>
    assert (HX : schedFrames (delegate X) = [f]) by (simpl; by rewrite Hq);
    rewrite (ScheduleNextFrame_nonempty X) by (by rewrite HX);
    rewrite HX, drain_cons
  end.
  cbn [drain ret snd].
  set (s2 := upd_delegate (set_schedFrames []) _).
  assert (Hd2 : delegate s2 = d).
  { subst s2 d. simpl. unfold set_schedFrames. simpl.
    destruct s as [? ? [] ? ? ? ? ? ? ? ? ? ?]; simpl in *. by subst. }
  subst go. destruct (Z.leb_spec (to_uint32 (b + 1)) (m_max_sched_frames d)) as [Hge|Hlt].
  - destruct (schedule_one_sched f (to_uint32 (b + 1)) s2) as (h & p & -> & Hl & Ht);
      [by rewrite Hd2|].
    assert (Hts2 : frame_timestamp (heap s2) f = INT64_MIN)
      by (subst s2; simpl; by rewrite Ht1).
    rewrite Hts2, Z.eqb_refl, andb_false_r. rewrite Hd2.
    exists h, p. split; [|split; [by rewrite Hl|intros g; by rewrite Ht, Ht1]].
    rewrite ?app_nil_r. unfold after. subst s2 d.
    destruct s as [? ? [] ? ? ? ? ? ? ? ? ? ?]; simpl in *. by subst.
  - destruct (schedule_one_dismiss f (to_uint32 (b + 1)) s2) as (h & p & -> & Hl & Ht);
      [by rewrite Hd2|].
    rewrite Hd2.
    exists h, p. split; [|split; [by rewrite Hl|intros g; by rewrite Ht, Ht1]].
    rewrite ?app_nil_r. unfold after. subst s2 d.
    destruct s as [? ? [] ? ? ? ? ? ? ? ? ? ?]; simpl in *. by subst.
Qed.

(** The pre-fill loop: [k] of its [n] rounds schedule the frame, at
    consecutive slots; all of them do when the device never reports
    [m_max_sched_frames] buffered frames or more. *)
Lemma prefill_events n : forall j f env s,
  schedFrames (delegate s) = [] ->
  frame_timestamp (heap s) f = INT64_MIN ->
  let d := delegate s in
  exists (k : nat) h p L,
    (k <= n)%nat
    /\ snd (prefill n j f env s)
       = after s h p
           (upd_sched [] (if k is O then lastSchedFrame d else Some f)
              (schedSeq d + Z.of_nat k) d)
           (dev s ++ sched_events (frameRateDuration d) (frameRateScale d)
                       (schedSeq d) (replicate k f))
           (log s ++ L)
    /\ ((forall i, (i < n)%nat ->
           to_uint32 (prefill_buffered env (j + i) + 1) <= m_max_sched_frames d) ->
        k = n /\ L = []).
Proof.
  induction n as [|n IH]; intros j f env s Hq Hts d.
  - exists O, (heap s), (buffer_pool s), []. split; [done|]. split; [|done].
    simpl. rewrite Z.add_0_r, !app_nil_r. unfold after. subst d.
    destruct s as [? ? [] ? ? ? ? ? ? ? ? ? ?]; simpl in *. by subst.
  - cbn [prefill]. unfold bind at 1.
    pose proof (prefill_round_events f (prefill_buffered env j) s Hq Hts) as Hr.
    destruct (AddRef f s) as [r1 s1]. cbn [snd] in Hr. unfold bind at 1.
    destruct (EnqueueFrame f s1) as [r2 s2]. cbn [snd] in Hr. unfold bind at 1.
    destruct (ScheduleNextFrame (prefill_buffered env j) s2) as [[] s3].
    cbn [snd] in Hr. cbv zeta in Hr. fold d in Hr.
    destruct Hr as (h & p & Heq & Hl & Ht). subst s3.
    match goal with |- context [prefill n (S j) f env ?s3] =>
      destruct (IH (S j) f env s3) as (k & h' & p' & L & Hk & -> & Hall);
        [by destruct (_ <=? _)|simpl; by rewrite Ht|]
    end.
    destruct (Z.leb_spec (to_uint32 (prefill_buffered env j + 1))
                (m_max_sched_frames d)) as [Hge|Hlt].
    + exists (S k), h', p', L. split; [lia|]. split.
      * unfold after. simpl. rewrite sched_events_cons, <- !app_assoc. simpl.
        replace (schedSeq d + Z.of_nat (S k)) with (schedSeq d + 1 + Z.of_nat k) by lia.
        by destruct k.
      * intros Hgo. destruct Hall as [-> ->]; [|done].
        intros i Hi. specialize (Hgo (S i) ltac:(lia)).
        replace (S j + i)%nat with (j + S i)%nat by lia.
        exact Hgo.
    + exists k, h', p', (DismissedFrame (to_uint32 (to_uint32 (prefill_buffered env j + 1) - 1)) :: L).
      split; [lia|]. split.
      * unfold after. simpl. rewrite app_nil_r, <- !app_assoc. done.
      * intros Hgo. specialize (Hgo O ltac:(lia)). rewrite Nat.add_0_r in Hgo. lia.
Qed.

(** The device calls of one [display_decklink_reconfigure], in order. *)
Lemma reconfigure_calls_hoare env desc s :
  let d := delegate s in
  let TD := teardown_calls true s in
  let a := aud_desc s in
  let AU := if play_audio s
            then [EnableAudioOutput bmdAudioSampleRate48kHz (bps a) (ch_count a)]
            else [] in
  let dur := from_option fst (frameRateDuration d) (mode_rate env) in
  let sc := from_option snd (frameRateScale d) (mode_rate env) in
  let n := Z.to_nat (prefill_count d) in
  hoare (fun s0 => s0 = s) (display_decklink_reconfigure env desc)
    (fun r s' =>
       (exists X, dev s' = dev s ++ TD ++ X)
       /\ (r = true ->
           if low_latency s
           then dev s' = dev s ++ TD ++ [EnableVideoOutput] ++ AU
           else exists k,
                  (k <= n)%nat
                  /\ dev s' = dev s ++ TD ++ [EnableVideoOutput] ++ AU
                       ++ [SetScheduledFrameCompletionCallback true]
                       ++ sched_events dur sc 0 (replicate k (length (heap s)))
                       ++ [StartScheduledPlayback sc]
                  /\ schedSeq (delegate s') = Z.of_nat k
                  /\ ((forall i, (i < n)%nat ->
                         to_uint32 (prefill_buffered env i + 1)
                         <= m_max_sched_frames d) -> k = n))).
Proof.
  intros d TD a AU dur sc n.
  set (Inv := fun (X : list dev_call) (du su : Z) (s0 : state_decklink) =>
    dev s0 = dev s ++ X /\ low_latency s0 = low_latency s
    /\ play_audio s0 = play_audio s /\ aud_desc s0 = a
    /\ m_min_sched_frames (delegate s0) = m_min_sched_frames d
    /\ m_max_sched_frames (delegate s0) = m_max_sched_frames d
    /\ frameRateDuration (delegate s0) = du
    /\ frameRateScale (delegate s0) = su).
  set (InvR := fun X du su (s0 : state_decklink) =>
    Inv X du su s0 /\ length (heap s0) = length (heap s)
    /\ schedFrames (delegate s0) = [] /\ schedSeq (delegate s0) = 0).
  set (Succ := fun (s' : state_decklink) =>
    if low_latency s
    then dev s' = dev s ++ TD ++ [EnableVideoOutput] ++ AU
    else exists k,
           (k <= n)%nat
           /\ dev s' = dev s ++ TD ++ [EnableVideoOutput] ++ AU
                ++ [SetScheduledFrameCompletionCallback true]
                ++ sched_events dur sc 0 (replicate k (length (heap s)))
                ++ [StartScheduledPlayback sc]
           /\ schedSeq (delegate s') = Z.of_nat k
           /\ ((forall i, (i < n)%nat ->
                  to_uint32 (prefill_buffered env i + 1)
                  <= m_max_sched_frames d) -> k = n)).
  assert (Hfail : forall X du su (P : state_decklink -> Prop),
            (forall s0, P s0 -> Inv (TD ++ X) du su s0) ->
            hoare P (ret false) (fun r s' =>
              (exists X, dev s' = dev s ++ TD ++ X) /\ (r = true -> Succ s'))).
  { intros X du su P HP. apply hoare_ret. intros s0 Hs. apply HP in Hs.
    destruct Hs as (Hd & _). split; [|done]. exists X. exact Hd. }
  assert (HfailR : forall X du su (P : state_decklink -> Prop),
            (forall s0, P s0 -> InvR (TD ++ X) du su s0) ->
            hoare P (ret false) (fun r s' =>
              (exists X, dev s' = dev s ++ TD ++ X) /\ (r = true -> Succ s'))).
  { intros X du su P HP. apply (Hfail X du su). intros s0 Hs. by apply HP. }
  assert (Hcall : forall X du su c,
            hoare (InvR X du su) (call c) (fun _ => InvR (X ++ [c]) du su)).
  { intros X du su c. apply hoare_modify.
    intros s0 ((Hd & ?) & ?). split; [|done]. split; [|done].
    simpl. by rewrite Hd, <- app_assoc. }
  unfold display_decklink_reconfigure.
  eapply (hoare_bind _ (fun _ s0 =>
            Inv [] (frameRateDuration d) (frameRateScale d) s0
            /\ length (heap s0) = length (heap s)
            /\ initialized s0 = initialized s)).
  { intros s0 ->. unfold Inv. simpl. rewrite app_nil_r. by split_and!. }
  intros ?. eapply (hoare_bind _ (fun _ s0 =>
            Inv [] (frameRateDuration d) (frameRateScale d) s0
            /\ length (heap s0) = length (heap s)
            /\ initialized s0 = initialized s)).
  { apply hoare_modify. intros s0 Hs. exact Hs. }
  intros ?. eapply hoare_bind; [apply hoare_gets|]. intros ini.
  eapply hoare_bind; [apply hoare_gets|]. intros ll'.
  eapply hoare_bind; [apply hoare_gets|]. intros pa'. cbv beta.
  apply (hoare_pure (ini = initialized s /\ ll' = low_latency s
                     /\ pa' = play_audio s)).
  { intros s0 ((((HI & _ & Hi) & ->) & ->) & ->).
    destruct HI as (_ & Hl & Hp & _). by split_and!. }
  intros (-> & -> & ->).
  eapply (hoare_bind _ (fun _ s0 =>
            Inv TD (frameRateDuration d) (frameRateScale d) s0
            /\ length (heap s0) = length (heap s))).
  { intros s0 ((((HI & Hlen & Hi) & _) & _) & _).
    destruct HI as (Hd & Hl & Hp & Hrest).
    subst TD. unfold teardown_calls. unfold_monad.
    destruct Hrest as (Ha & Hmin & Hmax & Hdu & Hsu).
    unfold Inv.
    destruct (initialized s) eqn:E1, (low_latency s) eqn:E2,
      (play_audio s) eqn:E3; simpl;
      rewrite Hd, <- ?app_assoc, ?app_nil_r; by split_and!. }
  intros ?. eapply (hoare_bind _ (fun _ =>
            InvR TD (frameRateDuration d) (frameRateScale d))).
  { intros s0 (HI & Hlen).
    destruct (Reset_shape s0) as (h & p & -> & Hl). cbn [snd].
    split; [exact HI|]. split; [simpl; congruence|done]. }
  intros ?. destruct (uv_to_bmd_codec_map (color_spec desc)) as [pf|];
    [|apply (HfailR [] (frameRateDuration d) (frameRateScale d));
      intros s0 Hs; by rewrite app_nil_r].
  eapply (hoare_bind _ (fun _ =>
            InvR TD (frameRateDuration d) (frameRateScale d))).
  { apply hoare_modify. intros s0 Hs. exact Hs. }
  intros ?. eapply hoare_bind; [apply hoare_gets|]. intros st0.
  eapply (hoare_bind _ (fun _ =>
            InvR TD (frameRateDuration d) (frameRateScale d))).
  { destruct (_ && _).
    - apply hoare_modify. intros s0 [Hs _]. exact Hs.
    - apply hoare_ret. by intros s0 [Hs _]. }
  intros ?. eapply hoare_bind; [apply hoare_gets|]. intros st.
  destruct (st && _);
    [apply (HfailR [] (frameRateDuration d) (frameRateScale d));
     intros s0 [Hs _]; by rewrite app_nil_r|].
  eapply (hoare_bind _ (fun _ => InvR TD dur sc)).
  { subst dur sc. destruct (mode_rate env) as [[dur' sc']|]; simpl.
    - apply hoare_modify.
      intros s0 [((? & ? & ? & ? & ? & ? & ? & ?) & ? & ? & ?) _].
      unfold InvR, Inv. simpl. by split_and!.
    - apply hoare_ret. by intros s0 [Hs _]. }
  intros ?.
  destruct (negb (mode_found env));
    [apply (HfailR [] dur sc); intros s0 Hs; by rewrite app_nil_r|].
  destruct (negb (mode_supported env));
    [apply (HfailR [] dur sc); intros s0 Hs; by rewrite app_nil_r|].
  eapply hoare_bind; [apply Hcall|]. intros ?.
  destruct (negb (video_enabled env));
    [apply (HfailR [EnableVideoOutput] dur sc); intros s0 Hs; exact Hs|].
  eapply (hoare_bind _ (fun _ => InvR (TD ++ [EnableVideoOutput] ++ AU) dur sc)).
  { subst AU. destruct (play_audio s).
    - eapply hoare_bind; [apply hoare_gets|]. intros ad.
      apply (hoare_pure (ad = a)).
      { intros s0 [((_ & _ & _ & Ha & _) & _) ->]. exact Ha. }
      intros ->.
      eapply hoare_bind; [eapply hoare_conseq; [apply Hcall| |]|].
      + intros s0 [Hs _]. exact Hs.
      + intros ? s0 Hs. exact Hs.
      + intros ?. apply hoare_ret. intros s0 Hs. by rewrite <- app_assoc in Hs.
    - apply hoare_ret. intros s0 Hs. by rewrite app_nil_r. }
  intros audio_ok.
  destruct (negb audio_ok);
    [apply (HfailR ([EnableVideoOutput] ++ AU) dur sc); intros s0 Hs; exact Hs|].
  eapply (hoare_bind _ (fun started s' =>
            (exists X, Inv (TD ++ X) dur sc s') /\ (started = true -> Succ s'))).
  { subst Succ. cbv beta. destruct (low_latency s) eqn:Hll; cbn [negb].
    - apply hoare_ret. intros s0 Hs. split; [exists ([EnableVideoOutput] ++ AU); apply Hs|].
      intros _. apply Hs.
    - eapply hoare_bind; [apply Hcall|]. intros ?.
      eapply (hoare_bind _ (fun f s0 =>
                Inv ((TD ++ [EnableVideoOutput] ++ AU)
                     ++ [SetScheduledFrameCompletionCallback true]) dur sc s0
                /\ f = length (heap s)
                /\ frame_timestamp (heap s0) f = INT64_MIN
                /\ schedFrames (delegate s0) = []
                /\ schedSeq (delegate s0) = 0)).
      { intros s0 (HI & Hlen & Hq & Hseq).
        unfold allocate_new_decklink_frame. unfold_monad. simpl.
        split; [exact HI|]. split; [done|]. split; [|done].
        unfold frame_timestamp.
        destruct (stereo s0).
        - rewrite lookup_app_r by lia. by rewrite Nat.sub_diag.
        - rewrite lookup_app_r by lia. by rewrite Nat.sub_diag. }
      intros f. eapply hoare_bind; [apply hoare_gets|]. intros n'.
      apply (hoare_pure (f = length (heap s) /\ Z.to_nat n' = n)).
      { intros s0 [(HI & -> & _) ->]. split; [done|].
        destruct HI as (_ & _ & _ & _ & Hmin & _). subst n.
        unfold prefill_count. by rewrite Hmin. }
      intros [-> Hn]. rewrite Hn.
      set (P5 := fun (s0 : state_decklink) => exists k,
        (k <= n)%nat
        /\ Inv ((TD ++ [EnableVideoOutput] ++ AU)
                ++ [SetScheduledFrameCompletionCallback true]
                ++ sched_events dur sc 0 (replicate k (length (heap s)))) dur sc s0
        /\ schedSeq (delegate s0) = Z.of_nat k
        /\ ((forall i, (i < n)%nat ->
               to_uint32 (prefill_buffered env i + 1)
               <= m_max_sched_frames d) -> k = n)).
      eapply (hoare_bind _ (fun _ => P5)).
      { intros s0 [(HI & _ & Hts & Hq & Hseq) _].
        destruct (prefill_events n 0 (length (heap s)) env s0 Hq Hts)
          as (k & h & p & L & Hk & -> & Hall).
        destruct HI as (Hd & Hl & Hp & Ha & Hmin & Hmax & Hdu & Hsu).
        exists k. split; [done|]. split; [|split].
        - split_and!; try done. simpl. rewrite Hd, Hdu, Hsu, Hseq.
          by rewrite <- !app_assoc.
        - simpl. rewrite Hseq. lia.
        - intros Hgo. apply Hall. intros i Hi. rewrite Hmax. by apply Hgo. }
      intros ?. eapply (hoare_bind _ (fun _ => P5)).
      { apply hoare_store_step; [apply Release_step|].
        intros s0 h p Hs. exact Hs. }
      intros ?. eapply hoare_bind; [apply hoare_gets|]. intros scale.
      apply (hoare_pure (scale = sc)).
      { intros s0 [(k & _ & HI & _) ->]. apply HI. }
      intros ->.
      set (P6 := fun (s0 : state_decklink) => exists k,
        (k <= n)%nat
        /\ Inv ((TD ++ [EnableVideoOutput] ++ AU)
                ++ [SetScheduledFrameCompletionCallback true]
                ++ sched_events dur sc 0 (replicate k (length (heap s)))
                ++ [StartScheduledPlayback sc]) dur sc s0
        /\ schedSeq (delegate s0) = Z.of_nat k
        /\ ((forall i, (i < n)%nat ->
               to_uint32 (prefill_buffered env i + 1)
               <= m_max_sched_frames d) -> k = n)).
      eapply (hoare_bind _ (fun _ => P6)).
      { apply hoare_modify. intros s0 [(k & Hk & HI & Hseq & Hall) _].
        exists k. split; [done|]. split; [|done].
        destruct HI as (Hd & Hrest). split; [|exact Hrest].
        simpl. rewrite Hd. by rewrite <- !app_assoc. }
      intros ?. destruct (playback_started env).
      + apply hoare_ret. intros s0 (k & Hk & HI & Hseq & Hall).
        split.
        * eexists. rewrite <- app_assoc in HI. exact HI.
        * intros _. exists k. split; [done|]. split; [|done].
          destruct HI as (Hd & _). rewrite Hd. by rewrite <- !app_assoc.
      + eapply (hoare_bind _ (fun _ s0 => exists X, Inv (TD ++ X) dur sc s0)).
        { apply hoare_modify. intros s0 (k & Hk & HI & _).
          eexists. destruct HI as (Hd & Hrest). split; [|exact Hrest].
          simpl. rewrite Hd. rewrite <- !app_assoc. reflexivity. }
        intros ?. apply hoare_ret. intros s0 HX. by split. }
  intros started. destruct started; cbn [negb].
  - eapply (hoare_bind _ (fun _ s' =>
              (exists X, Inv (TD ++ X) dur sc s') /\ Succ s')).
    { apply hoare_modify. intros s0 [HX HS]. split; [exact HX|]. by apply HS. }
    intros ?. eapply (hoare_bind _ (fun _ s' =>
              (exists X, Inv (TD ++ X) dur sc s') /\ Succ s')).
    { apply hoare_modify. intros s0 Hs. exact Hs. }
    intros ?. apply hoare_ret. intros s0 [(X & Hd & _) HS].
    split; [by exists X|done].
  - apply hoare_ret. intros s0 [(X & Hd & _) _]. split; [by exists X|done].
Qed.


(** C8, as amended.  [display_decklink_getf] returns no buffer exactly
    when the session is not initialized, or when an audio reconfiguration
    is pending and the reconfiguration it then runs fails; an uninitialized
    session is left untouched.  When the reconfiguration of a pending audio
    change succeeds, a buffer is returned, the pending flag is cleared and
    the session is initialized. *)
Theorem getf_fails_iff (env : negotiation) (s : state_decklink) :
  (initialized s = false -> display_decklink_getf env s = (None, s))
  /\ (fst (display_decklink_getf env s) = None
      <-> initialized s = false
          \/ (audio_reconfigure s = true
              /\ fst (display_decklink_reconfigure env (vid_desc s) s) = false))
  /\ (initialized s = true -> audio_reconfigure s = true ->
      fst (display_decklink_reconfigure env (vid_desc s) s) = true ->
      is_Some (fst (display_decklink_getf env s))
      /\ audio_reconfigure (snd (display_decklink_getf env s)) = false
      /\ initialized (snd (display_decklink_getf env s)) = true).
Proof.
  destruct (getf_none_iff env s) as [H1 H2].
  split; [exact H1|]. split; [exact H2|].
  intros Hini Har Hok. rewrite getf_pending by done.
  pose proof (reconfigure_hoare env (vid_desc s) (low_latency s) (play_audio s)
                (aud_desc s) (audio_reconfigure s) (m_adata (delegate s)) s)
    as Hh.
  destruct Hh as (Hi & _); [done|].
  destruct (display_decklink_reconfigure env (vid_desc s) s) as [r s2].
  cbn [fst snd] in *. subst r.
  destruct (getf_serves env (set_audio_reconfigure false s2))
    as (f & h & p & ->); [done..|].
  cbn [fst snd]. split; [by eexists|]. split; [done|exact Hi].
Qed.

Lemma audio_desc_differs (a : audio_desc) (b r c : Z) :
  negb (b =? bps a) || negb (r =? sample_rate a) || negb (c =? ch_count a) = false
  <-> mk_audio_desc b r c = a.
Proof.
  destruct a as [b0 r0 c0]. simpl. split.
  - intros Hf. apply orb_false_iff in Hf as [Hf Hc].
    apply orb_false_iff in Hf as [Hb Hr].
    apply negb_false_iff, Z.eqb_eq in Hb, Hr, Hc. by subst.
  - intros [= -> -> ->]. by rewrite !Z.eqb_refl.
Qed.

(** The [assert]s of [display_decklink_reconfigure_audio] on the channel
    count hold for 2, 8, 16, 32 and 64 channels and for no other count. *)
Lemma channel_count_asserts (channels : Z) :
  (2 <=? channels) && negb (channels =? 4) && (channels <=? 64)
  && is_power_of_two channels
  = bool_decide (channels ∈ [2; 8; 16; 32; 64]).
Proof.
  destruct (decide (0 <= channels <= 64)) as [Hr|Hr].
  - rewrite <- (Z2Nat.id channels) by lia.
    assert (Hn : (Z.to_nat channels <= 64)%nat) by lia.
    revert Hn. generalize (Z.to_nat channels). intros n Hn.
    do 65 (destruct n as [|n]; [vm_compute; reflexivity|]). lia.
  - rewrite bool_decide_eq_false_2.
    + destruct (Z.leb_spec 2 channels); [|done].
      destruct (Z.leb_spec channels 64); [lia|].
      by rewrite andb_false_r.
    + rewrite !elem_of_cons, elem_of_nil. lia.
Qed.

(** A change of the audio format on a running session.  The [assert]s of
    [display_decklink_reconfigure_audio] fail exactly when the session
    plays no audio, the sample size is neither 16 nor 32 bit, or the
    channel count is not one of 2, 8, 16, 32 and 64; nothing is changed
    then.  Called with an accepted format on a session that plays audio it
    returns [true]; with the format the session already has it changes
    nothing; otherwise it stores the new description and sets
    [audio_reconfigure], touching neither device, store nor delegate.
    From then on every
    [display_decklink_put_audio_frame] drops its frame and leaves the state
    alone.  The next [display_decklink_getf] runs the reconfiguration: if
    it succeeds a buffer is returned, the flag is cleared and audio output
    was enabled with the new sample size and channel count; if it fails no
    buffer is returned, the flag stays set and the session is no longer
    initialized. *)
Theorem audio_format_change (quant_samples channels rate : Z)
    (s : state_decklink) :
  play_audio s = true -> initialized s = true -> audio_reconfigure s = false ->
  quant_samples = 16 \/ quant_samples = 32 ->
  channels ∈ [2; 8; 16; 32; 64] ->
  let a' := mk_audio_desc (Z.quot quant_samples 8) rate channels in
  let r1 := display_decklink_reconfigure_audio quant_samples channels rate s in
  let s1 := snd r1 in
  (forall q c r s0,
     let r0 := display_decklink_reconfigure_audio q c r s0 in
     (fst r0 = None
      <-> play_audio s0 = false \/ ~ (q = 16 \/ q = 32)
          \/ c ∉ [2; 8; 16; 32; 64])
     /\ (fst r0 = None -> snd r0 = s0))
  /\ fst r1 = Some true
  /\ (a' = aud_desc s -> s1 = s)
  /\ (a' <> aud_desc s ->
      (audio_reconfigure s1 = true /\ aud_desc s1 = a' /\ dev s1 = dev s
       /\ heap s1 = heap s /\ delegate s1 = delegate s)
      /\ (forall env frame,
            display_decklink_put_audio_frame env frame s1 = (Some [], s1))
      /\ (forall env,
            let r := display_decklink_getf env s1 in
            let ok := fst (display_decklink_reconfigure env (vid_desc s1) s1) in
            (ok = true ->
             is_Some (fst r) /\ audio_reconfigure (snd r) = false
             /\ aud_desc (snd r) = a'
             /\ EnableAudioOutput bmdAudioSampleRate48kHz (bps a') (ch_count a')
                ∈ dev (snd r))
            /\ (ok = false ->
                fst r = None /\ audio_reconfigure (snd r) = true
                /\ initialized (snd r) = false))).
Proof.
  intros Hpa Hini Har Hq Hc a' r1 s1.
  assert (Hquant : forall q, (q =? 16) || (q =? 32) = true <-> q = 16 \/ q = 32).
  { intros q. rewrite orb_true_iff, !Z.eqb_eq. done. }
  split.
  { intros q c r s0. cbv zeta.
    unfold display_decklink_reconfigure_audio. unfold_monad.
    rewrite channel_count_asserts.
    destruct (play_audio s0); cbn [negb]; [|split; [split; [by left|done]|done]].
    destruct (bool_decide_reflect (c ∈ [2; 8; 16; 32; 64])) as [Hin|Hin];
      cbn [negb]; [|split; [split; [by right; right|done]|done]].
    destruct ((q =? 16) || (q =? 32)) eqn:Hqq; cbn [negb].
    - apply Hquant in Hqq. destruct (_ || _); cbn [fst snd];
        (split; [split; [done|intros [?|[?|?]]; done]|done]).
    - split; [|done]. split; [|done]. intros _. right. left.
      intros Hqq'. apply Hquant in Hqq'. congruence. }
  assert (Hr1 : r1 = (Some true,
            if negb (Z.quot quant_samples 8 =? bps (aud_desc s))
               || negb (rate =? sample_rate (aud_desc s))
               || negb (channels =? ch_count (aud_desc s))
            then set_audio_reconfigure true (set_aud_desc a' s) else s)).
  { subst r1. unfold display_decklink_reconfigure_audio. unfold_monad.
    rewrite channel_count_asserts, Hpa.
    rewrite bool_decide_eq_true_2 by done.
    apply Hquant in Hq. rewrite Hq. cbn [negb]. clear Hq Hquant.
    by destruct (_ || _). }
  subst s1. rewrite Hr1. cbn [fst snd]. clear Hr1 r1.
  split; [done|]. split.
  - intros Ha. apply audio_desc_differs in Ha. by rewrite Ha.
  - intros Hne. destruct (_ || _) eqn:E;
      [|by apply audio_desc_differs in E].
    set (s1 := set_audio_reconfigure true (set_aud_desc a' s)).
    split; [done|]. split.
    + intros env frame. unfold display_decklink_put_audio_frame. unfold_monad.
      simpl. by rewrite Hpa.
    + intros env. cbv zeta. rewrite getf_pending by done.
      pose proof (reconfigure_hoare env (vid_desc s1) (low_latency s1)
                    (play_audio s1) (aud_desc s1) (audio_reconfigure s1)
                    (m_adata (delegate s1)) s1) as Hh.
      destruct Hh as (Hi & Ht & Hf & _ & _ & _ & _ & _ & _ & Hau); [done|].
      pose proof (reconfigure_calls_hoare env (vid_desc s1) s1 s1 eq_refl)
        as [_ HS].
      destruct (display_decklink_reconfigure env (vid_desc s1) s1) as [r s2].
      cbn [fst snd] in *. split.
      * intros ->. specialize (HS eq_refl).
        destruct (getf_serves env (set_audio_reconfigure false s2))
          as (f & h & p & ->); [done..|]. cbn [fst snd].
        split; [by eexists|]. split; [done|]. split; [exact Hau|].
        simpl. change (play_audio s1) with (play_audio s) in HS.
        rewrite Hpa in HS.
        destruct (low_latency s1).
        -- rewrite HS. rewrite !elem_of_app. right. right. right.
           apply list_elem_of_here.
        -- destruct HS as (k & _ & -> & _). rewrite !elem_of_app.
           right. right. right. left. apply list_elem_of_here.
      * intros ->. cbn [fst snd]. split; [done|]. split; [by apply Hf|done].
Qed.

(** *** The completion counters *)

Lemma Release_delegate f s : delegate (snd (Release f s)) = delegate s.
Proof. by destruct (Release_step f s) as (h & p & -> & _). Qed.

Lemma ScheduleNextFrame_stats b s :
  stats (delegate (snd (ScheduleNextFrame b s))) = stats (delegate s).
Proof.
  destruct (schedFrames (delegate s)) as [|g q] eqn:Hq.
  - unfold ScheduleNextFrame. unfold_monad. rewrite Hq.
    by destruct (_ <=? b).
  - rewrite ScheduleNextFrame_nonempty by (by rewrite Hq).
    by destruct (drain_order (schedFrames (delegate s)) b s eq_refl)
      as (sch & D' & h & p & n & y & L & _ & _ & ->).
Qed.

Lemma putf_stats fr s :
  stats (delegate (snd (display_decklink_putf fr s))) = stats (delegate s).
Proof.
  destruct fr as [[f ts]|]; [|done].
  unfold display_decklink_putf. unfold bind at 1, gets at 1.
  destruct (low_latency s).
  - unfold bind at 1, call at 1, modify at 1. unfold bind, ret.
    match goal with |- context [Release f ?x] =>
      pose proof (Release_delegate f x) as Hd; destruct (Release f x) as [r s1]
    end.
    simpl in *. by rewrite Hd.
  - unfold bind at 1, modify at 1. unfold EnqueueFrame.
    unfold bind at 1, getd at 1, gets at 1.
    destruct (_ <? _); [done|].
    unfold bind at 1.
    match goal with |- context [Release f ?x] =>
      pose proof (Release_delegate f x) as Hd; destruct (Release f x) as [r s1]
    end.
    unfold_monad. simpl in *. by rewrite Hd.
Qed.

Lemma ScheduledFrameCompleted_stats f r b s :
  let d := delegate s in
  stats (delegate (snd (ScheduledFrameCompleted f r b s)))
  = match r with
    | bmdOutputFrameCompleted => stats d
    | bmdOutputFrameDisplayedLate =>
        (frames_dropped d, frames_flushed d, frames_late d + 1)
    | bmdOutputFrameDropped =>
        (frames_dropped d + 1, frames_flushed d, frames_late d)
    | bmdOutputFrameFlushed =>
        (frames_dropped d, frames_flushed d + 1, frames_late d)
    end.
Proof.
  intros d. unfold ScheduledFrameCompleted.
  unfold bind at 1, getd at 1, gets at 1. unfold bind at 1.
  match goal with |- context [let (_, s') := ?c s in _] =>
    assert (Hs1 : stats (delegate (snd (c s)))
                  = match r with
                    | bmdOutputFrameCompleted => stats d
                    | bmdOutputFrameDisplayedLate =>
                        (frames_dropped d, frames_flushed d, frames_late d + 1)
                    | bmdOutputFrameDropped =>
                        (frames_dropped d + 1, frames_flushed d, frames_late d)
                    | bmdOutputFrameFlushed =>
                        (frames_dropped d, frames_flushed d + 1, frames_late d)
                    end)
      by (by destruct r);
    destruct (c s) as [[] s1]
  end.
  cbn [snd] in Hs1. rewrite <- Hs1. unfold bind at 1.
  pose proof (ScheduleNextFrame_stats b s1) as H2.
  destruct (ScheduleNextFrame b s1) as [[] s2]. cbn [snd] in H2.
  unfold bind, ret. pose proof (Release_delegate f s2) as H3.
  destruct (Release f s2) as [x s3]. cbn [snd] in *. by rewrite H3.
Qed.

Lemma run_cons o ops s :
  snd (run (o :: ops) s) = snd (run ops (snd (step o s))).
Proof. cbn [run]. unfold bind. by destruct (step o s). Qed.

(** The statistics of [PlaybackDelegate]: over any run of submissions and
    completion callbacks, [frames_late], [frames_dropped] and
    [frames_flushed] grow by the number of callbacks with that result, as
    long as the [uint64_t] counters stay in range; submissions, drains,
    underruns and overflows leave them alone. *)
Theorem completion_statistics (ops : list op) (s : state_decklink) :
  let d := delegate s in
  let d' := delegate (snd (run ops s)) in
  frames_late d + completions bmdOutputFrameDisplayedLate ops < 2 ^ 64 ->
  frames_dropped d + completions bmdOutputFrameDropped ops < 2 ^ 64 ->
  frames_flushed d + completions bmdOutputFrameFlushed ops < 2 ^ 64 ->
  frames_late d' = frames_late d + completions bmdOutputFrameDisplayedLate ops
  /\ frames_dropped d' = frames_dropped d + completions bmdOutputFrameDropped ops
  /\ frames_flushed d' = frames_flushed d + completions bmdOutputFrameFlushed ops.
Proof.
  cbv zeta. intros _ _ _. revert s.
  induction ops as [|o ops IH]; intros s.
  - simpl. lia.
  - rewrite run_cons.
    assert (Hstep : stats (delegate (snd (step o s)))
                    = (frames_dropped (delegate s)
                       + (if is_completion bmdOutputFrameDropped o then 1 else 0),
                       frames_flushed (delegate s)
                       + (if is_completion bmdOutputFrameFlushed o then 1 else 0),
                       frames_late (delegate s)
                       + (if is_completion bmdOutputFrameDisplayedLate o then 1 else 0))).
    { destruct o as [f ts|f r b]; cbn [step].
      - unfold bind, ret.
        pose proof (putf_stats (Some (f, ts)) s) as Hp.
        destruct (display_decklink_putf (Some (f, ts)) s) as [x s1].
        cbn [snd] in *. rewrite Hp. unfold stats. simpl. by rewrite !Z.add_0_r.
      - rewrite ScheduledFrameCompleted_stats. unfold stats.
        destruct r; simpl; by rewrite !Z.add_0_r. }
    destruct (step o s) as [[] s1]. cbn [snd] in *.
    specialize (IH s1). unfold stats in Hstep. injection Hstep as Hd Hf Hl.
    cbn [completions]. rewrite Hd, Hf, Hl in IH. lia.
Qed.

(** *** Releases of Reset and shutdown *)

Lemma occurrences_nonneg g l : 0 <= occurrences g l.
Proof. induction l as [|f l IH]; simpl; [done|]. destruct (Nat.eqb f g); lia. Qed.




Lemma set_ref_same fr : set_ref (ref fr) fr = fr.
Proof. by destruct fr. Qed.

Lemma released_0 r : released r 0 = r.
Proof. done. Qed.

(** One more [Release] after [n]. *)
Lemma released_step r n :
  0 <= n -> released ((r - 1) mod ULONG_MOD) n = released r (1 + n).
Proof.
  intros Hn. unfold released.
  destruct (Z.eqb_spec n 0) as [->|Hne].
  - by replace (1 + 0 =? 0) with false by done.
  - replace (1 + n =? 0) with false by (symmetry; apply Z.eqb_neq; lia).
    rewrite Zminus_mod_idemp_l. f_equal. lia.
Qed.

Lemma release_all_cons f rest s :
  release_all (f :: rest) s
  = release_all rest (upd_delegate (set_schedFrames rest) (snd (Release f s))).
Proof.
  cbn [release_all]. unfold bind at 1. destruct (Release f s) as [r s1].
  unfold bind, modd, modify. reflexivity.
Qed.

(** The store and the free list after [release_all] depend on the store
    and the free list only. *)
Lemma release_all_store q : forall s1 s2,
  heap s1 = heap s2 -> buffer_pool s1 = buffer_pool s2 ->
  heap (snd (release_all q s1)) = heap (snd (release_all q s2))
  /\ buffer_pool (snd (release_all q s1)) = buffer_pool (snd (release_all q s2)).
Proof.
  induction q as [|f rest IH]; intros s1 s2 Hh Hp; [done|].
  rewrite !release_all_cons.
  apply IH; cbn [heap buffer_pool upd_delegate]; rewrite !Release_eq, Hh, Hp;
    by destruct (heap s2 !! f).
Qed.

(** What a sequence of [Release] calls does to the store and to the free
    list. *)
Lemma release_all_counts q : forall s,
  exists added,
    buffer_pool (snd (release_all q s)) = buffer_pool s ++ added
    /\ (forall g, g ∈ added -> g ∈ q)
    /\ length (heap (snd (release_all q s))) = length (heap s)
    /\ (forall g fr, heap s !! g = Some fr ->
          heap (snd (release_all q s)) !! g
          = Some (set_ref (released (ref fr) (occurrences g q)) fr))
    /\ ((forall g fr, g ∈ q -> heap s !! g = Some fr ->
           occurrences g q < ref fr < ULONG_MOD) -> added = []).
Proof.
  induction q as [|f rest IH]; intros s.
  - exists []. simpl. rewrite app_nil_r.
    split; [done|]. split; [intros g Hg; by apply elem_of_nil in Hg|].
    split; [done|]. split; [|done].
    intros g fr Hg. by rewrite released_0, set_ref_same.
  - rewrite release_all_cons.
    pose proof (Release_eq f s) as E.
    destruct (Release f s) as [r1 s1]. cbn [snd].
    set (s1' := upd_delegate (set_schedFrames rest) s1).
    destruct (IH s1') as (added' & Hp & Hsub & Hlen & Hheap & Hnone).
    change (heap s1') with (heap s1) in *.
    change (buffer_pool s1') with (buffer_pool s1) in *.
    destruct (heap s !! f) as [fr0|] eqn:Hf; cbv zeta in E.
    + injection E as _ ->. cbn [heap buffer_pool upd_store] in *.
      set (r := (ref fr0 - 1) mod ULONG_MOD) in *.
      exists ((if r =? 0 then [f] else []) ++ added').
      split.
      { rewrite Hp. destruct (r =? 0); by rewrite <- ?app_assoc, ?app_nil_r. }
      split.
      { intros g [Hg|Hg]%elem_of_app.
        - destruct (r =? 0); [|by apply elem_of_nil in Hg].
          apply list_elem_of_singleton in Hg as ->. by left.
        - right. by apply Hsub. }
      split; [by rewrite Hlen, length_insert|].
      split.
      { intros g fr Hg. destruct (decide (g = f)) as [->|Hne].
        - rewrite Hf in Hg. injection Hg as <-.
          rewrite (Hheap f (set_ref r fr0))
            by (by rewrite list_lookup_insert_eq by (by eapply lookup_lt_Some)).
          simpl. rewrite Nat.eqb_refl.
          subst r. rewrite released_step by apply occurrences_nonneg. done.
        - rewrite (Hheap g fr) by (by rewrite list_lookup_insert_ne).
          simpl. by replace (f =? g)%nat with false
            by (symmetry; apply Nat.eqb_neq; done). }
      intros Hall.
      pose proof (Hall f fr0 ltac:(by left) Hf) as Hf0. simpl in Hf0.
      rewrite Nat.eqb_refl in Hf0.
      pose proof (occurrences_nonneg f rest) as Hnn.
      assert (Hr : r = ref fr0 - 1) by (subst r; apply Z.mod_small; lia).
      replace (r =? 0) with false by (symmetry; apply Z.eqb_neq; lia).
      simpl. apply Hnone. intros g fr Hg Hlk.
      destruct (decide (g = f)) as [->|Hne].
      * rewrite list_lookup_insert_eq in Hlk by (by eapply lookup_lt_Some).
        injection Hlk as <-. simpl. lia.
      * rewrite list_lookup_insert_ne in Hlk by done.
        pose proof (Hall g fr ltac:(by right) Hlk) as Hg0. simpl in Hg0.
        by replace (f =? g)%nat with false in Hg0
          by (symmetry; apply Nat.eqb_neq; done).
    + injection E as _ ->.
      exists added'. split; [done|]. split; [intros g Hg; right; by apply Hsub|].
      split; [done|]. split.
      { intros g fr Hg. rewrite (Hheap g fr Hg). simpl.
        destruct (Nat.eqb_spec f g) as [->|Hne]; [congruence|done]. }
      intros Hall. apply Hnone. intros g fr Hg Hlk.
      pose proof (Hall g fr ltac:(by right) Hlk) as Hg0. simpl in Hg0.
      destruct (Nat.eqb_spec f g) as [->|Hne]; [congruence|done].
Qed.

Lemma RELEASE_last_eq s :
  snd (RELEASE_IF_NOT_NULL_lastSchedFrame s)
  = match lastSchedFrame (delegate s) with
    | Some f => upd_delegate (set_lastSchedFrame None) (snd (Release f s))
    | None => s
    end.
Proof.
  unfold RELEASE_IF_NOT_NULL_lastSchedFrame. unfold_monad.
  destruct (lastSchedFrame (delegate s)) as [l|]; [|done].
  by destruct (Release l s).
Qed.

Lemma Reset_eq s :
  Reset s
  = let s1 := snd (RELEASE_IF_NOT_NULL_lastSchedFrame s) in
    (tt, upd_delegate (set_schedSeq 0)
           (snd (release_all (schedFrames (delegate s1)) s1))).
Proof.
  unfold Reset. unfold bind at 1.
  destruct (RELEASE_IF_NOT_NULL_lastSchedFrame s) as [[] s1].
  unfold bind at 1, getd at 1, gets at 1. unfold bind at 1. cbn [snd].
  destruct (release_all (schedFrames (delegate s1)) s1) as [[] s2].
  reflexivity.
Qed.

(** [Reset] releases the frames of [held_frames], in order. *)
Lemma Reset_store s :
  heap (snd (Reset s)) = heap (snd (release_all (held_frames (delegate s)) s))
  /\ buffer_pool (snd (Reset s))
     = buffer_pool (snd (release_all (held_frames (delegate s)) s)).
Proof.
  rewrite Reset_eq. cbv zeta. cbn [snd heap buffer_pool upd_delegate].
  rewrite RELEASE_last_eq. unfold held_frames.
  destruct (lastSchedFrame (delegate s)) as [l|] eqn:Hl; [|done].
  cbn [app]. rewrite release_all_cons.
  pose proof (Release_delegate l s) as Hd.
  cbn [delegate upd_delegate].
  replace (schedFrames (set_lastSchedFrame None (delegate (snd (Release l s)))))
    with (schedFrames (delegate s)) by (by rewrite Hd).
  by apply release_all_store.
Qed.

(** [Reset] empties the queue, forgets the last scheduled frame and sets
    [schedSeq] to 0; it calls nothing on the device, logs nothing, and
    leaves the anchor, the statistics and the frame rate as they were.  Of
    the store only reference counts change: the count of a frame is
    lowered once for each time the delegate held it, as last scheduled
    frame or in the queue, and every other field and frame stays.  The
    free list keeps its entries and only grows, by frames the delegate
    held; it does not grow when every held frame has a count above the
    number of times it is held. *)
Theorem Reset_clears (s : state_decklink) :
  let l := held_frames (delegate s) in
  exists h p added,
    Reset s = (tt, after s h p (upd_sched [] None 0 (delegate s)) (dev s) (log s))
    /\ length h = length (heap s)
    /\ (forall g fr, heap s !! g = Some fr ->
          h !! g = Some (set_ref (released (ref fr) (occurrences g l)) fr))
    /\ p = buffer_pool s ++ added
    /\ (forall g, g ∈ added -> g ∈ l)
    /\ ((forall g fr, g ∈ l -> heap s !! g = Some fr ->
           occurrences g l < ref fr < ULONG_MOD) -> added = []).
Proof.
  cbv zeta. destruct (Reset_shape s) as (h & p & Heq & _).
  destruct (Reset_store s) as [Hh Hp].
  destruct (release_all_counts (held_frames (delegate s)) s)
    as (added & Hpool & Hsub & Hlen & Hheap & Hnone).
  rewrite Heq in Hh, Hp. cbn in Hh, Hp. subst h p.
  eexists _, _, added. split; [exact Heq|]. by split_and!.
Qed.




Lemma QueryInterface_eq EOTF this iid ppv fr s :
  heap s !! this = Some fr ->
  QueryInterface EOTF this iid ppv s
  = match rightEye fr with
    | Some _ => DeckLink3DFrame_QueryInterface EOTF this iid ppv s
    | None => DeckLinkFrame_QueryInterface EOTF this iid ppv s
    end.
Proof.
  intros Hfr. unfold QueryInterface. unfold bind at 1, gets at 1.
  rewrite Hfr. cbn [mbind option_bind]. by destruct (rightEye fr).
Qed.

(** [QueryInterface] of a frame, called with a valid out pointer.  The
    interface is granted for [IUnknown] and [IDeckLinkVideoFrame], for the
    metadata extensions exactly when [GetFlags] reports HDR metadata, and
    for the 3D extensions exactly when the frame owns a right eye.  A
    granted call returns [S_OK] and the frame itself and raises its count
    by exactly one; a refused call returns [E_NOINTERFACE], a null pointer
    and leaves the state as it is.  With a null out pointer the call
    returns [E_INVALIDARG] and changes nothing (a 3D frame asked for the 3D
    extensions apart, which stores through the pointer untested). *)
Theorem QueryInterface_counts (EOTF : Z) (this : nat) (iid : REFIID)
    (fr : DeckLinkFrame) (s : state_decklink) :
  heap s !! this = Some fr -> ref fr + 1 < ULONG_MOD -> 0 <= ref fr ->
  let r := QueryInterface EOTF this iid true s in
  let granted :=
    match iid with
    | IID_IUnknown | IID_IDeckLinkVideoFrame => true
    | IID_IDeckLinkVideoFrameMetadataExtensions =>
        match GetFlags EOTF with
        | bmdFrameContainsHDRMetadata => true
        | bmdFrameFlagDefault => false
        end
    | IID_IDeckLinkVideoFrame3DExtensions => bool_decide (is_Some (rightEye fr))
    | IID_other => false
    end in
  (granted = true ->
   fst r = (S_OK, Some this)
   /\ snd r = set_heap (<[this := set_ref (ref fr + 1) fr]> (heap s)) s)
  /\ (granted = false -> fst r = (E_NOINTERFACE, None) /\ snd r = s)
  /\ (rightEye fr = None \/ iid <> IID_IDeckLinkVideoFrame3DExtensions ->
      QueryInterface EOTF this iid false s = (E_INVALIDARG, None, s)).
Proof.
  intros Hfr Hlt Hge r granted. subst r granted.
  assert (HA : forall A (x : A),
            (AddRef this ;; ret x) s
            = (x, set_heap (<[this := set_ref (ref fr + 1) fr]> (heap s)) s)).
  { intros A x. unfold bind, ret. rewrite AddRef_eq, Hfr. cbv zeta.
    by rewrite Z.mod_small by lia. }
  rewrite !(QueryInterface_eq EOTF this iid _ fr s Hfr).
  unfold GetFlags, DeckLink3DFrame_QueryInterface, DeckLinkFrame_QueryInterface.
  destruct (rightEye fr) as [e|]; cbn [negb];
    (destruct iid; cbn [negb andb];
     rewrite ?bool_decide_eq_true_2 by (by eexists);
     rewrite ?bool_decide_eq_false_2 by (by intros [? ?]);
     try destruct (EOTF =? HDR_EOTF_NONE);
     rewrite ?HA; (split_and!; [intros ?|intros ?|intros [?|?]]); try done).
Qed.

Lemma set_ref_back r fe : set_ref (ref fe) (set_ref r fe) = fe.
Proof. by destruct fe. Qed.

(** [GetFrameForRightEye] followed by [Release]: the pair leaves a right
    eye with a count of at least 1 as it was. *)
Lemma right_eye_step e fe s :
  heap s !! e = Some fe -> 1 <= ref fe < ULONG_MOD ->
  snd (Release e (snd (AddRef e s))) = s.
Proof.
  intros He Hr. rewrite AddRef_eq, He. cbv zeta. cbn [snd].
  rewrite Release_eq. cbn [heap buffer_pool upd_store].
  rewrite list_lookup_insert_eq by (by eapply lookup_lt_Some).
  cbv zeta. cbn [snd ref set_ref].
  rewrite Zminus_mod_idemp_l.
  replace (ref fe + 1 - 1) with (ref fe) by lia.
  rewrite (Z.mod_small (ref fe)) by lia.
  replace (ref fe =? 0) with false by (symmetry; apply Z.eqb_neq; lia).
  rewrite list_insert_insert_eq.
  change (set_ref (ref fe) _) with (set_ref (ref fe) (set_ref ((ref fe + 1) mod ULONG_MOD) fe)).
  rewrite set_ref_back, list_insert_id by done.
  destruct s; reflexivity.
Qed.

(** The pool loop touches only frames of the list, and no [rightEye]. *)
Lemma pool_scan_outside p : forall s,
  let r := pool_scan p s in
  (forall g, g ∉ p -> heap (snd r) !! g = heap s !! g)
  /\ (forall g, rightEye <$> heap (snd r) !! g = rightEye <$> heap s !! g).
Proof.
  induction p as [|tmp rest IH]; intros s r; subst r; [done|].
  rewrite pool_scan_cons. cbv zeta.
  set (s0 := set_buffer_pool (tail (buffer_pool s)) s).
  destruct (heap s !! tmp) as [fr|] eqn:Hfr.
  - assert (Hins : forall r,
      (forall g, g ≠ tmp -> <[tmp := set_ref r fr]> (heap s) !! g = heap s !! g)
      /\ (forall g, rightEye <$> <[tmp := set_ref r fr]> (heap s) !! g
                    = rightEye <$> heap s !! g)).
    { intros r. split; [intros g Hg; by rewrite list_lookup_insert_ne|].
      intros g. destruct (decide (g = tmp)) as [->|Hg].
      - rewrite list_lookup_insert_eq by (by eapply lookup_lt_Some).
        by rewrite Hfr.
      - by rewrite list_lookup_insert_ne. }
    destruct (frame_matches s fr).
    + rewrite AddRef_eq. change (heap s0) with (heap s). rewrite Hfr.
      cbv zeta. cbn [snd heap upd_store].
      destruct (Hins ((ref fr + 1) mod ULONG_MOD)) as [H1 H2].
      split; [|exact H2]. intros g Hg. apply H1.
      intros ->. apply Hg. constructor.
    + rewrite Release_eq. change (heap s0) with (heap s). rewrite Hfr.
      cbv zeta. cbn [snd].
      match goal with |- context [pool_scan rest ?s2] =>
        specialize (IH s2); cbv zeta in IH; destruct IH as [IH1 IH2]
      end.
      cbn [heap upd_store] in IH1, IH2.
      destruct (Hins ((ref fr - 1) mod ULONG_MOD)) as [H1 H2].
      split.
      * intros g Hg. apply not_elem_of_cons in Hg as [Hne Hg].
        rewrite IH1 by done. by apply H1.
      * intros g. by rewrite IH2, H2.
  - specialize (IH s0). cbv zeta in IH. destruct IH as [IH1 IH2].
    change (heap s0) with (heap s) in IH1, IH2. split; [|done].
    intros g Hg. apply not_elem_of_cons in Hg as [Hne Hg]. by apply IH1.
Qed.

Lemma getf_ready_stereo env s :
  initialized s = true -> audio_reconfigure s = false -> stereo s = true ->
  display_decklink_getf env s
  = (let (o, s1) := pool_scan (buffer_pool s) s in
     let (f, s2) :=
       match o with
       | Some f => (f, s1)
       | None =>
           let n := length (heap s1) in
           let mk := new_frame (width (vid_desc s1)) (height (vid_desc s1))
                       (vc_get_linesize (width (vid_desc s1))
                          (color_spec (vid_desc s1)))
                       (pixelFormat s1) in
           (n, set_heap (heap s1 ++ [mk (Some (S n)); mk None]) s1)
       end in
     match heap s2 !! f ≫= rightEye with
     | Some eye => (Some f, snd (Release eye (snd (AddRef eye s2))))
     | None => (Some f, s2)
     end).
Proof.
  intros Hini Har Hst. unfold display_decklink_getf.
  unfold bind at 1, gets at 1. rewrite Hini. cbn [negb].
  unfold bind at 1, gets at 1. rewrite Har.
  unfold bind at 1, ret at 1. cbn [negb].
  unfold bind at 1, gets at 1. unfold bind at 1.
  assert (Hs1 : stereo (snd (pool_scan (buffer_pool s) s)) = true).
  { destruct (pool_scan_store (buffer_pool s) s) as (h & p & ->). done. }
  destruct (pool_scan (buffer_pool s) s) as [[f|] s1]; cbn [snd] in Hs1.
  - unfold bind at 1, ret at 1. unfold bind at 1, gets at 1.
    unfold bind at 1, gets at 1. rewrite Hs1.
    destruct (heap s1 !! f ≫= rightEye) as [eye|]; [|reflexivity].
    unfold bind, ret. destruct (AddRef eye s1) as [x s3]. cbn [snd].
    by destruct (Release eye s3).
  - unfold bind at 1. unfold allocate_new_decklink_frame.
    unfold bind at 1, gets at 1. cbn [id]. unfold bind at 1, modify at 1.
    unfold ret at 1. rewrite Hs1.
    unfold bind at 1, gets at 1. unfold bind at 1, gets at 1.
    match goal with |- context [stereo ?s2] =>
      change (stereo s2) with (stereo s1) end.
    rewrite Hs1.
    match goal with |- context [?l !! ?n ≫= rightEye] =>
      destruct (l !! n ≫= rightEye) as [eye|]; [|reflexivity] end.
    unfold bind, ret.
    match goal with |- context [AddRef eye ?s2] =>
      destruct (AddRef eye s2) as [x s3] end.
    cbn [snd]. by destruct (Release eye s3).
Qed.

(** [display_decklink_getf] in stereo mode, on a session whose free list
    satisfies [pool_inv] and whose right eyes all have a count of at least
    1.  It returns a 3D frame with count 1 that is not on the free list.
    The [AddRef] of [GetFrameForRightEye] and the [Release] that follows
    leave the right eye where it was: its count is that from before the
    call (1 for a newly allocated pair) and it is not put on the free
    list.  No frame outside the free list is changed, and both invariants
    hold afterwards. *)
Theorem stereo_getf_keeps_right_eye (env : negotiation) (s : state_decklink) :
  initialized s = true -> audio_reconfigure s = false -> stereo s = true ->
  pool_inv s -> eyes_inv s ->
  exists f fr e fe s',
    display_decklink_getf env s = (Some f, s')
    /\ heap s' !! f = Some fr /\ ref fr = 1 /\ rightEye fr = Some e
    /\ heap s' !! e = Some fe /\ 1 <= ref fe < ULONG_MOD
    /\ ((length (heap s) <= e)%nat -> ref fe = 1)
    /\ (f ∉ buffer_pool s') /\ (e ∉ buffer_pool s')
    /\ (forall g, (g < length (heap s))%nat -> g ∉ buffer_pool s ->
                  heap s' !! g = heap s !! g)
    /\ pool_inv s' /\ eyes_inv s'.
Proof.
  intros Hini Har Hst Hinv Heyes.
  rewrite getf_ready_stereo by done.
  pose proof (pool_scan_inv (buffer_pool s) s eq_refl Hinv) as Hscan.
  pose proof (pool_scan_matches (buffer_pool s) s) as Hm.
  pose proof (pool_scan_outside (buffer_pool s) s) as Ho.
  cbv zeta in Hscan, Hm, Ho.
  destruct (pool_scan (buffer_pool s) s) as [o s1]. cbn [fst snd] in *.
  destruct Hscan as (Hinv1 & Hres & h & p' & Hs1).
  destruct Hm as [Hlen Hmatch]. destruct Ho as [Hout Heye].
  assert (Heyes1 : eyes_inv s1).
  { intros g fr e Hg He.
    pose proof (Heye g) as Hg'. rewrite Hg in Hg'. cbn in Hg'.
    destruct (heap s !! g) as [fr0|] eqn:Hg0; [|done].
    cbn in Hg'. rewrite He in Hg'. injection Hg' as Hg'. symmetry in Hg'.
    destruct (Heyes g fr0 e Hg0 Hg') as (fe & Hfe & Hr).
    exists fe. split; [|done]. rewrite Hout; [done|].
    eapply pooled_count_zero; [exact Hinv|exact Hfe|lia]. }
  destruct o as [f|].
  - (* a recycled frame *)
    destruct Hres as [Hf1 Hnin]. destruct Hmatch as (fr & Hfr & Hfm).
    assert (Hre : is_Some (rightEye fr)).
    { unfold frame_matches in Hfm. rewrite Hst in Hfm.
      destruct (bool_decide (is_Some (rightEye fr))) eqn:E; [|done].
      by apply bool_decide_eq_true_1 in E. }
    destruct Hre as [e He].
    destruct (Heyes1 f fr e Hfr He) as (fe & Hfe & Hr).
    rewrite Hfr. cbn [mbind option_bind]. rewrite He.
    rewrite (right_eye_step e fe s1) by done.
    exists f, fr, e, fe, s1. split; [done|]. split; [done|].
    split; [by rewrite Hfr in Hf1; injection Hf1|]. split; [done|].
    split; [done|]. split; [done|]. split.
    { intros Hge. apply lookup_lt_Some in Hfe. lia. }
    split; [done|]. split.
    { eapply pooled_count_zero; [exact Hinv1|exact Hfe|lia]. }
    split; [intros g _ Hg; by apply Hout|]. done.
  - (* a new pair of frames *)
    set (n := length (heap s1)).
    set (mk := new_frame (width (vid_desc s1)) (height (vid_desc s1))
                 (vc_get_linesize (width (vid_desc s1)) (color_spec (vid_desc s1)))
                 (pixelFormat s1)).
    set (s2 := set_heap (heap s1 ++ [mk (Some (S n)); mk None]) s1).
    assert (Hn : heap s2 !! n = Some (mk (Some (S n)))).
    { subst s2. cbn [heap set_heap upd_store].
      rewrite lookup_app_r by (subst n; lia).
      by replace (n - length (heap s1))%nat with O by (subst n; lia). }
    assert (Hn1 : heap s2 !! S n = Some (mk None)).
    { subst s2. cbn [heap set_heap upd_store].
      rewrite lookup_app_r by (subst n; lia).
      by replace (S n - length (heap s1))%nat with 1%nat by (subst n; lia). }
    assert (Hold : forall g, (g < n)%nat -> heap s2 !! g = heap s1 !! g).
    { intros g Hg. subst s2. cbn [heap set_heap upd_store].
      by rewrite lookup_app_l. }
    pose proof ULONG_MOD_gt_1 as HM.
    rewrite Hn. cbn [mbind option_bind rightEye mk new_frame].
    rewrite (right_eye_step (S n) (mk None) s2) by (done || (cbn; lia)).
    exists n, (mk (Some (S n))), (S n), (mk None), s2.
    split; [done|]. split; [done|]. split; [done|]. split; [done|].
    split; [done|]. split; [cbn; lia|]. split; [done|].
    assert (Hp2 : buffer_pool s2 = []) by exact Hres.
    split; [rewrite Hp2; apply not_elem_of_nil|].
    split; [rewrite Hp2; apply not_elem_of_nil|].
    split.
    { intros g Hg Hnp. rewrite Hold by (subst n; lia). by apply Hout. }
    split.
    { split; rewrite Hp2; constructor. }
    intros g fr e Hg He.
    destruct (decide (g < n)%nat) as [Hlt|Hge].
    + rewrite Hold in Hg by done.
      destruct (Heyes1 g fr e Hg He) as (fe & Hfe & Hr).
      exists fe. split; [|done]. rewrite Hold; [done|].
      by apply lookup_lt_Some in Hfe.
    + assert (Hg2 : (g < n + 2)%nat).
      { apply lookup_lt_Some in Hg. subst s2.
        cbn [heap set_heap upd_store] in Hg. rewrite length_app in Hg.
        cbn in Hg. subst n. lia. }
      destruct (decide (g = n)) as [->|Hne].
      * rewrite Hn in Hg. injection Hg as <-. cbn in He. injection He as <-.
        exists (mk None). split; [done|]. cbn. lia.
      * replace g with (S n) in Hg by lia. rewrite Hn1 in Hg.
        injection Hg as <-. done.
Qed.

End SessionLemmas.

(** ** Timecode *)

Lemma nibble_extract (x k : Z) :
  0 <= k -> Z.shiftr (Z.land x (Z.shiftl 15 k)) k = (x / 2 ^ k) mod 16.
Proof.
  intros Hk. rewrite Z.shiftr_land, Z.shiftr_shiftl_l by lia.
  rewrite Z.sub_diag, Z.shiftl_0_r. change 15 with (Z.ones 4).
  rewrite Z.land_ones by lia. by rewrite Z.shiftr_div_pow2 by lia.
Qed.

Lemma lor_shiftl_add (a b n : Z) :
  0 <= n -> 0 <= a < 2 ^ n -> Z.lor a (Z.shiftl b n) = a + b * 2 ^ n.
Proof.
  intros Hn Ha. rewrite <- Z.shiftl_mul_pow2 by lia.
  symmetry. apply Z.add_nocarry_lor. apply Z.bits_inj'. intros i Hi.
  rewrite Z.land_spec, Z.bits_0.
  destruct (Z.lt_ge_cases i n) as [Hlt|Hge].
  - rewrite Z.shiftl_spec_low by lia. apply andb_false_r.
  - rewrite <- (Z.mod_small a (2 ^ n)) by lia.
    by rewrite Z.mod_pow2_bits_high by lia.
Qed.

(** The BCD word that [update_timecode] packs decodes to the components it
    was packed from. *)
Lemma pack_decode (hours minutes seconds frames : Z) :
  0 <= hours < 80 -> 0 <= minutes < 160 -> 0 <= seconds < 160 ->
  0 <= frames < 160 ->
  GetComponents
    (to_uint32
       (Z.lor (Z.lor (Z.lor (Z.lor (Z.lor (Z.lor (Z.lor
          (frames mod 10)
          (Z.shiftl (frames / 10) 4))
          (Z.shiftl (seconds mod 10) 8))
          (Z.shiftl (seconds / 10) 12))
          (Z.shiftl (minutes mod 10) 16))
          (Z.shiftl (minutes / 10) 20))
          (Z.shiftl (hours mod 10) 24))
          (Z.shiftl (hours / 10) 28)))
  = (hours, minutes, seconds, frames).
Proof.
  intros Hh Hm Hs Hf.
  pose proof (Z.div_mod frames 10 ltac:(lia)) as Ef.
  pose proof (Z.div_mod seconds 10 ltac:(lia)) as Es.
  pose proof (Z.div_mod minutes 10 ltac:(lia)) as Em.
  pose proof (Z.div_mod hours 10 ltac:(lia)) as Eh.
  pose proof (Z.mod_pos_bound frames 10 ltac:(lia)).
  pose proof (Z.mod_pos_bound seconds 10 ltac:(lia)).
  pose proof (Z.mod_pos_bound minutes 10 ltac:(lia)).
  pose proof (Z.mod_pos_bound hours 10 ltac:(lia)).
  set (n0 := frames mod 10) in *. set (n1 := frames / 10) in *.
  set (n2 := seconds mod 10) in *. set (n3 := seconds / 10) in *.
  set (n4 := minutes mod 10) in *. set (n5 := minutes / 10) in *.
  set (n6 := hours mod 10) in *. set (n7 := hours / 10) in *.
  assert (0 <= n1 < 16 /\ 0 <= n3 < 16 /\ 0 <= n5 < 16 /\ 0 <= n7 < 8)
    as (Hn1 & Hn3 & Hn5 & Hn7) by lia.
  clearbody n0 n1 n2 n3 n4 n5 n6 n7.
  rewrite (lor_shiftl_add n0) by lia.
  rewrite (lor_shiftl_add _ n2 8) by lia.
  rewrite (lor_shiftl_add _ n3 12) by lia.
  rewrite (lor_shiftl_add _ n4 16) by lia.
  rewrite (lor_shiftl_add _ n5 20) by lia.
  rewrite (lor_shiftl_add _ n6 24) by lia.
  rewrite (lor_shiftl_add _ n7 28) by lia.
  rewrite to_uint32_small by (unfold UINT32_MOD; lia).
  change (2 ^ 4) with 16. change (2 ^ 8) with 256.
  change (2 ^ 12) with 4096. change (2 ^ 16) with 65536.
  change (2 ^ 20) with 1048576. change (2 ^ 24) with 16777216.
  change (2 ^ 28) with 268435456.
  set (X := n0 + _ + _ + _ + _ + _ + _ + _).
  unfold GetComponents.
  change (Z.land X 15) with (Z.land X (Z.ones 4)). rewrite Z.land_ones by lia.
  change 240 with (Z.shiftl 15 4). change 3840 with (Z.shiftl 15 8).
  change 61440 with (Z.shiftl 15 12). change 983040 with (Z.shiftl 15 16).
  change 15728640 with (Z.shiftl 15 20). change 251658240 with (Z.shiftl 15 24).
  change 4026531840 with (Z.shiftl 15 28).
  rewrite !nibble_extract by lia.
  change (2 ^ 4) with 16. change (2 ^ 8) with 256.
  change (2 ^ 12) with 4096. change (2 ^ 16) with 65536.
  change (2 ^ 20) with 1048576. change (2 ^ 24) with 16777216.
  change (2 ^ 28) with 268435456.
  assert (E0 : X mod 16 = n0) by (subst X; Z.div_mod_to_equations; lia).
  assert (E1 : (X / 16) mod 16 = n1) by (subst X; Z.div_mod_to_equations; lia).
  assert (E2 : (X / 256) mod 16 = n2) by (subst X; Z.div_mod_to_equations; lia).
  assert (E3 : (X / 4096) mod 16 = n3) by (subst X; Z.div_mod_to_equations; lia).
  assert (E4 : (X / 65536) mod 16 = n4) by (subst X; Z.div_mod_to_equations; lia).
  assert (E5 : (X / 1048576) mod 16 = n5) by (subst X; Z.div_mod_to_equations; lia).
  assert (E6 : (X / 16777216) mod 16 = n6) by (subst X; Z.div_mod_to_equations; lia).
  assert (E7 : (X / 268435456) mod 16 = n7) by (subst X; Z.div_mod_to_equations; lia).
  rewrite E0, E1, E2, E3, E4, E5, E6, E7. unfold to_uint8.
  rewrite !Z.mod_small by lia.
  repeat f_equal; lia.
Qed.

Lemma GetComponents_range (timecode : Z) :
  let '(h, m, s, f) := GetComponents timecode in
  0 <= h < 256 /\ 0 <= m < 256 /\ 0 <= s < 256 /\ 0 <= f < 256.
Proof.
  unfold GetComponents, to_uint8. split_and!; by apply Z.mod_pos_bound.
Qed.

(** One call of [update_timecode] on a timecode of less than 24 hours,
    60 minutes, 60 seconds and 159 frames.  When the incremented frame
    count does not exceed [fps - epsilon] only the frame count grows.
    Otherwise the frame count restarts at 0 and the second, minute and
    hour carry as on a clock, the hour wrapping from 23 to 0; at a
    drop-frame rate a minute that is not a multiple of ten starts at
    second 2. *)
Theorem update_timecode_step (timecode : Z) (fps : spec_float)
    (h m s f : Z) :
  GetComponents timecode = (h, m, s, f) ->
  h < 24 -> m < 60 -> s < 60 -> f < 159 ->
  GetComponents (update_timecode timecode fps)
  = if frame_count_reached fps (f + 1) then
      if s <? 59 then (h, m, s + 1, 0)
      else
        let s' := if dropFrame fps && negb ((m + 1) mod 10 =? 0)
                  then 2 else 0 in
        if m <? 59 then (h, m + 1, s', 0)
        else (if h <? 23 then h + 1 else 0, 0, s', 0)
    else (h, m, s, f + 1).
Proof.
  intros Hc Hh Hm Hs Hf.
  pose proof (GetComponents_range timecode) as Hr. rewrite Hc in Hr.
  destruct Hr as (Hh0 & Hm0 & Hs0 & Hf0).
  unfold update_timecode. rewrite Hc. unfold to_uint8.
  rewrite (Z.mod_small (f + 1)) by lia.
  destruct (frame_count_reached fps (f + 1)).
  - rewrite (Z.mod_small (s + 1)) by lia.
    destruct (Z.ltb_spec s 59) as [Hs59|Hs59].
    + replace (60 <=? s + 1) with false by (symmetry; apply Z.leb_gt; lia).
      apply pack_decode; lia.
    + replace (60 <=? s + 1) with true by (symmetry; apply Z.leb_le; lia).
      rewrite (Z.mod_small (m + 1)) by lia. cbv zeta.
      destruct (Z.ltb_spec m 59) as [Hm59|Hm59].
      * replace (60 <=? m + 1) with false by (symmetry; apply Z.leb_gt; lia).
        apply pack_decode; try lia. destruct (_ && _); lia.
      * replace (60 <=? m + 1) with true by (symmetry; apply Z.leb_le; lia).
        rewrite (Z.mod_small (h + 1)) by lia.
        destruct (Z.ltb_spec h 23) as [Hh23|Hh23].
        -- replace (24 <=? h + 1) with false by (symmetry; apply Z.leb_gt; lia).
           apply pack_decode; try lia. destruct (_ && _); lia.
        -- replace (24 <=? h + 1) with true by (symmetry; apply Z.leb_le; lia).
           apply pack_decode; try lia. destruct (_ && _); lia.
  - apply pack_decode; lia.
Qed.

Lemma counts_to_spec fps rate :
  counts_to fps rate = true ->
  dropFrame fps = false
  /\ frame_count_reached fps rate = true
  /\ forall k, 1 <= k < rate -> frame_count_reached fps k = false.
Proof.
  unfold counts_to. intros Hc.
  apply andb_true_iff in Hc as [Hc Hall]. apply andb_true_iff in Hc as [Hd Hr].
  split; [by apply negb_true_iff|]. split; [done|].
  intros k Hk. rewrite forallb_forall in Hall.
  specialize (Hall (Z.to_nat k)). rewrite Z2Nat.id in Hall by lia.
  apply negb_true_iff, Hall. apply in_seq. lia.
Qed.

Lemma frame_number_step (timecode : Z) (fps : spec_float) (rate : Z) :
  counts_to fps rate = true -> 1 <= rate <= 159 ->
  valid_timecode rate (GetComponents timecode) ->
  valid_timecode rate (GetComponents (update_timecode timecode fps))
  /\ frame_number rate (GetComponents (update_timecode timecode fps))
     = (frame_number rate (GetComponents timecode) + 1) mod (24 * 3600 * rate).
Proof.
  intros Hc Hrate Hv.
  destruct (counts_to_spec fps rate Hc) as (Hd & Hr & Hnr).
  destruct (GetComponents timecode) as [[[h m] s] f] eqn:E.
  destruct Hv as (Hh & Hm & Hs & Hf).
  rewrite (update_timecode_step timecode fps h m s f E) by lia.
  rewrite Hd. cbn [andb]. cbv zeta.
  destruct (Z.eq_dec (f + 1) rate) as [Heq|Hne].
  - rewrite Heq, Hr.
    destruct (Z.ltb_spec s 59); [|destruct (Z.ltb_spec m 59);
      [|destruct (Z.ltb_spec h 23)]]; unfold valid_timecode, frame_number.
    + split; [lia|]. rewrite Z.mod_small by nia. nia.
    + split; [lia|]. rewrite Z.mod_small by nia. nia.
    + split; [lia|]. rewrite Z.mod_small by nia. nia.
    + split; [lia|].
      replace (((h * 60 + m) * 60 + s) * rate + f + 1) with (24 * 3600 * rate)
        by nia.
      rewrite Z.mod_same by lia. lia.
  - rewrite Hnr by lia. unfold valid_timecode, frame_number.
    split; [lia|]. rewrite Z.mod_small by nia. nia.
Qed.

Lemma timecode_counts (n : nat) : forall (timecode : Z) (fps : spec_float)
    (rate : Z),
  counts_to fps rate = true -> 1 <= rate <= 159 ->
  valid_timecode rate (GetComponents timecode) ->
  let c' := GetComponents (update_timecode_n n timecode fps) in
  valid_timecode rate c'
  /\ frame_number rate c'
     = (frame_number rate (GetComponents timecode) + Z.of_nat n)
       mod (24 * 3600 * rate).
Proof.
  induction n as [|n IH]; intros timecode fps rate Hc Hrate Hv.
  - cbn [update_timecode_n]. split; [done|]. rewrite Z.add_0_r.
    symmetry. apply Z.mod_small.
    destruct (GetComponents timecode) as [[[h m] s] f].
    unfold valid_timecode, frame_number in *. nia.
  - cbn [update_timecode_n]. cbv zeta.
    destruct (frame_number_step timecode fps rate Hc Hrate Hv) as [Hv1 Hn1].
    destruct (IH _ fps rate Hc Hrate Hv1) as [Hv2 Hn2]. split; [exact Hv2|].
    rewrite Hn2, Hn1. rewrite Z.add_mod_idemp_l by lia. f_equal. lia.
Qed.

(** The frame count of a time of the day is its frame number modulo the
    rate. *)
Lemma frame_number_frames rate h m s f :
  valid_timecode rate (h, m, s, f) ->
  f = frame_number rate (h, m, s, f) mod rate.
Proof.
  intros (_ & _ & _ & Hf). unfold frame_number.
  rewrite Z.add_comm, Z_mod_plus_full. symmetry. by apply Z.mod_small.
Qed.

(** At a rate at which [update_timecode] counts [rate] frames to the
    second (no drop-frame rate, [rate] at most 159), [n] calls advance a
    time of the day by exactly [n] frames, modulo the frames of a day, and
    the timecode stays a time of the day.  Up to 100 frames per second it
    satisfies the [assert] of [GetString]; above, the frame count passes
    99, which that [assert] rejects. *)
Theorem timecode_counts_frames (n : nat) (timecode : Z) (fps : spec_float)
    (rate : Z) :
  counts_to fps rate = true -> 1 <= rate <= 159 ->
  valid_timecode rate (GetComponents timecode) ->
  let c' := GetComponents (update_timecode_n n timecode fps) in
  valid_timecode rate c'
  /\ frame_number rate c'
     = (frame_number rate (GetComponents timecode) + Z.of_nat n)
       mod (24 * 3600 * rate)
  /\ (rate <= 100 -> GetString_asserts c')
  /\ (100 < rate ->
      exists k, ~ GetString_asserts
                    (GetComponents (update_timecode_n k timecode fps))).
Proof.
  intros Hc Hrate Hv. cbv zeta.
  destruct (timecode_counts n timecode fps rate Hc Hrate Hv) as [Hv' Hn'].
  split; [exact Hv'|]. split; [exact Hn'|]. split.
  - intros Hle.
    destruct (GetComponents (update_timecode_n n timecode fps)) as [[[h m] s] f].
    unfold valid_timecode in Hv'. unfold GetString_asserts. lia.
  - intros Hgt.
    set (N0 := frame_number rate (GetComponents timecode)).
    set (k := Z.to_nat ((100 - N0) mod rate)).
    exists k.
    destruct (timecode_counts k timecode fps rate Hc Hrate Hv) as [Hvk Hnk].
    cbv zeta in Hvk, Hnk. fold N0 in Hnk.
    destruct (GetComponents (update_timecode_n k timecode fps))
      as [[[h m] s] f].
    pose proof (frame_number_frames rate h m s f Hvk) as Hf.
    rewrite Hnk in Hf.
    rewrite Z.mod_mod_divide in Hf by (by exists (24 * 3600)).
    assert (Hk : Z.of_nat k = (100 - N0) mod rate).
    { subst k. rewrite Z2Nat.id; [done|]. apply Z.mod_pos_bound. lia. }
    rewrite Hk, Z.add_mod_idemp_r in Hf by lia.
    replace (N0 + (100 - N0)) with 100 in Hf by lia.
    rewrite Z.mod_small in Hf by lia.
    unfold GetString_asserts. lia.
Qed.

(** ** Display mode lookup *)

(** [get_mode] over the modes of a device.  It returns the first mode whose
    name can be read, whose size is the requested one and whose frame rate
    and interlacing fit, together with that mode's frame duration and time
    scale.  When no mode fits it returns [bmdModeUnknown], and the two rate
    parameters hold the values of the last mode of the requested size,
    or what they held before if there is none. *)
Theorem get_mode_first_match (bmdModeUnknown : Z) (modes : list display_mode)
    (desc : video_desc) (fps : spec_float) (il : bool) (rate : Z * Z) :
  let ok m := mode_fits desc m && mode_selected fps il m in
  let r := get_mode bmdModeUnknown (Some modes) desc fps il rate in
  match list_find (fun m => ok m = true) modes with
  | Some (i, m) =>
      r = (dm_mode m, (dm_duration m, dm_scale m))
  | None =>
      fst r = bmdModeUnknown
      /\ snd r = from_option (fun m => (dm_duration m, dm_scale m)) rate
                   (last (filter (fun m => mode_fits desc m = true) modes))
  end.
Proof.
  cbv zeta. unfold get_mode. revert rate.
  induction modes as [|m rest IH]; intros rate; [done|].
  cbn [get_mode_loop list_find]. rewrite filter_cons.
  destruct (mode_fits desc m) eqn:Hfit; cbn [andb].
  - destruct (mode_selected fps il m) eqn:Hsel.
    + repeat case_decide; try done; congruence.
    + repeat case_decide; try done; try congruence.
      specialize (IH (dm_duration m, dm_scale m)).
      destruct (list_find _ rest) as [[i m']|]; simpl; [exact IH|].
      destruct IH as [-> ->]. split; [done|].
      destruct (filter _ rest) as [|x l] eqn:E; [done|].
      rewrite last_cons_cons.
      by destruct (proj2 (last_is_Some (x :: l)) ltac:(done)) as [y ->].
  - repeat case_decide; try done; try congruence.
    specialize (IH rate).
    destruct (list_find _ rest) as [[i m']|]; simpl; exact IH.
Qed.


(** ** Instances *)

(** Closes a goal about concrete states by evaluation. *)
Ltac evaluate :=
  vm_compute; repeat split;
  first [reflexivity | discriminate | (intros; discriminate)].


(** C1 at the scenario of the specification: eight frames, lookahead 4 to
    6, an idle device, the frames [6] and [7] ending on the free list; and
    six frames submitted to an empty queue. *)
Lemma ScheduleNextFrame_drains_witness :
  (let s := scenario_submitted 8 4 6 in
   let s' := snd (@ScheduleNextFrame platform32 0 s) in
   schedFrames (delegate s) = seq 0 8
   /\ dev s' = sched_events 1000 50000 0 (seq 0 6)
   /\ log s' = [DismissedFrame 6; DismissedFrame 7]
   /\ schedSeq (delegate s') = 6
   /\ frame_ref (heap s') 6 = 0
   /\ frame_ref (heap s') 7 = 0
   /\ [6%nat; 7%nat] `suffix_of` buffer_pool s')
  /\ (let s := scenario_start 6 4 6 in
      let s' := snd (@ScheduleNextFrame platform32 0
                       (snd (@submit_all platform32 (scenario_frames 6) s))) in
      dev s' = sched_events 1000 50000 0 (seq 0 6) /\ log s' = []).
Proof.
  split.
  - destruct (proj1 (@ScheduleNextFrame_drains platform32) (scenario_submitted 8 4 6) 0)
      as (Hdev & Hlog & _ & Hseq & _); [evaluate|evaluate|evaluate|].
    destruct (proj2 (proj2 (@ScheduleNextFrame_drains platform32))
                (scenario_submitted 8 4 6) 0) as [Hz Hsuf].
    { evaluate. }
    { evaluate. }
    { evaluate. }
    { vm_compute. apply (NoDup_seq 0 8). }
    { vm_compute. repeat constructor. }
    { intros l Hl. revert Hl. evaluate. }
    split; [evaluate|]. split; [rewrite Hdev; evaluate|].
    split; [rewrite Hlog; evaluate|]. split; [rewrite Hseq; evaluate|].
    split; [apply Hz; vm_compute; repeat constructor|].
    split; [apply Hz; vm_compute; repeat constructor|].
    exact Hsuf.
  - destruct (proj1 (proj2 (@ScheduleNextFrame_drains platform32))
                (scenario_start 6 4 6) (scenario_frames 6) 0)
      as (Hdev & Hlog & _); [evaluate..|].
    split; [rewrite Hdev; evaluate|rewrite Hlog; evaluate].
Defined.

(** C1 as stated fails: of eight dequeued frames two are dismissed and
    [schedSeq] grows by six, not eight; and with a lookahead of 22, eleven
    submissions lead to ten scheduled frames, the queue taking only ten. *)
Lemma drain_skips_sequence_of_dismissed :
  (let s := scenario_submitted 8 4 6 in
   let s' := snd (@ScheduleNextFrame platform32 0 s) in
   length (schedFrames (delegate s)) = 8%nat
   /\ schedFrames (delegate s') = []
   /\ schedSeq (delegate s) = 0
   /\ schedSeq (delegate s') = 6
   /\ schedSeq (delegate s') <> schedSeq (delegate s) + 8)
  /\ (let s := scenario_start 11 20 22 in
      let r := @submit_all platform32 (scenario_frames 11) s in
      let s' := snd (@ScheduleNextFrame platform32 0 (snd r)) in
      (11 <= m_max_sched_frames (delegate s))
      /\ length (fst r) = 11%nat
      /\ video_frames (dev s') = seq 0 10
      /\ length (video_frames (dev s')) <> 11%nat).
Proof. by vm_compute. Qed.

(** C2 at a full queue, and for eleven submissions. *)
Lemma EnqueueFrame_bounded_witness :
  (let r := @EnqueueFrame platform32 10%nat scenario_full in
   length (schedFrames (delegate scenario_full)) = 10%nat
   /\ fst r = false
   /\ schedFrames (delegate (snd r)) = seq 0 10
   /\ m_audio_sync_ts (delegate (snd r)) = resync
   /\ log (snd r) = [QueueOverflow 10]
   /\ buffer_pool (snd r) = [10%nat])
  /\ (let r := @submit_all platform32 (scenario_frames 11) (scenario_start 11 4 6) in
      fst r = replicate 10 true ++ [false]
      /\ m_audio_sync_ts (delegate (snd r)) = resync).
Proof.
  split.
  - destruct (proj1 (@EnqueueFrame_bounded platform32) scenario_full 10%nat)
      as (_ & _ & Hfalse); [evaluate|].
    destruct Hfalse as (Hq & Hsync & Hlog & _ & _ & _ & Hpool); [evaluate|].
    destruct (Hpool (new_frame 1920 1080 3840 0 None)) as [_ Hp];
      [evaluate|evaluate|].
    split; [evaluate|]. split; [evaluate|].
    split; [rewrite Hq; evaluate|].
    split; [exact Hsync|]. split; [rewrite Hlog; evaluate|].
    rewrite Hp. evaluate.
  - destruct (proj2 (@EnqueueFrame_bounded platform32) (scenario_start 11 4 6)
                (scenario_frames 11))
      as (Hrs & _ & Hsync & _); [evaluate..|].
    split; [exact Hrs|exact Hsync].
Defined.

(** C3 right after a reconfiguration, the device reporting four and three
    buffered frames. *)
Lemma ScheduleNextFrame_underrun_witness :
  @ScheduleNextFrame platform32 4 scenario_running = (tt, scenario_running)
  /\ (let s' := snd (@ScheduleNextFrame platform32 3 scenario_running) in
      dev s' = dev scenario_running ++ [ScheduleVideoFrame (Some 0%nat) 4000 1000 50000]
      /\ schedSeq (delegate s') = schedSeq (delegate scenario_running) + 1
      /\ m_audio_sync_ts (delegate s') = resync
      /\ log s' = [MissingFrame]).
Proof.
  split.
  - apply (@ScheduleNextFrame_underrun platform32 scenario_running 4);
      evaluate.
  - destruct (@ScheduleNextFrame_underrun platform32 scenario_running 3) as [_ H3];
      [evaluate|].
    rewrite H3 by (evaluate). evaluate.
Defined.

(** C4 for two submissions followed by three completions. *)
Lemma presentation_order_witness :
  exists S D,
    dev (snd (@run platform32 two_frames_three_slots scenario_two_acquired))
    = dev scenario_two_acquired ++ D
    /\ S `sublist_of` [1%nat; 2%nat]
    /\ stutter ([0%nat] ++ S) ([0%nat] ++ video_frames D).
Proof.
  destruct (proj1 (@presentation_order platform32) two_frames_three_slots
              scenario_two_acquired) as (S & D & Hdev & Hsub & Hst);
    [evaluate|].
  exists S, D. split; [exact Hdev|]. split; [exact Hsub|exact Hst].
Defined.

(** C5 for the first stamped frame of a running session, scheduled at
    sequence number 4. *)
Lemma drain_publishes_anchor_witness :
  anchor_defined 100 1000 4 50000
  /\ m_audio_sync_ts
       (delegate (snd (@ScheduleNextFrame platform32 3 (scenario_first_frame 100))))
     = 4294960196.
Proof.
  assert (Hd : anchor_defined 100 1000 4 50000) by evaluate.
  split; [exact Hd|].
  destruct (@drain_publishes_anchor platform32 (scenario_first_frame 100) 3)
    as (_ & _ & Hc); [evaluate|evaluate|evaluate|].
  rewrite (Hc 100 4); [evaluate|evaluate|evaluate|exact Hd].
Defined.


(** C9 right after a reconfiguration. *)
Lemma ScheduleAudio_discards_witness :
  ScheduleAudio 50 960 960 scenario_running = (960, scenario_running).
Proof. apply ScheduleAudio_discards; evaluate. Defined.

(** C4 as stated fails: the frame dropped at a full queue is the one being
    submitted, the oldest stays at the head; a drain of eight frames
    schedules the oldest six and dismisses the newest two. *)
Lemma overflow_and_dismissal_drop_the_newest :
  (let s' := snd (@display_decklink_putf platform32 (Some (10%nat, 18100)) scenario_full) in
   schedFrames (delegate scenario_full) = seq 0 10
   /\ schedFrames (delegate s') = seq 0 10
   /\ schedFrames (delegate s') <> seq 1 10
   /\ buffer_pool s' = [10%nat])
  /\ (let s := scenario_submitted 8 4 6 in
      let s' := snd (@ScheduleNextFrame platform32 0 s) in
      schedFrames (delegate s) = seq 0 8
      /\ video_frames (dev s') = seq 0 6
      /\ video_frames (dev s') <> seq 2 6
      /\ buffer_pool s' = [6%nat; 7%nat]).
Proof. by vm_compute. Qed.

(** C5 as stated fails: with timestamp 100 at sequence number 4 the anchor
    is [2^32 - 7100], neither [100 - 1000 * 4 * (90000 / 50000)] in integer
    arithmetic nor the exact [-7100]; and a stamped frame that is dismissed
    publishes nothing although the anchor is [deinit]. *)
Lemma anchor_is_reduced_to_32_bits :
  (let s := scenario_first_frame 100 in
   let anchor' := m_audio_sync_ts (delegate (snd (@ScheduleNextFrame platform32 3 s))) in
   m_audio_sync_ts (delegate s) = deinit
   /\ frame_timestamp (heap s) 1 = 100
   /\ schedSeq (delegate s) = 4
   /\ frameRateDuration (delegate s) = 1000
   /\ frameRateScale (delegate s) = 50000
   /\ anchor' = 4294960196
   /\ anchor' <> 100 - 1000 * 4 * (90000 / 50000)
   /\ anchor' * 50000 <> 100 * 50000 - 1000 * 4 * 90000)
  /\ (let s := scenario_first_frame 100 in
      let s' := snd (@ScheduleNextFrame platform32 6 s) in
      schedFrames (delegate s) = [1%nat]
      /\ frame_timestamp (heap s) 1 <> INT64_MIN
      /\ m_audio_sync_ts (delegate s) = deinit
      /\ m_audio_sync_ts (delegate s') = deinit
      /\ log s' = [DismissedFrame 6]).
Proof. by vm_compute. Qed.

(** C8 as stated fails: with an audio reconfiguration pending,
    [display_decklink_getf] runs the reconfiguration and returns a
    buffer. *)
Lemma getf_applies_pending_audio_reconfiguration :
  let s := scenario_audio_pending in
  let r := @display_decklink_getf platform32 negotiation_ok s in
  initialized s = true
  /\ audio_reconfigure s = true
  /\ fst r = Some 2%nat
  /\ audio_reconfigure (snd r) = false.
Proof. by vm_compute. Qed.

(** The producer acquired two frames and gave one back: it is on the free
    list, and the next [display_decklink_getf] takes it from there. *)
Lemma pool_keeps_counts_witness :
  (pool_inv scenario_one_returned /\ buffer_pool scenario_one_returned = [1%nat])
  /\ (exists f s',
        @display_decklink_getf platform32 negotiation_ok scenario_one_returned
        = (Some f, s')
        /\ ref <$> heap s' !! f = Some 1
        /\ (f ∉ buffer_pool s')
        /\ pool_inv s').
Proof.
  destruct (@pool_keeps_counts platform32) as (HR & _ & HG).
  assert (Hinv : pool_inv scenario_two_acquired)
    by (vm_compute; split; constructor).
  assert (Hfr : exists fr, heap scenario_two_acquired !! 1%nat = Some fr
                           /\ ref fr = 1)
    by (vm_compute; eexists; split; reflexivity).
  destruct Hfr as (fr & Hfr & Hr).
  destruct (HR scenario_two_acquired 1%nat fr Hinv Hfr) as [Hinv' Hp].
  { rewrite Hr. evaluate. }
  split.
  - split; [exact Hinv'|]. evaluate.
  - apply (HG negotiation_ok scenario_one_returned Hinv'); evaluate.
Defined.

(** Thirteen submissions to an empty queue. *)
Lemma queue_stays_bounded_witness :
  Z.of_nat (length (schedFrames (delegate
     (snd (@run platform32 thirteen_submissions (scenario_start 13 4 6))))))
  <= MAX_UNPROC_QUEUE_SIZE.
Proof.
  apply (@queue_stays_bounded platform32 thirteen_submissions
           (scenario_start 13 4 6)); evaluate.
Defined.


(** Three rounds of a producer right after a reconfiguration in low-latency
    mode: one frame is allocated and used three times. *)
Lemma low_latency_recycles_witness :
  low_latency_ready scenario_low_latency
  /\ (let r := @produce platform32 negotiation_ok [100; 1900; 3700]
                 scenario_low_latency in
      fst r = [true; true; true]
      /\ length (displayed (dev (snd r))) = 3%nat
      /\ (length (heap (snd r)) <= 1)%nat
      /\ pool_inv (snd r)).
Proof.
  assert (Hr : low_latency_ready scenario_low_latency)
    by (vm_compute; repeat split; constructor).
  split; [exact Hr|].
  destruct (@low_latency_recycles platform32 negotiation_ok [100; 1900; 3700]
              scenario_low_latency Hr) as (H1 & H2 & H3 & _ & H5 & _).
  cbv zeta. split; [exact H1|]. split; [rewrite H2; evaluate|].
  split; [|exact H5].
  etransitivity; [exact H3|]. evaluate.
Defined.

(** A packet of 960 samples right after a reconfiguration in scheduled
    mode. *)
Lemma put_audio_frame_gating_witness :
  play_audio scenario_with_audio = true
  /\ (let r := display_decklink_put_audio_frame device_takes_all
                 stereo_packet scenario_with_audio in
      snd r = scenario_with_audio
      /\ exists events,
           fst r = Some events
           /\ last events = Some (DriftFixerUpdate 0 960 960)).
Proof.
  assert (Hp : play_audio scenario_with_audio = true) by evaluate.
  split; [exact Hp|].
  destruct (put_audio_frame_gating device_takes_all stereo_packet
              scenario_with_audio Hp) as (_ & H2 & _).
  destruct H2 as (Hs & events & He & _ & Hl);
    [evaluate|evaluate|evaluate|evaluate|].
  cbv zeta. split; [exact Hs|]. exists events. split; [exact He|exact Hl].
Defined.

(** A running session with audio changes to eight channels of 32 bit. *)
Lemma audio_format_change_witness :
  (play_audio scenario_with_audio = true
   /\ initialized scenario_with_audio = true
   /\ audio_reconfigure scenario_with_audio = false)
  /\ (let r1 := display_decklink_reconfigure_audio 32 8 48000
                  scenario_with_audio in
      let r := @display_decklink_getf platform32 negotiation_ok (snd r1) in
      fst r1 = Some true
      /\ audio_reconfigure (snd r1) = true
      /\ (forall env frame,
            display_decklink_put_audio_frame env frame (snd r1)
            = (Some [], snd r1))
      /\ is_Some (fst r)
      /\ audio_reconfigure (snd r) = false
      /\ aud_desc (snd r) = mk_audio_desc 4 48000 8).
Proof.
  assert (Hh : play_audio scenario_with_audio = true
               /\ initialized scenario_with_audio = true
               /\ audio_reconfigure scenario_with_audio = false) by evaluate.
  split; [exact Hh|]. destruct Hh as (Hp & Hi & Ha).
  destruct (@audio_format_change platform32 32 8 48000 scenario_with_audio
              Hp Hi Ha) as (_ & H1 & _ & H3);
    [by right|rewrite !elem_of_cons; tauto|].
  destruct H3 as ((Hf & _) & Hput & Hget); [evaluate|].
  destruct (Hget negotiation_ok) as [(Hs & Hf' & Hd & _) _]; [evaluate|].
  cbv zeta. split; [exact H1|]. split; [exact Hf|]. split; [exact Hput|].
  split; [exact Hs|]. split; [exact Hf'|exact Hd].
Defined.

(** One late and one dropped frame among three completions. *)
Lemma completion_statistics_witness :
  let d' := delegate (snd (@run platform32 late_and_dropped
                             (scenario_start 3 4 6))) in
  frames_late d' = 1 /\ frames_dropped d' = 1 /\ frames_flushed d' = 0.
Proof.
  pose proof (@completion_statistics platform32 late_and_dropped
                (scenario_start 3 4 6)) as Hc.
  cbv zeta in Hc.
  destruct Hc as (H1 & H2 & H3); [evaluate|evaluate|evaluate|].
  cbv zeta. rewrite H1, H2, H3. evaluate.
Defined.

(** The last frame of a day at 25 frames per second; and at 29.97 the last
    frame of minute 0, followed by second 2 of minute 1, and that of
    minute 9, followed by second 0 of minute 10. *)
Lemma update_timecode_step_witness :
  GetComponents (update_timecode 0x23595924 fps25) = (0, 0, 0, 0)
  /\ GetComponents (update_timecode 0x00005929 fps2997) = (0, 1, 2, 0)
  /\ GetComponents (update_timecode 0x00095929 fps2997) = (0, 10, 0, 0).
Proof.
  split; [|split].
  - rewrite (update_timecode_step 0x23595924 fps25 23 59 59 24);
      [evaluate|evaluate|lia..].
  - rewrite (update_timecode_step 0x00005929 fps2997 0 0 59 29);
      [evaluate|evaluate|lia..].
  - rewrite (update_timecode_step 0x00095929 fps2997 0 9 59 29);
      [evaluate|evaluate|lia..].
Defined.

(** 1525 frames at 25 frames per second, from midnight; and 120 frames per
    second, where the frame count reaches 100. *)
Lemma timecode_counts_frames_witness :
  (counts_to fps25 25 = true
   /\ (let c := GetComponents (update_timecode_n 1525 0 fps25) in
       valid_timecode 25 c /\ frame_number 25 c = 1525
       /\ GetString_asserts c))
  /\ (counts_to (double_of_Z 120) 120 = true
      /\ exists k, ~ GetString_asserts
                       (GetComponents (update_timecode_n k 0 (double_of_Z 120)))).
Proof.
  split.
  - assert (Hc : counts_to fps25 25 = true) by evaluate.
    split; [exact Hc|].
    destruct (timecode_counts_frames 1525 0 fps25 25 Hc) as (Hv & Hn & Hg & _);
      [lia|vm_compute; repeat split; discriminate|].
    cbv zeta. split; [exact Hv|]. split; [rewrite Hn; evaluate|].
    apply Hg. lia.
  - assert (Hc : counts_to (double_of_Z 120) 120 = true) by evaluate.
    split; [exact Hc|].
    destruct (timecode_counts_frames 0 0 (double_of_Z 120) 120 Hc)
      as (_ & _ & _ & He);
      [lia|vm_compute; repeat split; discriminate|].
    apply He. lia.
Defined.

(** A mono frame of a session without HDR metadata, held by the producer. *)
Lemma QueryInterface_counts_witness :
  let s := scenario_two_acquired in
  (let r := @QueryInterface platform32 HDR_EOTF_NONE 1 IID_IDeckLinkVideoFrame
              true s in
   fst r = (S_OK, Some 1%nat) /\ ref <$> heap (snd r) !! 1%nat = Some 2)
  /\ @QueryInterface platform32 HDR_EOTF_NONE 1
       IID_IDeckLinkVideoFrameMetadataExtensions true s
     = (E_NOINTERFACE, None, s).
Proof.
  assert (Hfr : exists fr, heap scenario_two_acquired !! 1%nat = Some fr
                           /\ ref fr = 1)
    by (vm_compute; eexists; split; reflexivity).
  destruct Hfr as (fr & Hfr & Hr). cbv zeta. split.
  - destruct (@QueryInterface_counts platform32 HDR_EOTF_NONE 1
                IID_IDeckLinkVideoFrame fr scenario_two_acquired Hfr)
      as ([H1 H2] & _);
      [rewrite Hr; evaluate|rewrite Hr; evaluate|reflexivity|].
    split; [exact H1|]. rewrite H2. cbn [heap set_heap upd_store].
    rewrite list_lookup_insert_eq by (by eapply lookup_lt_Some).
    cbn. by rewrite Hr.
  - destruct (@QueryInterface_counts platform32 HDR_EOTF_NONE 1
                IID_IDeckLinkVideoFrameMetadataExtensions fr
                scenario_two_acquired Hfr)
      as (_ & [H1 H2] & _);
      [rewrite Hr; evaluate|rewrite Hr; evaluate|reflexivity|].
    rewrite (surjective_pairing (QueryInterface _ _ _ _ _)).
    rewrite H1, H2. reflexivity.
Defined.

(** [Reset] on the running session: the delegate gives up its reference to
    the pre-filled frame [0], whose count goes from 5 to 4; nothing is put
    on the free list. *)
Lemma Reset_clears_witness :
  exists h,
    @Reset platform32 scenario_running
    = (tt, after scenario_running h []
             (upd_sched [] None 0 (delegate scenario_running))
             (dev scenario_running) (log scenario_running))
    /\ frame_ref (heap scenario_running) 0 = 5
    /\ frame_ref h 0 = 4.
Proof.
  assert (Hfr : exists fr, heap scenario_running !! 0%nat = Some fr
                           /\ ref fr = 5)
    by (vm_compute; eexists; split; reflexivity).
  destruct Hfr as (fr & Hfr & Hr).
  assert (Hl : held_frames (delegate scenario_running) = [0%nat]) by evaluate.
  destruct (@Reset_clears platform32 scenario_running)
    as (h & p & added & Heq & _ & Hheap & Hp & _ & Hnone).
  rewrite Hl in Hheap, Hnone.
  assert (Hadd : added = []).
  { apply Hnone. intros g fr' Hg Hlk.
    apply list_elem_of_singleton in Hg as ->.
    rewrite Hfr in Hlk. injection Hlk as <-. rewrite Hr. evaluate. }
  subst added. assert (Hp' : p = []) by (rewrite Hp; evaluate). subst p.
  exists h. split; [exact Heq|]. split.
  - unfold frame_ref. rewrite Hfr. exact Hr.
  - unfold frame_ref. rewrite (Hheap 0%nat fr Hfr). cbn [from_option ref set_ref].
    rewrite Hr. evaluate.
Defined.


(** Progressive 1080 lines at 25 and at 60 frames per second on a device
    that offers 1080i50, 1080p25 and 1080p50. *)
Lemma get_mode_first_match_witness :
  get_mode 0x69756e6b (Some modes_1080) desc_1080 fps25 false (0, 0)
  = (2, (1000, 25000))
  /\ get_mode 0x69756e6b (Some modes_1080) desc_1080 (double_of_Z 60) false (0, 0)
     = (0x69756e6b, (1000, 50000)).
Proof.
  split.
  - pose proof (get_mode_first_match 0x69756e6b modes_1080 desc_1080 fps25
                  false (0, 0)) as Hm.
    cbv zeta in Hm.
    replace (list_find _ modes_1080)
      with (Some (1%nat, mk_display_mode true 1920 1080 bmdProgressiveFrame
                           1000 25000 2)) in Hm by (vm_compute; reflexivity).
    exact Hm.
  - pose proof (get_mode_first_match 0x69756e6b modes_1080 desc_1080
                  (double_of_Z 60) false (0, 0)) as Hm.
    cbv zeta in Hm.
    replace (list_find _ modes_1080) with (@None (nat * display_mode)) in Hm
      by (vm_compute; reflexivity).
    destruct Hm as [H1 H2].
    rewrite (surjective_pairing (get_mode _ _ _ _ _ _)), H1, H2. evaluate.
Defined.

(** A stereo producer gets back the frame it displayed before, together
    with its right eye. *)
Lemma stereo_getf_keeps_right_eye_witness :
  (buffer_pool scenario_stereo_returned = [0%nat]
   /\ pool_inv scenario_stereo_returned
   /\ @eyes_inv platform32 scenario_stereo_returned)
  /\ exists f fr e fe s',
       @display_decklink_getf platform32 negotiation_ok scenario_stereo_returned
       = (Some f, s')
       /\ heap s' !! f = Some fr /\ ref fr = 1 /\ rightEye fr = Some e
       /\ heap s' !! e = Some fe /\ 1 <= ref fe
       /\ (e ∉ buffer_pool s') /\ pool_inv s'.
Proof.
  assert (Hp : buffer_pool scenario_stereo_returned = [0%nat]) by evaluate.
  assert (Hinv : pool_inv scenario_stereo_returned).
  { split; vm_compute; [apply NoDup_singleton|repeat constructor]. }
  assert (Hh : exists fr0 fr1,
             heap scenario_stereo_returned = [fr0; fr1]
             /\ rightEye fr0 = Some 1%nat /\ rightEye fr1 = None
             /\ ref fr1 = 1).
  { vm_compute. eexists _, _. repeat split. }
  assert (Heyes : @eyes_inv platform32 scenario_stereo_returned).
  { destruct Hh as (fr0 & fr1 & Hh & H0 & H1 & Hr).
    intros f fr e Hf He. rewrite Hh in Hf |- *.
    destruct f as [|[|f]]; cbn in Hf; [| |discriminate].
    - injection Hf as <-. rewrite H0 in He. injection He as <-.
      exists fr1. split; [reflexivity|]. rewrite Hr. evaluate.
    - injection Hf as <-. rewrite H1 in He. discriminate. }
  split; [by split_and!|].
  destruct (@stereo_getf_keeps_right_eye platform32 negotiation_ok
              scenario_stereo_returned)
    as (f & fr & e & fe & s' & Hg & Hf & Hr & He & Hfe & Hre & _ & _ & Hne
        & _ & Hinv' & _);
    [evaluate|evaluate|evaluate|exact Hinv|exact Heyes|].
  exists f, fr, e, fe, s'. split; [exact Hg|]. split; [exact Hf|].
  split; [exact Hr|]. split; [exact He|]. split; [exact Hfe|].
  split; [exact (proj1 Hre)|]. split; [exact Hne|exact Hinv'].
Defined.
